(** * Stake pool client: binary layouts, fee arithmetic and the withdrawal
      account selector

    A shallow embedding of the parts of the stake-pool JavaScript client that
    its specification talks about:

    - the layout classes [UInt], [Blob] and [FutureEpochLayout] and the two
      declarations of [StakePoolLayout] (bundle and TypeScript source);
    - the fee arithmetic [divideBnToNumber], [calcPoolTokensForDeposit],
      [calcLamportsWithdrawAmount];
    - the withdrawal selector [prepareWithdrawAccounts].

    Conventions of the embedding.

    - A [Buffer] is a list of bytes, a byte is a [Z] in [0, 256).
    - A [BN] big integer is a [Z]; the operations of the big-integer library
      that the code calls are written out in [Module BN].
    - A JavaScript number is an exact rational [Q], kept in lowest terms by
      [Qred] after each arithmetic step; rounding of IEEE doubles and the
      53-bit limit of [toNumber] are outside the model.
    - A call that may throw returns a [result]. *)

From Stdlib Require Import ZArith QArith Qabs Qround Qminmax List Bool String Lia Lqa.
From Stdlib Require Import Permutation Sorted.
Import ListNotations.
Open Scope string_scope.
Open Scope list_scope.
Open Scope Z_scope.
Set Warnings "-register-all".

(** ** Errors and results *)

Inductive Error : Type :=
| RangeError (msg : string)
| TypeError (msg : string)
| NoAccountsFound
| NotEnoughStake (sol : Q).

Inductive result (A : Type) : Type :=
| Ok (a : A)
| Err (e : Error).
Arguments Ok {A} a.
Arguments Err {A} e.

Definition bind {A B : Type} (r : result A) (k : A -> result B) : result B :=
  match r with
  | Ok a => k a
  | Err e => Err e
  end.

Notation "x <- r ;; k" := (bind r (fun x => k))
  (at level 61, r at next level, right associativity).

(** ** Big integers as the code uses them *)

(** The operations of the bn.js package that the code calls, on [Z]; the
    package is outside the sources and the operations are written out as it
    defines them. *)
Module BN.

Definition t := Z.

Definition isZero (a : t) : bool := a =? 0.
Definition sub (a b : t) : t := a - b.
Definition mul (a b : t) : t := a * b.
Definition lt (a b : t) : bool := a <? b.

(** [div] is the quotient rounded toward zero, also for negative operands. *)
Definition div (a b : t) : t := Z.quot a b.

(** [umod] is the unsigned remainder, in [0, |b|). *)
Definition umod (a b : t) : t := a mod (Z.abs b).

(** [gcd] is taken on magnitudes. *)
Definition gcd (a b : t) : t := Z.gcd a b.

(** [toNumber]: the integer as a JavaScript number. *)
Definition toNumber (a : t) : Q := inject_Z a.

End BN.

(** ** Numbers *)

(** [LAMPORTS_PER_SOL] of the web3.js package. *)
Definition LAMPORTS_PER_SOL : Z := 1000000000.

(** Minimum amount of staked SOL required in a validator stake account. *)
Definition MINIMUM_ACTIVE_STAKE : Z := 1000000.

Definition Math_floor (x : Q) : Z := Qfloor x.
Definition Math_min (x y : Q) : Q := Qmin x y.

(** [lamportsToSol] on a number argument. *)
Definition lamportsToSol (lamports : Q) : Q :=
  Qred (Qabs lamports / inject_Z LAMPORTS_PER_SOL).

(** ** Fee arithmetic *)

Record Fee : Type := mkFee { denominator : Z; numerator : Z }.

Definition divideBnToNumber (numerator denominator : BN.t) : Q :=
  if BN.isZero denominator then 0%Q
  else
    let quotient := BN.toNumber (BN.div numerator denominator) in
    let rem := BN.umod numerator denominator in
    let gcd := BN.gcd rem denominator in
    Qred (quotient + BN.toNumber (BN.div rem gcd) / BN.toNumber (BN.div denominator gcd)).

(** ** Buffers *)

Definition Buffer := list Z.

Definition blen (b : Buffer) : Z := Z.of_nat (List.length b).

(** Little-endian value of a run of bytes, and the bytes of a value. *)
Fixpoint le_value (bs : list Z) : Z :=
  match bs with
  | [] => 0
  | x :: rest => x + 256 * le_value rest
  end.

Fixpoint le_bytes (n : nat) (v : Z) : list Z :=
  match n with
  | O => []
  | S k => (v mod 256) :: le_bytes k (v / 256)
  end.

(** [b.slice(start, end)] for [0 <= start <= end]: clamped to the buffer. *)
Definition slice (b : Buffer) (start stop : Z) : Buffer :=
  firstn (Z.to_nat (stop - start)) (skipn (Z.to_nat start) b).

(** Modelled from the spec: [Buffer.readUIntLE] belongs to the buffer package;
    the spec has it read [byteLength] bytes little-endian into an unsigned
    integer, and a read that needs more bytes than available is fatal. *)
Definition readUIntLE (b : Buffer) (offset byteLength : Z) : result Z :=
  if (offset <? 0) || (blen b <? offset + byteLength)
  then Err (RangeError "Trying to access beyond buffer length")
  else Ok (le_value (slice b offset (offset + byteLength))).

(** Modelled from the spec: [Buffer.writeUIntLE] belongs to the buffer
    package; the spec has it write the inverse of the read and fail with a
    [RangeError] when the value exceeds the range of [byteLength] bytes. *)
Definition writeUIntLE (value : Z) (b : Buffer) (offset byteLength : Z) : result Buffer :=
  if (value <? 0) || (2 ^ (8 * byteLength) - 1 <? value)
  then Err (RangeError "value argument is out of bounds")
  else if (offset <? 0) || (blen b <? offset + byteLength)
  then Err (RangeError "Index out of range")
  else Ok (firstn (Z.to_nat offset) b
             ++ le_bytes (Z.to_nat byteLength) value
             ++ skipn (Z.to_nat (offset + byteLength)) b).

(** ** Layouts *)

(** Values that layouts decode to and encode from. *)
Inductive Value : Type :=
| VUndefined
| VNull
| VNum (n : Z)
| VBN (n : Z)
| VBytes (bytes : list Z)
| VObj (fields : list (string * Value)).

(** [dest[key] = v] on an object kept as an association list: an existing
    key keeps its place and takes the new value, a new key goes last. *)
Fixpoint setProperty (dest : list (string * Value)) (key : string) (v : Value)
  : list (string * Value) :=
  match dest with
  | [] => [(key, v)]
  | (k, old) :: rest =>
      if String.eqb k key then (k, v) :: rest
      else (k, old) :: setProperty rest key v
  end.

Fixpoint getProperty (src : list (string * Value)) (key : string) : Value :=
  match src with
  | [] => VUndefined
  | (k, v) :: rest => if String.eqb k key then v else getProperty rest key
  end.

(** The interface of class [Layout]: [span], [property], and the three
    methods, here on an immutable buffer ([encode] returns the buffer it
    wrote together with the number of bytes encoded). *)
Record Layout : Type := mkLayout {
  span : Z;
  property : option string;
  decode : Buffer -> Z -> result Value;
  encode : Value -> Buffer -> Z -> result (Buffer * Z);
  getSpan : Buffer -> Z -> result Z
}.

(** [Layout.getSpan] of the base class. *)
Definition Layout_getSpan (span : Z) (b : Buffer) (offset : Z) : result Z :=
  if span <? 0 then Err (RangeError "indeterminate span") else Ok span.

(** The object that [new UInt(span, property)] builds once the constructor
    has accepted [span]. *)
Definition UInt_object (span : Z) (property : option string) : Layout :=
  {| span := span;
     property := property;
     decode := fun b offset =>
       v <- readUIntLE b offset span ;; Ok (VNum v);
     encode := fun src b offset =>
       match src with
       | VNum n => b' <- writeUIntLE n b offset span ;; Ok (b', span)
       | _ => Err (TypeError "value argument must be a number")
       end;
     getSpan := Layout_getSpan span |}.

(** [new UInt(span, property)]. *)
Definition UInt (span : Z) (property : option string) : result Layout :=
  if 6 <? span
  then Err (RangeError "span must not exceed 6 bytes")
  else Ok (UInt_object span property).

Definition u8 (property : option string) : Layout := UInt_object 1 property.

(** [new Blob(length, property)] for a numeric [length >= 0]. *)
Definition Blob (length : Z) (property : option string) : Layout :=
  {| span := length;
     property := property;
     decode := fun b offset => Ok (VBytes (slice b offset (offset + length)));
     encode := fun src b offset =>
       match src with
       | VBytes bs =>
           if negb (length =? blen bs)
           then Err (TypeError "Blob.encode requires (length) Buffer as src")
           else if blen b <? offset + length
           then Err (RangeError "encoding overruns Buffer")
           else Ok (firstn (Z.to_nat offset) b ++ bs
                      ++ skipn (Z.to_nat (offset + length)) b, length)
       | _ => Err (TypeError "Blob.encode requires (length) Buffer as src")
       end;
     getSpan := fun b offset => Ok length |}.

Definition isAbsent (src : Value) : bool :=
  match src with
  | VNull | VUndefined => true
  | _ => false
  end.

(** [class FutureEpochLayout]. *)
Definition FutureEpochLayout (layout : Layout) (property : option string) : Layout :=
  let discriminator := u8 None in
  {| span := -1;
     property := property;
     encode := fun src b offset =>
       if isAbsent src then encode discriminator (VNum 0) b offset
       else
         r <- encode discriminator (VNum 1) b offset ;;
         w <- encode layout src (fst r) (offset + 1) ;;
         Ok (fst w, snd w + 1);
     decode := fun b offset =>
       d <- decode discriminator b offset ;;
       match d with
       | VNum 0 => Ok VNull
       | _ => decode layout b (offset + 1)
       end;
     getSpan := fun b offset =>
       d <- decode discriminator b offset ;;
       match d with
       | VNum 0 => Ok 1
       | _ => s <- getSpan layout b (offset + 1) ;; Ok (s + 1)
       end |}.

Definition futureEpoch (layout : Layout) (property : option string) : Layout :=
  FutureEpochLayout layout property.

(** *** The layout combinators of the borsh and buffer-layout packages *)

(** Modelled from the spec: [struct] belongs to the buffer-layout package.
    Decode builds a record keyed by each field's [property] in declaration
    order and tracks the consumed span; fields without a name contribute only
    to the span. *)
Fixpoint struct_decode (fields : list Layout) (b : Buffer) (offset : Z)
    (dest : list (string * Value)) : result (list (string * Value) * Z) :=
  match fields with
  | [] => Ok (dest, offset)
  | fd :: rest =>
      dest' <- match property fd with
               | Some p => v <- decode fd b offset ;; Ok (setProperty dest p v)
               | None => Ok dest
               end ;;
      s <- getSpan fd b offset ;;
      struct_decode rest b (offset + s) dest'
  end.

(** Modelled from the spec: encode of [struct] walks the fields in
    declaration order, encodes each named field from the record property of
    that name, zero-fills an unnamed field, and accumulates the offset. *)
Fixpoint struct_encode (fields : list Layout) (src : list (string * Value))
    (b : Buffer) (offset : Z) : result (Buffer * Z) :=
  match fields with
  | [] => Ok (b, offset)
  | fd :: rest =>
      w <- match property fd with
           | Some p => encode fd (getProperty src p) b offset
           | None =>
               if (span fd <? 0) || (blen b <? offset + span fd)
               then Err (RangeError "encoding overruns Buffer")
               else Ok (firstn (Z.to_nat offset) b
                          ++ repeat 0 (Z.to_nat (span fd))
                          ++ skipn (Z.to_nat (offset + span fd)) b, span fd)
           end ;;
      struct_encode rest src (fst w) (offset + snd w)
  end.

Fixpoint struct_getSpan (fields : list Layout) (b : Buffer) (offset : Z) : result Z :=
  match fields with
  | [] => Ok 0
  | fd :: rest =>
      s <- getSpan fd b offset ;;
      t <- struct_getSpan rest b (offset + s) ;;
      Ok (s + t)
  end.

(** The span a structure is constructed with: the sum of the field spans
    when every field has a fixed span, otherwise the value-specific [-1]. *)
Definition struct_span (fields : list Layout) : Z :=
  if forallb (fun fd => 0 <=? span fd) fields
  then fold_right (fun fd acc => span fd + acc) 0 fields
  else -1.

(** A structure object with its [span] attribute; the methods read the
    attribute, so [Layout.span = n] after construction is [Structure n]. *)
Definition Structure (span : Z) (fields : list Layout) (property : option string) : Layout :=
  {| span := span;
     property := property;
     decode := fun b offset =>
       r <- struct_decode fields b offset [] ;; Ok (VObj (fst r));
     encode := fun src b offset =>
       match src with
       | VObj o => w <- struct_encode fields o b offset ;; Ok (fst w, snd w - offset)
       | _ => Err (TypeError "Structure.encode requires an object as src")
       end;
     getSpan := fun b offset =>
       if 0 <=? span then Ok span else struct_getSpan fields b offset |}.

Definition struct (fields : list Layout) (property : option string) : Layout :=
  Structure (struct_span fields) fields property.

(** Modelled from the spec: [u64] and [u32] belong to the borsh and
    buffer-layout packages; little-endian unsigned integers of 8 and 4 bytes,
    the 8-byte one decoding to a big integer. *)
Definition u64 (property : option string) : Layout :=
  {| span := 8;
     property := property;
     decode := fun b offset => v <- readUIntLE b offset 8 ;; Ok (VBN v);
     encode := fun src b offset =>
       match src with
       | VBN n => b' <- writeUIntLE n b offset 8 ;; Ok (b', 8)
       | _ => Err (TypeError "u64 requires a big integer as src")
       end;
     getSpan := fun b offset => Ok 8 |}.

Definition u32 (property : option string) : Layout := UInt_object 4 property.

(** Modelled from the spec: [publicKey] belongs to the borsh package; a
    32-byte blob. *)
Definition publicKey (property : option string) : Layout := Blob 32 property.

(** Modelled from the spec: [option] belongs to the borsh package (bundle)
    and to the utils module of this repository (TypeScript source), neither
    under the sources. Decode reads one discriminator byte; [0] gives [null]
    with span 1, any nonzero byte decodes the inner layout at [offset + 1]
    with span 1 + inner span. Encode writes [0] alone for an absent value,
    otherwise [1] and the inner encoding. *)
Definition OptionLayout (layout : Layout) (property : option string) : Layout :=
  let discriminator := u8 None in
  {| span := -1;
     property := property;
     encode := fun src b offset =>
       if isAbsent src then encode discriminator (VNum 0) b offset
       else
         r <- encode discriminator (VNum 1) b offset ;;
         w <- encode layout src (fst r) (offset + 1) ;;
         Ok (fst w, snd w + 1);
     decode := fun b offset =>
       d <- decode discriminator b offset ;;
       match d with
       | VNum 0 => Ok VNull
       | _ => decode layout b (offset + 1)
       end;
     getSpan := fun b offset =>
       d <- decode discriminator b offset ;;
       match d with
       | VNum 0 => Ok 1
       | _ => s <- getSpan layout b (offset + 1) ;; Ok (s + 1)
       end |}.

(** [borsh.option(layout, property)] of the bundle. *)
Definition option_ (layout : Layout) (property : option string) : Layout :=
  OptionLayout layout property.

(** Modelled from the spec: [option(layout)] of the utils module, called in
    the TypeScript source with the inner layout alone; the spec lists every
    optional field of the pool account under its name and the repository's
    deserialisation test reads [nextSolWithdrawalFee] from the decoded
    record, so the wrapper carries the inner layout's [property]. *)
Definition option_of (layout : Layout) : Layout :=
  OptionLayout layout (property layout).

(** *** Account layouts *)

Definition lockup (property : option string) : Layout :=
  struct [u64 (Some "unixTimestamp"); u64 (Some "epoch"); publicKey (Some "custodian")]
         property.

Definition fee (property : option string) : Layout :=
  struct [u64 (Some "denominator"); u64 (Some "numerator")] property.

(** The field list of [StakePoolLayout] in the bundle. *)
Definition StakePoolLayout_fields : list Layout :=
  [ u8 (Some "accountType");
    publicKey (Some "manager");
    publicKey (Some "staker");
    publicKey (Some "stakeDepositAuthority");
    u8 (Some "stakeWithdrawBumpSeed");
    publicKey (Some "validatorList");
    publicKey (Some "reserveStake");
    publicKey (Some "poolMint");
    publicKey (Some "managerFeeAccount");
    publicKey (Some "tokenProgramId");
    u64 (Some "totalLamports");
    u64 (Some "poolTokenSupply");
    u64 (Some "lastUpdateEpoch");
    lockup (Some "lockup");
    fee (Some "epochFee");
    futureEpoch (fee None) (Some "nextEpochFee");
    option_ (publicKey None) (Some "preferredDepositValidatorVoteAddress");
    option_ (publicKey None) (Some "preferredWithdrawValidatorVoteAddress");
    fee (Some "stakeDepositFee");
    fee (Some "stakeWithdrawalFee");
    fee (Some "nextStakeWithdrawalFee");
    futureEpoch (fee None) (Some "nextStakeWithdrawalFee");
    u8 (Some "stakeReferralFee");
    option_ (publicKey None) (Some "solDepositAuthority");
    fee (Some "solDepositFee");
    u8 (Some "solReferralFee");
    option_ (publicKey None) (Some "solWithdrawAuthority");
    fee (Some "solWithdrawalFee");
    futureEpoch (fee None) (Some "nextSolWithdrawalFee");
    u64 (Some "lastEpochPoolTokenSupply");
    u64 (Some "lastEpochTotalLamports") ].

(** [StakePoolLayout] of the bundle, with [StakePoolLayout.span = 627]. *)
Definition StakePoolLayout : Layout := Structure 627 StakePoolLayout_fields None.

(** The field list of [StakePoolLayout] in the TypeScript source. *)
Definition StakePoolLayout_ts_fields : list Layout :=
  [ u8 (Some "accountType");
    publicKey (Some "manager");
    publicKey (Some "staker");
    publicKey (Some "stakeDepositAuthority");
    u8 (Some "stakeWithdrawBumpSeed");
    publicKey (Some "validatorList");
    publicKey (Some "reserveStake");
    publicKey (Some "poolMint");
    publicKey (Some "managerFeeAccount");
    publicKey (Some "tokenProgramId");
    u64 (Some "totalLamports");
    u64 (Some "poolTokenSupply");
    u64 (Some "lastUpdateEpoch");
    lockup (Some "lockup");
    fee (Some "epochFee");
    option_of (fee (Some "nextEpochFee"));
    option_of (publicKey (Some "preferredDepositValidatorVoteAddress"));
    option_of (publicKey (Some "preferredWithdrawValidatorVoteAddress"));
    fee (Some "stakeDepositFee");
    fee (Some "stakeWithdrawalFee");
    option_of (fee (Some "nextStakeWithdrawalFee"));
    u8 (Some "stakeReferralFee");
    option_of (publicKey (Some "solDepositAuthority"));
    fee (Some "solDepositFee");
    u8 (Some "solReferralFee");
    option_of (publicKey (Some "solWithdrawAuthority"));
    fee (Some "solWithdrawalFee");
    option_of (fee (Some "nextSolWithdrawalFee"));
    u64 (Some "lastEpochPoolTokenSupply");
    u64 (Some "lastEpochTotalLamports") ].

(** [StakePoolLayout] of the TypeScript source. *)
Definition StakePoolLayout_ts : Layout := struct StakePoolLayout_ts_fields None.

(** A pool account as the program stores it: account type 1, every key and
    counter zero, no pending fee, preferred validator or authority, and a
    stake referral fee of 7 percent; zero-padded to 627 bytes. With
    [nextStakeWithdrawalFee] absent at byte 381, the referral fee is byte
    382. *)
Definition poolAccountData : Buffer :=
  [1] ++ repeat 0 381%nat ++ [7] ++ repeat 0 244%nat.

Definition consumed (fields : list Layout) (b : Buffer) : result Z :=
  r <- struct_decode fields b 0 [] ;; Ok (snd r).

Definition decodedProperty (lo : Layout) (b : Buffer) (key : string) : result Value :=
  v <- decode lo b 0 ;;
  match v with
  | VObj o => Ok (getProperty o key)
  | _ => Ok VUndefined
  end.

(** ** Pool state *)

Definition PublicKey := list Z.

Definition PublicKey_equals (a b : PublicKey) : bool :=
  if list_eq_dec Z.eq_dec a b then true else false.

Definition STAKE_POOL_PROGRAM_ID : PublicKey :=
  [6; 129; 78; 212; 202; 246; 138; 23; 70; 114; 253; 172; 134; 3; 26; 99;
   232; 78; 161; 94; 250; 29; 68; 183; 34; 147; 246; 219; 219; 0; 22; 80].

(** [Buffer.from('transient')]. *)
Definition TRANSIENT_STAKE_SEED_PREFIX : Buffer :=
  [116; 114; 97; 110; 115; 105; 101; 110; 116].

(** [ValidatorStakeInfoStatus]. *)
Definition Active : Z := 0.
Definition DeactivatingTransient : Z := 1.
Definition ReadyForRemoval : Z := 2.

Record ValidatorStakeInfo : Type := mkValidatorStakeInfo {
  activeStakeLamports : Z;
  transientStakeLamports : Z;
  lastUpdateEpoch : Z;
  transientSeedSuffixStart : Z;
  transientSeedSuffixEnd : Z;
  status : Z;
  voteAccountAddress : PublicKey
}.

(** The fields of a decoded pool account that the selector and the fee
    arithmetic read. *)
Record StakePool : Type := mkStakePool {
  validatorList : PublicKey;
  reserveStake : PublicKey;
  managerFeeAccount : PublicKey;
  totalLamports : Z;
  poolTokenSupply : Z;
  preferredWithdrawValidatorVoteAddress : option PublicKey;
  stakeWithdrawalFee : Fee
}.

(** What the selector learns through the connection: the decoded validator
    list account, the rent-exempt minimum of a stake account, and the balance
    of the reserve account when it exists. *)
Record Connection : Type := mkConnection {
  validators : list ValidatorStakeInfo;
  getMinimumBalanceForRentExemption : Z;
  reserveStakeLamports : option Z
}.

Inductive AccountType : Type := preferred | active | transient | reserve.

Definition AccountType_eqb (a b : AccountType) : bool :=
  match a, b with
  | preferred, preferred | active, active
  | transient, transient | reserve, reserve => true
  | _, _ => false
  end.

Module ValidatorAccount.
Record t : Type := mk {
  type : AccountType;
  voteAddress : option PublicKey;
  stakeAddress : PublicKey;
  lamports : Z
}.
End ValidatorAccount.

Module WithdrawAccount.
Record t : Type := mk {
  stakeAddress : PublicKey;
  voteAddress : option PublicKey;
  poolAmount : Q
}.
End WithdrawAccount.

(** Modelled from the spec: [Array.prototype.sort] belongs to the engine; a
    stable sort by the sign of the comparator, [cmp a b > 0] placing [a]
    after [b]. *)
Fixpoint sort_insert {A : Type} (cmp : A -> A -> Z) (x : A) (l : list A) : list A :=
  match l with
  | [] => [x]
  | y :: rest => if cmp x y <=? 0 then x :: l else y :: sort_insert cmp x rest
  end.

Fixpoint sort {A : Type} (cmp : A -> A -> Z) (l : list A) : list A :=
  match l with
  | [] => []
  | x :: rest => sort_insert cmp x (sort cmp rest)
  end.

(** ** Fee arithmetic on the pool *)

(** Calculate the pool tokens that should be minted for a deposit of
    [stakeLamports]. *)
Definition calcPoolTokensForDeposit (stakePool : StakePool) (stakeLamports : Z) : Z :=
  if BN.isZero (poolTokenSupply stakePool) || BN.isZero (totalLamports stakePool)
  then stakeLamports
  else Math_floor (divideBnToNumber (BN.mul stakeLamports (poolTokenSupply stakePool))
                                    (totalLamports stakePool)).

(** Calculate lamports amount on withdrawal. *)
Definition calcLamportsWithdrawAmount (stakePool : StakePool) (poolTokens : Z) : Q :=
  let numerator := BN.mul poolTokens (totalLamports stakePool) in
  let denominator := poolTokenSupply stakePool in
  if BN.lt numerator denominator then 0%Q
  else divideBnToNumber numerator denominator.

(** ** The withdrawal account selector *)

Section Selector.

(** [PublicKey.findProgramAddressSync(seeds, programId)], the address
    derivation service. *)
Variable findProgramAddressSync : list Buffer -> PublicKey -> PublicKey.

Definition findStakeProgramAddress (programId voteAccountAddress stakePoolAddress : PublicKey)
  : PublicKey :=
  findProgramAddressSync [voteAccountAddress; stakePoolAddress] programId.

Definition findTransientStakeProgramAddress
    (programId voteAccountAddress stakePoolAddress : PublicKey) (seed : Z) : PublicKey :=
  findProgramAddressSync
    [TRANSIENT_STAKE_SEED_PREFIX; voteAccountAddress; stakePoolAddress; le_bytes 8 seed]
    programId.

Definition types : list AccountType := [preferred; active; transient; reserve].

(** One turn of the loop over the validator list: the accounts pushed for
    [validator]. *)
Definition validatorAccounts (stakePool : StakePool) (stakePoolAddress : PublicKey)
    (minBalance : Z) (validator : ValidatorStakeInfo) : list ValidatorAccount.t :=
  if negb (status validator =? Active) then []
  else
    let stakeAccountAddress :=
      findStakeProgramAddress STAKE_POOL_PROGRAM_ID (voteAccountAddress validator)
                              stakePoolAddress in
    let fromActive :=
      if negb (BN.isZero (activeStakeLamports validator)) then
        let isPreferred :=
          match preferredWithdrawValidatorVoteAddress stakePool with
          | Some k => PublicKey_equals k (voteAccountAddress validator)
          | None => false
          end in
        [ValidatorAccount.mk (if isPreferred then preferred else active)
                             (Some (voteAccountAddress validator))
                             stakeAccountAddress
                             (activeStakeLamports validator)]
      else [] in
    let transientStakeLamports := transientStakeLamports validator - minBalance in
    let fromTransient :=
      if 0 <? transientStakeLamports then
        let transientStakeAccountAddress :=
          findTransientStakeProgramAddress STAKE_POOL_PROGRAM_ID
            (voteAccountAddress validator) stakePoolAddress
            (transientSeedSuffixStart validator) in
        [ValidatorAccount.mk transient (Some (voteAccountAddress validator))
                             transientStakeAccountAddress transientStakeLamports]
      else [] in
    fromActive ++ fromTransient.

Definition defaultCompare (a b : ValidatorAccount.t) : Z :=
  ValidatorAccount.lamports b - ValidatorAccount.lamports a.

(** The pushed reserve account, if any. *)
Definition reserveAccounts (connection : Connection) (stakePool : StakePool)
  : list ValidatorAccount.t :=
  let minBalanceForRentExemption := getMinimumBalanceForRentExemption connection in
  let reserveStakeBalance :=
    match reserveStakeLamports connection with
    | Some l => l
    | None => 0
    end - minBalanceForRentExemption - 1 in
  if 0 <? reserveStakeBalance
  then [ValidatorAccount.mk reserve None (reserveStake stakePool) reserveStakeBalance]
  else [].

(** The array [accounts] when the second loop starts. *)
Definition prepareAccounts (connection : Connection) (stakePool : StakePool)
    (stakePoolAddress : PublicKey)
    (compareFn : option (ValidatorAccount.t -> ValidatorAccount.t -> Z))
  : list ValidatorAccount.t :=
  let minBalanceForRentExemption := getMinimumBalanceForRentExemption connection in
  let minBalance := minBalanceForRentExemption + MINIMUM_ACTIVE_STAKE in
  let accounts :=
    flat_map (validatorAccounts stakePool stakePoolAddress minBalance)
             (validators connection) in
  let accounts :=
    sort (match compareFn with Some f => f | None => defaultCompare end) accounts in
  accounts ++ reserveAccounts connection stakePool.

Definition inverseFee (fee : Fee) : Fee :=
  {| numerator := BN.sub (denominator fee) (numerator fee);
     denominator := denominator fee |}.

(** [availableForWithdrawal] of an account holding [lamports]. *)
Definition availableForWithdrawal (stakePool : StakePool) (skipFee : bool) (lamports : Z) : Q :=
  let inverseFee := inverseFee (stakeWithdrawalFee stakePool) in
  let availableForWithdrawal := calcPoolTokensForDeposit stakePool lamports in
  if negb skipFee && negb (BN.isZero (numerator inverseFee))
  then divideBnToNumber (BN.mul availableForWithdrawal (denominator inverseFee))
                        (numerator inverseFee)
  else inject_Z availableForWithdrawal.

(** The state of the second loop: [withdrawFrom] and [remainingAmount]. *)
Definition WalkState : Type := (list WithdrawAccount.t * Q)%type.

(** The inner loop, over the accounts of one type; it ends at the end of
    the list or at the [break]. *)
Fixpoint walkAccounts (stakePool : StakePool) (skipFee : bool) (minBalance : Z)
    (type : AccountType) (filteredAccounts : list ValidatorAccount.t) (st : WalkState)
  : WalkState :=
  match filteredAccounts with
  | [] => st
  | a :: rest =>
      let (withdrawFrom, remainingAmount) := st in
      let lamports := ValidatorAccount.lamports a in
      if (lamports <=? minBalance) && AccountType_eqb type transient
      then walkAccounts stakePool skipFee minBalance type rest st
      else
        let poolAmount :=
          Math_min (availableForWithdrawal stakePool skipFee lamports) remainingAmount in
        if Qle_bool poolAmount 0
        then walkAccounts stakePool skipFee minBalance type rest st
        else
          let withdrawFrom :=
            withdrawFrom ++ [WithdrawAccount.mk (ValidatorAccount.stakeAddress a)
                                                (ValidatorAccount.voteAddress a)
                                                poolAmount] in
          let remainingAmount := Qred (remainingAmount - poolAmount) in
          if Qeq_bool remainingAmount 0
          then (withdrawFrom, remainingAmount)
          else walkAccounts stakePool skipFee minBalance type rest
                            (withdrawFrom, remainingAmount)
  end.

(** The outer loop, over the types. *)
Fixpoint walkTypes (stakePool : StakePool) (skipFee : bool) (minBalance : Z)
    (accounts : list ValidatorAccount.t) (types : list AccountType) (st : WalkState)
  : WalkState :=
  match types with
  | [] => st
  | type :: rest =>
      let filteredAccounts :=
        filter (fun a => AccountType_eqb (ValidatorAccount.type a) type) accounts in
      let st := walkAccounts stakePool skipFee minBalance type filteredAccounts st in
      if Qeq_bool (snd st) 0 then st
      else walkTypes stakePool skipFee minBalance accounts rest st
  end.

(** The two loops from their initial state. *)
Definition walk (connection : Connection) (stakePool : StakePool)
    (stakePoolAddress : PublicKey) (amount : Q)
    (compareFn : option (ValidatorAccount.t -> ValidatorAccount.t -> Z))
    (skipFee : bool) : WalkState :=
  let minBalance := getMinimumBalanceForRentExemption connection + MINIMUM_ACTIVE_STAKE in
  walkTypes stakePool skipFee minBalance
            (prepareAccounts connection stakePool stakePoolAddress compareFn)
            types ([], amount).

Definition prepareWithdrawAccounts (connection : Connection) (stakePool : StakePool)
    (stakePoolAddress : PublicKey) (amount : Q)
    (compareFn : option (ValidatorAccount.t -> ValidatorAccount.t -> Z))
    (skipFee : bool) : result (list WithdrawAccount.t) :=
  match validators connection with
  | [] => Err NoAccountsFound
  | _ :: _ =>
      let (withdrawFrom, remainingAmount) :=
        walk connection stakePool stakePoolAddress amount compareFn skipFee in
      if negb (Qle_bool remainingAmount 0)
      then Err (NotEnoughStake (lamportsToSol amount))
      else Ok withdrawFrom
  end.

(** The call of the selector in [withdrawStake], made when neither the
    reserve nor a vote account is asked for: fees are skipped when the pool
    token account is the manager fee account. *)
Definition withdrawStake_prepare (connection : Connection) (stakePool : StakePool)
    (stakePoolAddress : PublicKey) (poolAmount : Q)
    (validatorComparator : option (ValidatorAccount.t -> ValidatorAccount.t -> Z))
    (poolTokenAccount : PublicKey) : result (list WithdrawAccount.t) :=
  prepareWithdrawAccounts connection stakePool stakePoolAddress poolAmount
    validatorComparator
    (PublicKey_equals poolTokenAccount (managerFeeAccount stakePool)).

End Selector.

(** ** The selector as the specification words it *)

Section SelectorSpec.

Variables (stakePool : StakePool) (skipFee : bool) (minBalance : Z).

Definition ofType (type : AccountType) (accounts : list ValidatorAccount.t)
  : list ValidatorAccount.t :=
  filter (fun a => AccountType_eqb (ValidatorAccount.type a) type) accounts.

(** The order of the walk: tier by tier, each tier in the order of the
    candidate list. *)
Definition walkOrder (accounts : list ValidatorAccount.t) : list ValidatorAccount.t :=
  ofType preferred accounts ++ ofType active accounts
    ++ ofType transient accounts ++ ofType reserve accounts.

Definition allocation (a : ValidatorAccount.t) (poolAmount : Q) : WithdrawAccount.t :=
  WithdrawAccount.mk (ValidatorAccount.stakeAddress a) (ValidatorAccount.voteAddress a)
                     poolAmount.

(** What the specification says of one candidate: allocate the minimum of
    its available pool tokens and the remaining amount, unless that is not
    positive. *)
Definition claimed_allocate (st : WalkState) (a : ValidatorAccount.t) : WalkState :=
  let poolAmount :=
    Math_min (availableForWithdrawal stakePool skipFee (ValidatorAccount.lamports a))
             (snd st) in
  if Qle_bool poolAmount 0 then st
  else (fst st ++ [allocation a poolAmount], Qred (snd st - poolAmount)).

(** The same with the guard of the code: a transient candidate at or below
    the minimum balance is passed over. *)
Definition spec_allocate (st : WalkState) (a : ValidatorAccount.t) : WalkState :=
  if (ValidatorAccount.lamports a <=? minBalance)
     && AccountType_eqb (ValidatorAccount.type a) transient
  then st
  else claimed_allocate st a.

(** A walk over the candidates in order that ends as soon as the remaining
    amount is zero. *)
Fixpoint walk_until_zero (allocate : WalkState -> ValidatorAccount.t -> WalkState)
    (candidates : list ValidatorAccount.t) (st : WalkState) : WalkState :=
  match candidates with
  | [] => st
  | a :: rest =>
      if Qeq_bool (snd st) 0 then st
      else walk_until_zero allocate rest (allocate st a)
  end.

Definition spec_walk (accounts : list ValidatorAccount.t) (amount : Q) : WalkState :=
  walk_until_zero spec_allocate (walkOrder accounts) ([], amount).

Definition claimed_walk (accounts : list ValidatorAccount.t) (amount : Q) : WalkState :=
  walk_until_zero claimed_allocate (walkOrder accounts) ([], amount).

End SelectorSpec.

(** [Subseq l1 l2]: [l1] is [l2] with some elements left out. *)
Inductive Subseq {A : Type} : list A -> list A -> Prop :=
| Subseq_nil : Subseq [] []
| Subseq_skip (x : A) (l1 l2 : list A) : Subseq l1 l2 -> Subseq l1 (x :: l2)
| Subseq_take (x : A) (l1 l2 : list A) : Subseq l1 l2 -> Subseq (x :: l1) (x :: l2).

Definition totalPoolAmount (withdrawFrom : list WithdrawAccount.t) : Q :=
  fold_right (fun w acc => (WithdrawAccount.poolAmount w + acc)%Q) 0%Q withdrawFrom.

(** The account an allocation was drawn from. *)
Definition sourceOf (a : ValidatorAccount.t) : PublicKey * option PublicKey :=
  (ValidatorAccount.stakeAddress a, ValidatorAccount.voteAddress a).

Definition targetOf (w : WithdrawAccount.t) : PublicKey * option PublicKey :=
  (WithdrawAccount.stakeAddress w, WithdrawAccount.voteAddress w).

(** A comparator that orders: any two elements are comparable and the order
    is transitive. *)
Definition orders {A : Type} (cmp : A -> A -> Z) : Prop :=
  (forall a b, cmp a b <= 0 \/ cmp b a <= 0)
  /\ (forall a b c, cmp a b <= 0 -> cmp b c <= 0 -> cmp a c <= 0).

Definition chosenCompare (compareFn : option (ValidatorAccount.t -> ValidatorAccount.t -> Z))
  : ValidatorAccount.t -> ValidatorAccount.t -> Z :=
  match compareFn with
  | Some f => f
  | None => defaultCompare
  end.

(** The amount an error message reports, if it reports one. *)
Definition reportedAmount (e : Error) : option Q :=
  match e with
  | NotEnoughStake sol => Some sol
  | _ => None
  end.

Definition withFee (stakePool : StakePool) (f : Fee) : StakePool :=
  {| validatorList := validatorList stakePool;
     reserveStake := reserveStake stakePool;
     managerFeeAccount := managerFeeAccount stakePool;
     totalLamports := totalLamports stakePool;
     poolTokenSupply := poolTokenSupply stakePool;
     preferredWithdrawValidatorVoteAddress := preferredWithdrawValidatorVoteAddress stakePool;
     stakeWithdrawalFee := f |}.

Definition setByte (b : Buffer) (offset : Z) (v : Z) : Buffer :=
  firstn (Z.to_nat offset) b ++ [v] ++ skipn (Z.to_nat (offset + 1)) b.

Definition byteAt (b : Buffer) (offset : Z) : Z := nth (Z.to_nat offset) b 0.

(** ** Sample data *)

Module Sample.

(** An address derivation that keeps its seeds apart. *)
Definition pda (seeds : list Buffer) (programId : PublicKey) : PublicKey :=
  List.concat seeds.

Definition poolAddress : PublicKey := [5].

Definition validator (activeLamports transientLamports vote : Z) : ValidatorStakeInfo :=
  mkValidatorStakeInfo activeLamports transientLamports 0 0 0 Active [vote].

(** A pool with a withdrawal fee of 3/2000 and a token price of one. *)
Definition pool : StakePool :=
  mkStakePool [1] [2] [3] 1000 1000 (Some [9]) (mkFee 2000 3).

Definition connection : Connection :=
  mkConnection [validator 500 0 8; validator 700 1000300 9; validator 600 0 7]
               100 (Some 10101).

(** One active validator holding only a transient stake, 5 lamports above
    the minimum balance. *)
Definition transientOnly : Connection :=
  mkConnection [validator 0 1000105 8] 100 None.

End Sample.

(** ** What the candidates can give *)

(** A candidate that the allocation loop does not pass over: any but a
    transient one at or below the minimum balance. *)
Definition considered (minBalance : Z) (a : ValidatorAccount.t) : bool :=
  negb ((ValidatorAccount.lamports a <=? minBalance)
        && AccountType_eqb (ValidatorAccount.type a) transient).

(** The pool tokens one candidate can give, and a list of candidates. *)
Definition capacityOf (stakePool : StakePool) (skipFee : bool) (minBalance : Z)
    (a : ValidatorAccount.t) : Q :=
  if considered minBalance a
  then Qmax 0 (availableForWithdrawal stakePool skipFee (ValidatorAccount.lamports a))
  else 0%Q.

Definition capacity (stakePool : StakePool) (skipFee : bool) (minBalance : Z)
    (accounts : list ValidatorAccount.t) : Q :=
  fold_right (fun a acc => (capacityOf stakePool skipFee minBalance a + acc)%Q) 0%Q accounts.

(** [Drawn stakePool skipFee minBalance withdrawFrom picked]: the allocations
    are drawn one by one from the picked candidates, none passed over by the
    loop, each allocation positive and at most what its candidate has
    available, and equal to it when another allocation follows. *)
Inductive Drawn (stakePool : StakePool) (skipFee : bool) (minBalance : Z)
  : list WithdrawAccount.t -> list ValidatorAccount.t -> Prop :=
| Drawn_nil : Drawn stakePool skipFee minBalance [] []
| Drawn_cons (w : WithdrawAccount.t) (a : ValidatorAccount.t)
    (ws : list WithdrawAccount.t) (cs : list ValidatorAccount.t) :
    targetOf w = sourceOf a ->
    considered minBalance a = true ->
    (0 < WithdrawAccount.poolAmount w)%Q ->
    (WithdrawAccount.poolAmount w
     <= availableForWithdrawal stakePool skipFee (ValidatorAccount.lamports a))%Q ->
    (ws <> [] ->
     WithdrawAccount.poolAmount w
     == availableForWithdrawal stakePool skipFee (ValidatorAccount.lamports a)) ->
    Drawn stakePool skipFee minBalance ws cs ->
    Drawn stakePool skipFee minBalance (w :: ws) (a :: cs).

(** ** Instructions *)

(** What the code takes from the web3.js and spl-token packages: the
    well-known addresses and the address derivation. *)
Record Web3 : Type := mkWeb3 {
  SYSVAR_CLOCK_PUBKEY : PublicKey;
  SYSVAR_RENT_PUBKEY : PublicKey;
  SYSVAR_STAKE_HISTORY_PUBKEY : PublicKey;
  STAKE_CONFIG_ID : PublicKey;
  SystemProgram_programId : PublicKey;
  StakeProgram_programId : PublicKey;
  TOKEN_PROGRAM_ID : PublicKey;
  PublicKey_findProgramAddressSync : list Buffer -> PublicKey -> PublicKey
}.

Module AccountMeta.
Record t : Type := mk {
  pubkey : PublicKey;
  isSigner : bool;
  isWritable : bool
}.
End AccountMeta.

Module TransactionInstruction.
Record t : Type := mk {
  programId : PublicKey;
  keys : list AccountMeta.t;
  data : Buffer
}.
End TransactionInstruction.

Module InstructionType.
Record t : Type := mk {
  index : Z;
  layout : Layout
}.
End InstructionType.

(** [Object.assign(target, source)] on objects kept as association lists. *)
Definition Object_assign (target source : list (string * Value)) : list (string * Value) :=
  fold_left (fun acc kv => setProperty acc (fst kv) (snd kv)) source target.

(** Populate a buffer of instruction data using an InstructionType: the
    buffer is allocated zero-filled, and the result is its first bytes, as
    many as the layout reports to have encoded. *)
Definition encodeData (type : InstructionType.t) (fields : list (string * Value))
  : result Buffer :=
  let allocLength := span (InstructionType.layout type) in
  let data := repeat 0 (Z.to_nat (if allocLength <? 0 then 1024 else allocLength)) in
  let layoutFields :=
    Object_assign [("instruction", VNum (InstructionType.index type))] fields in
  w <- encode (InstructionType.layout type) (VObj layoutFields) data 0 ;;
  Ok (firstn (Z.to_nat (snd w)) (fst w)).

Definition MOVE_STAKE_LAYOUT : Layout :=
  struct [u8 (Some "instruction"); u64 (Some "lamports"); u64 (Some "transientStakeSeed")]
         None.

(** The entries of [STAKE_POOL_INSTRUCTION_LAYOUTS] used below; [borsh.struct],
    [borsh.u8], [borsh.u32] and [borsh.u64] are the combinators above. *)
Module STAKE_POOL_INSTRUCTION_LAYOUTS.

Definition AddValidatorToPool : InstructionType.t :=
  InstructionType.mk 1 (struct [u8 (Some "instruction"); u32 (Some "seed")] None).

Definition RemoveValidatorFromPool : InstructionType.t :=
  InstructionType.mk 2 (struct [u8 (Some "instruction")] None).

Definition DecreaseValidatorStake : InstructionType.t :=
  InstructionType.mk 3 MOVE_STAKE_LAYOUT.

Definition IncreaseValidatorStake : InstructionType.t :=
  InstructionType.mk 4 MOVE_STAKE_LAYOUT.

Definition UpdateValidatorListBalance : InstructionType.t :=
  InstructionType.mk 6
    (struct [u8 (Some "instruction"); u32 (Some "startIndex"); u8 (Some "noMerge")] None).

Definition UpdateStakePoolBalance : InstructionType.t :=
  InstructionType.mk 7 (struct [u8 (Some "instruction")] None).

Definition CleanupRemovedValidatorEntries : InstructionType.t :=
  InstructionType.mk 8 (struct [u8 (Some "instruction")] None).

Definition IncreaseAdditionalValidatorStake : InstructionType.t :=
  InstructionType.mk 19
    (struct [u8 (Some "instruction"); u64 (Some "lamports");
             u64 (Some "transientStakeSeed"); u64 (Some "ephemeralStakeSeed")] None).

Definition DecreaseAdditionalValidatorStake : InstructionType.t :=
  InstructionType.mk 20
    (struct [u8 (Some "instruction"); u64 (Some "lamports");
             u64 (Some "transientStakeSeed"); u64 (Some "ephemeralStakeSeed")] None).

End STAKE_POOL_INSTRUCTION_LAYOUTS.

(** [Array.prototype.slice(start, end)] of the engine: a negative index
    counts from the end, and every index is clamped to the array. *)
Definition Array_slice {A : Type} (array : list A) (start stop : Z) : list A :=
  let len := Z.of_nat (List.length array) in
  let from := if start <? 0 then Z.max (len + start) 0 else Z.min start len in
  let upto := if stop <? 0 then Z.max (len + stop) 0 else Z.min stop len in
  firstn (Z.to_nat (upto - from)) (skipn (Z.to_nat from) array).

(** The loop of [arrayChunk]; the fuel bounds the number of turns, and the
    loop that runs out of it has not returned. *)
Fixpoint arrayChunk_loop {A : Type} (fuel : nat) (array : list A) (size : Z) (i : Z)
    (result : list (list A)) : option (list (list A)) :=
  match fuel with
  | O => None
  | S fuel' =>
      if i <? Z.of_nat (List.length array)
      then arrayChunk_loop fuel' array size (i + size)
                           (result ++ [Array_slice array i (i + size)])
      else Some result
  end.

Definition arrayChunk {A : Type} (fuel : nat) (array : list A) (size : Z)
  : option (list (list A)) :=
  arrayChunk_loop fuel array size 0 [].

Definition MAX_VALIDATORS_TO_UPDATE : Z := 5.

(** The account entry [{ pubkey, isSigner, isWritable }]. *)
Definition key (pubkey : PublicKey) (isSigner isWritable : bool) : AccountMeta.t :=
  AccountMeta.mk pubkey isSigner isWritable.

(** ** Token metadata layouts *)

Definition METADATA_MAX_NAME_LENGTH : Z := 32.
Definition METADATA_MAX_SYMBOL_LENGTH : Z := 10.
Definition METADATA_MAX_URI_LENGTH : Z := 200.

(** What a function outside the layouts throws: a plain [Error] with its
    message, or the error of a layout. *)
Inductive Thrown : Type :=
| ErrorMessage (message : string)
| LayoutError (e : Error).

Inductive outcome (A : Type) : Type :=
| Returned (a : A)
| Threw (t : Thrown).
Arguments Returned {A} a.
Arguments Threw {A} t.

Definition lift {A : Type} (r : result A) : outcome A :=
  match r with
  | Ok a => Returned a
  | Err e => Threw (LayoutError e)
  end.

Definition obind {A B : Type} (r : outcome A) (k : A -> outcome B) : outcome B :=
  match r with
  | Returned a => k a
  | Threw t => Threw t
  end.

Notation "x <~ r ;; k" := (obind r (fun x => k))
  (at level 61, r at next level, right associativity).

(** [blob(length, property)], that is [new Blob(length, property)] with the
    test of the constructor, for a numeric [length]. *)
Definition blob (length : Z) (property : option string) : result Layout :=
  if length <? 0
  then Err (TypeError
              "length must be positive integer or an unsigned integer ExternalLayout")
  else Ok (Blob length property).

Definition tokenMetadataLayout (instruction nameLength symbolLength uriLength : Z)
  : outcome InstructionType.t :=
  if METADATA_MAX_NAME_LENGTH <? nameLength
  then Threw (ErrorMessage "maximum token name length is 32 characters")
  else if METADATA_MAX_SYMBOL_LENGTH <? symbolLength
  then Threw (ErrorMessage "maximum token symbol length is 10 characters")
  else if METADATA_MAX_URI_LENGTH <? uriLength
  then Threw (ErrorMessage "maximum token uri length is 200 characters")
  else
    match blob nameLength (Some "name") with
    | Err e => Threw (LayoutError e)
    | Ok name =>
        match blob symbolLength (Some "symbol") with
        | Err e => Threw (LayoutError e)
        | Ok symbol =>
            match blob uriLength (Some "uri") with
            | Err e => Threw (LayoutError e)
            | Ok uri =>
                Returned
                  (InstructionType.mk instruction
                     (struct [ u8 (Some "instruction");
                               u32 (Some "nameLen");
                               name;
                               u32 (Some "symbolLen");
                               symbol;
                               u32 (Some "uriLen");
                               uri ] None))
            end
        end
    end.

(** Public key that identifies the metadata program, the bytes of
    [metaqbxxUerdq28cj1RbAWkYQm3ybzjb6a8bt518x1s]. *)
Definition METADATA_PROGRAM_ID : PublicKey :=
  [11; 112; 101; 177; 227; 209; 124; 69; 56; 157; 82; 127; 107; 4; 195; 205;
   88; 184; 108; 115; 26; 160; 253; 181; 73; 182; 209; 188; 3; 248; 41; 70].

Module StakePoolInstruction.
Section Builders.

Variable web3_js : Web3.

(** Creates instruction to update a set of validators in the stake pool. *)
Definition updateValidatorListBalance
    (stakePool withdrawAuthority validatorList reserveStake : PublicKey)
    (validatorAndTransientStakePairs : list PublicKey) (startIndex : Z) (noMerge : bool)
  : result TransactionInstruction.t :=
  data <- encodeData STAKE_POOL_INSTRUCTION_LAYOUTS.UpdateValidatorListBalance
            [("startIndex", VNum startIndex);
             ("noMerge", VNum (if noMerge then 1 else 0))] ;;
  let keys :=
    [ key stakePool false false;
      key withdrawAuthority false false;
      key validatorList false true;
      key reserveStake false true;
      key (SYSVAR_CLOCK_PUBKEY web3_js) false false;
      key (SYSVAR_STAKE_HISTORY_PUBKEY web3_js) false false;
      key (StakeProgram_programId web3_js) false false ]
      ++ map (fun pubkey => key pubkey false true) validatorAndTransientStakePairs in
  Ok (TransactionInstruction.mk STAKE_POOL_PROGRAM_ID keys data).

(** Creates instruction to update the overall stake pool balance. *)
Definition updateStakePoolBalance
    (stakePool withdrawAuthority validatorList reserveStake managerFeeAccount
       poolMint : PublicKey) : result TransactionInstruction.t :=
  data <- encodeData STAKE_POOL_INSTRUCTION_LAYOUTS.UpdateStakePoolBalance [] ;;
  let keys :=
    [ key stakePool false true;
      key withdrawAuthority false false;
      key validatorList false true;
      key reserveStake false false;
      key managerFeeAccount false true;
      key poolMint false true;
      key (TOKEN_PROGRAM_ID web3_js) false false ] in
  Ok (TransactionInstruction.mk STAKE_POOL_PROGRAM_ID keys data).

(** Creates instruction to clean up removed validator entries. *)
Definition cleanupRemovedValidatorEntries (stakePool validatorList : PublicKey)
  : result TransactionInstruction.t :=
  data <- encodeData STAKE_POOL_INSTRUCTION_LAYOUTS.CleanupRemovedValidatorEntries [] ;;
  let keys :=
    [ key stakePool false false;
      key validatorList false true ] in
  Ok (TransactionInstruction.mk STAKE_POOL_PROGRAM_ID keys data).

(** Creates instruction to add a validator to the pool, for a [seed] that
    is given. *)
Definition addValidatorToPool
    (stakePool staker reserveStake withdrawAuthority validatorList validatorStake
       validatorVote : PublicKey) (seed : Z) : result TransactionInstruction.t :=
  data <- encodeData STAKE_POOL_INSTRUCTION_LAYOUTS.AddValidatorToPool
            [("seed", VNum seed)] ;;
  let keys :=
    [ key stakePool false true;
      key staker true false;
      key reserveStake false true;
      key withdrawAuthority false false;
      key validatorList false true;
      key validatorStake false true;
      key validatorVote false false;
      key (SYSVAR_RENT_PUBKEY web3_js) false false;
      key (SYSVAR_CLOCK_PUBKEY web3_js) false false;
      key (SYSVAR_STAKE_HISTORY_PUBKEY web3_js) false false;
      key (STAKE_CONFIG_ID web3_js) false false;
      key (SystemProgram_programId web3_js) false false;
      key (StakeProgram_programId web3_js) false false ] in
  Ok (TransactionInstruction.mk STAKE_POOL_PROGRAM_ID keys data).

(** Creates instruction to remove a validator from the pool. *)
Definition removeValidatorFromPool
    (stakePool staker withdrawAuthority validatorList validatorStake transientStake
       : PublicKey) : result TransactionInstruction.t :=
  data <- encodeData STAKE_POOL_INSTRUCTION_LAYOUTS.RemoveValidatorFromPool [] ;;
  let keys :=
    [ key stakePool false true;
      key staker true false;
      key withdrawAuthority false false;
      key validatorList false true;
      key validatorStake false true;
      key transientStake false true;
      key (SYSVAR_CLOCK_PUBKEY web3_js) false false;
      key (StakeProgram_programId web3_js) false false ] in
  Ok (TransactionInstruction.mk STAKE_POOL_PROGRAM_ID keys data).

(** [new BN(n)] for a number [n] that holds an integer, as the bn.js
    package builds it or refuses to. *)
Variable BN_new : Z -> outcome BN.t.

(** Creates [IncreaseValidatorStake] instruction (rebalance from reserve
    account to transient account). *)
Definition increaseValidatorStake
    (stakePool staker withdrawAuthority validatorList reserveStake transientStake
       validatorStake validatorVote : PublicKey) (lamports transientStakeSeed : Z)
  : outcome TransactionInstruction.t :=
  l <~ BN_new lamports ;;
  s <~ BN_new transientStakeSeed ;;
  data <~ lift (encodeData STAKE_POOL_INSTRUCTION_LAYOUTS.IncreaseValidatorStake
                  [("lamports", VBN l); ("transientStakeSeed", VBN s)]) ;;
  let keys :=
    [ key stakePool false false;
      key staker true false;
      key withdrawAuthority false false;
      key validatorList false true;
      key reserveStake false true;
      key transientStake false true;
      key validatorStake false false;
      key validatorVote false false;
      key (SYSVAR_CLOCK_PUBKEY web3_js) false false;
      key (SYSVAR_RENT_PUBKEY web3_js) false false;
      key (SYSVAR_STAKE_HISTORY_PUBKEY web3_js) false false;
      key (STAKE_CONFIG_ID web3_js) false false;
      key (SystemProgram_programId web3_js) false false;
      key (StakeProgram_programId web3_js) false false ] in
  Returned (TransactionInstruction.mk STAKE_POOL_PROGRAM_ID keys data).

(** Creates [IncreaseAdditionalValidatorStake] instruction (rebalance from
    reserve account to transient account). *)
Definition increaseAdditionalValidatorStake
    (stakePool staker withdrawAuthority validatorList reserveStake transientStake
       validatorStake validatorVote : PublicKey) (lamports transientStakeSeed : Z)
    (ephemeralStake : PublicKey) (ephemeralStakeSeed : Z)
  : outcome TransactionInstruction.t :=
  l <~ BN_new lamports ;;
  s <~ BN_new transientStakeSeed ;;
  e <~ BN_new ephemeralStakeSeed ;;
  data <~ lift (encodeData STAKE_POOL_INSTRUCTION_LAYOUTS.IncreaseAdditionalValidatorStake
                  [("lamports", VBN l); ("transientStakeSeed", VBN s);
                   ("ephemeralStakeSeed", VBN e)]) ;;
  let keys :=
    [ key stakePool false false;
      key staker true false;
      key withdrawAuthority false false;
      key validatorList false true;
      key reserveStake false true;
      key ephemeralStake false true;
      key transientStake false true;
      key validatorStake false false;
      key validatorVote false false;
      key (SYSVAR_CLOCK_PUBKEY web3_js) false false;
      key (SYSVAR_STAKE_HISTORY_PUBKEY web3_js) false false;
      key (STAKE_CONFIG_ID web3_js) false false;
      key (SystemProgram_programId web3_js) false false;
      key (StakeProgram_programId web3_js) false false ] in
  Returned (TransactionInstruction.mk STAKE_POOL_PROGRAM_ID keys data).

(** Creates [DecreaseValidatorStake] instruction (rebalance from validator
    account to transient account). *)
Definition decreaseValidatorStake
    (stakePool staker withdrawAuthority validatorList validatorStake transientStake
       : PublicKey) (lamports transientStakeSeed : Z)
  : outcome TransactionInstruction.t :=
  l <~ BN_new lamports ;;
  s <~ BN_new transientStakeSeed ;;
  data <~ lift (encodeData STAKE_POOL_INSTRUCTION_LAYOUTS.DecreaseValidatorStake
                  [("lamports", VBN l); ("transientStakeSeed", VBN s)]) ;;
  let keys :=
    [ key stakePool false false;
      key staker true false;
      key withdrawAuthority false false;
      key validatorList false true;
      key validatorStake false true;
      key transientStake false true;
      key (SYSVAR_CLOCK_PUBKEY web3_js) false false;
      key (SYSVAR_RENT_PUBKEY web3_js) false false;
      key (SystemProgram_programId web3_js) false false;
      key (StakeProgram_programId web3_js) false false ] in
  Returned (TransactionInstruction.mk STAKE_POOL_PROGRAM_ID keys data).

(** Creates [DecreaseAdditionalValidatorStake] instruction (rebalance from
    validator account to transient account). *)
Definition decreaseAdditionalValidatorStake
    (stakePool staker withdrawAuthority validatorList validatorStake transientStake
       : PublicKey) (lamports transientStakeSeed ephemeralStakeSeed : Z)
    (ephemeralStake : PublicKey)
  : outcome TransactionInstruction.t :=
  l <~ BN_new lamports ;;
  s <~ BN_new transientStakeSeed ;;
  e <~ BN_new ephemeralStakeSeed ;;
  data <~ lift (encodeData STAKE_POOL_INSTRUCTION_LAYOUTS.DecreaseAdditionalValidatorStake
                  [("lamports", VBN l); ("transientStakeSeed", VBN s);
                   ("ephemeralStakeSeed", VBN e)]) ;;
  let keys :=
    [ key stakePool false false;
      key staker true false;
      key withdrawAuthority false false;
      key validatorList false true;
      key validatorStake false true;
      key ephemeralStake false true;
      key transientStake false true;
      key (SYSVAR_CLOCK_PUBKEY web3_js) false false;
      key (SYSVAR_STAKE_HISTORY_PUBKEY web3_js) false false;
      key (SystemProgram_programId web3_js) false false;
      key (StakeProgram_programId web3_js) false false ] in
  Returned (TransactionInstruction.mk STAKE_POOL_PROGRAM_ID keys data).

End Builders.

Section TokenMetadata.

Variable web3_js : Web3.

(** Strings of the engine: [String_length] is [s.length], the number of
    UTF-16 code units, and [Buffer_from] is [Buffer.from(s)], the bytes of
    the UTF-8 encoding. *)
Variable JSString : Type.
Variable String_length : JSString -> Z.
Variable Buffer_from : JSString -> Buffer.

(** [StakePoolInstruction.createTokenMetadata]. *)
Definition createTokenMetadata
    (stakePool withdrawAuthority tokenMetadata manager payer poolMint : PublicKey)
    (name symbol uri : JSString) : outcome TransactionInstruction.t :=
  let keys :=
    [ key stakePool false false;
      key manager true false;
      key withdrawAuthority false false;
      key poolMint false false;
      key payer true true;
      key tokenMetadata false true;
      key METADATA_PROGRAM_ID false false;
      key (SystemProgram_programId web3_js) false false;
      key (SYSVAR_RENT_PUBKEY web3_js) false false ] in
  match tokenMetadataLayout 17 (String_length name) (String_length symbol)
                            (String_length uri) with
  | Threw t => Threw t
  | Returned type =>
      match encodeData type
              [("nameLen", VNum (String_length name));
               ("name", VBytes (Buffer_from name));
               ("symbolLen", VNum (String_length symbol));
               ("symbol", VBytes (Buffer_from symbol));
               ("uriLen", VNum (String_length uri));
               ("uri", VBytes (Buffer_from uri))] with
      | Err e => Threw (LayoutError e)
      | Ok data => Returned (TransactionInstruction.mk STAKE_POOL_PROGRAM_ID keys data)
      end
  end.

(** [StakePoolInstruction.updateTokenMetadata]. *)
Definition updateTokenMetadata
    (stakePool withdrawAuthority tokenMetadata manager : PublicKey)
    (name symbol uri : JSString) : outcome TransactionInstruction.t :=
  let keys :=
    [ key stakePool false false;
      key manager true false;
      key withdrawAuthority false false;
      key tokenMetadata false true;
      key METADATA_PROGRAM_ID false false ] in
  match tokenMetadataLayout 18 (String_length name) (String_length symbol)
                            (String_length uri) with
  | Threw t => Threw t
  | Returned type =>
      match encodeData type
              [("nameLen", VNum (String_length name));
               ("name", VBytes (Buffer_from name));
               ("symbolLen", VNum (String_length symbol));
               ("symbol", VBytes (Buffer_from symbol));
               ("uriLen", VNum (String_length uri));
               ("uri", VBytes (Buffer_from uri))] with
      | Err e => Threw (LayoutError e)
      | Ok data => Returned (TransactionInstruction.mk STAKE_POOL_PROGRAM_ID keys data)
      end
  end.

End TokenMetadata.

End StakePoolInstruction.

Section UpdateStakePool.

Variable web3_js : Web3.

(** Generates the withdraw authority program address for the stake pool;
    the second seed is [Buffer.from('withdraw')]. *)
Definition findWithdrawAuthorityProgramAddress (programId stakePoolAddress : PublicKey)
  : PublicKey :=
  PublicKey_findProgramAddressSync web3_js
    [stakePoolAddress; [119; 105; 116; 104; 100; 114; 97; 119]] programId.

(** The addresses pushed for one chunk of validators. *)
Definition validatorAndTransientStakePairs (stakePoolAddress : PublicKey)
    (validatorChunk : list ValidatorStakeInfo) : list PublicKey :=
  flat_map
    (fun validator =>
       [ findStakeProgramAddress (PublicKey_findProgramAddressSync web3_js)
           STAKE_POOL_PROGRAM_ID (voteAccountAddress validator) stakePoolAddress;
         findTransientStakeProgramAddress (PublicKey_findProgramAddressSync web3_js)
           STAKE_POOL_PROGRAM_ID (voteAccountAddress validator) stakePoolAddress
           (transientSeedSuffixStart validator) ])
    validatorChunk.

(** The loop of [updateStakePool] over the chunks. *)
Fixpoint updateListInstructions_loop (stakePoolAddress : PublicKey) (stakePool : StakePool)
    (withdrawAuthority : PublicKey) (noMerge : bool)
    (validatorChunks : list (list ValidatorStakeInfo)) (startIndex : Z)
    (updateListInstructions : list TransactionInstruction.t)
  : result (list TransactionInstruction.t) :=
  match validatorChunks with
  | [] => Ok updateListInstructions
  | validatorChunk :: rest =>
      instruction <-
        StakePoolInstruction.updateValidatorListBalance web3_js
          stakePoolAddress withdrawAuthority (validatorList stakePool)
          (reserveStake stakePool)
          (validatorAndTransientStakePairs stakePoolAddress validatorChunk)
          startIndex noMerge ;;
      updateListInstructions_loop stakePoolAddress stakePool withdrawAuthority noMerge rest
        (startIndex + MAX_VALIDATORS_TO_UPDATE) (updateListInstructions ++ [instruction])
  end.

(** Creates instructions required to completely update a stake pool after
    epoch change. The pool account is given by its address, the fields of
    [StakePool] and its mint; the validator list account is the one the
    connection holds. The result is the pair [updateListInstructions],
    [finalInstructions]; [None] is a chunking loop out of fuel. *)
Definition updateStakePool (fuel : nat) (connection : Connection)
    (stakePoolAddress : PublicKey) (stakePool : StakePool) (poolMint : PublicKey)
    (noMerge : bool)
  : option (result (list TransactionInstruction.t * list TransactionInstruction.t)) :=
  let withdrawAuthority :=
    findWithdrawAuthorityProgramAddress STAKE_POOL_PROGRAM_ID stakePoolAddress in
  match arrayChunk fuel (validators connection) MAX_VALIDATORS_TO_UPDATE with
  | None => None
  | Some validatorChunks =>
      Some (
        updateListInstructions <-
          updateListInstructions_loop stakePoolAddress stakePool withdrawAuthority noMerge
            validatorChunks 0 [] ;;
        balance <-
          StakePoolInstruction.updateStakePoolBalance web3_js
            stakePoolAddress withdrawAuthority (validatorList stakePool)
            (reserveStake stakePool) (managerFeeAccount stakePool) poolMint ;;
        cleanup <-
          StakePoolInstruction.cleanupRemovedValidatorEntries
            stakePoolAddress (validatorList stakePool) ;;
        Ok (updateListInstructions, [balance; cleanup]))
  end.

End UpdateStakePool.

(** ** Moving stake between the reserve and a validator *)

(** [Buffer.from('ephemeral')]. *)
Definition EPHEMERAL_STAKE_SEED_PREFIX : Buffer :=
  [101; 112; 104; 101; 109; 101; 114; 97; 108].

Section StakeMoves.

Variable web3_js : Web3.

(** [new BN(n)] and [bn.toNumber()] as the bn.js package has them: each
    gives its result or throws. *)
Variable BN_new : Z -> outcome BN.t.
Variable BN_toNumber : BN.t -> outcome Z.

(** Generates the ephemeral program address for stake pool re-delegation. *)
Definition findEphemeralStakeProgramAddress (programId stakePoolAddress : PublicKey)
    (seed : BN.t) : PublicKey :=
  PublicKey_findProgramAddressSync web3_js
    [EPHEMERAL_STAKE_SEED_PREFIX; stakePoolAddress; le_bytes 8 seed] programId.

(** [validators.find(v => v.voteAccountAddress.toBase58() === validatorVote.toBase58())]:
    two addresses have the same base-58 text when they are the same address. *)
Definition findValidator (connection : Connection) (validatorVote : PublicKey)
  : option ValidatorStakeInfo :=
  find (fun v => PublicKey_equals (voteAccountAddress v) validatorVote)
       (validators connection).

(** Creates instructions required to increase validator stake. The pool
    account is given by its address, the fields of [StakePool] and its
    staker; the validator list account is the one the connection holds;
    [ephemeralStakeSeed] is [None] for [undefined]. *)
Definition increaseValidatorStake (connection : Connection)
    (stakePoolAddress : PublicKey) (stakePool : StakePool) (staker : PublicKey)
    (validatorVote : PublicKey) (lamports : Z) (ephemeralStakeSeed : option Z)
  : outcome (list TransactionInstruction.t) :=
  match findValidator connection validatorVote with
  | None => Threw (ErrorMessage "Vote account not found in validator list")
  | Some validatorInfo =>
      let withdrawAuthority :=
        findWithdrawAuthorityProgramAddress web3_js STAKE_POOL_PROGRAM_ID
          stakePoolAddress in
      let transientStakeSeed :=
        match ephemeralStakeSeed with
        | None => transientSeedSuffixStart validatorInfo + 1
        | Some _ => transientSeedSuffixStart validatorInfo
        end in
      let transientStake :=
        findTransientStakeProgramAddress (PublicKey_findProgramAddressSync web3_js)
          STAKE_POOL_PROGRAM_ID (voteAccountAddress validatorInfo) stakePoolAddress
          transientStakeSeed in
      let validatorStake :=
        findStakeProgramAddress (PublicKey_findProgramAddressSync web3_js)
          STAKE_POOL_PROGRAM_ID (voteAccountAddress validatorInfo) stakePoolAddress in
      let instructions := [] in
      match ephemeralStakeSeed with
      | Some seed =>
          s <~ BN_new seed ;;
          let ephemeralStake :=
            findEphemeralStakeProgramAddress STAKE_POOL_PROGRAM_ID stakePoolAddress s in
          n <~ BN_toNumber transientStakeSeed ;;
          _ <~ StakePoolInstruction.increaseAdditionalValidatorStake web3_js BN_new
                 stakePoolAddress staker withdrawAuthority (validatorList stakePool)
                 (reserveStake stakePool) transientStake validatorStake validatorVote
                 lamports n ephemeralStake seed ;;
          Returned instructions
      | None =>
          n <~ BN_toNumber transientStakeSeed ;;
          instruction <~
            StakePoolInstruction.increaseValidatorStake web3_js BN_new
              stakePoolAddress staker withdrawAuthority (validatorList stakePool)
              (reserveStake stakePool) transientStake validatorStake validatorVote
              lamports n ;;
          Returned (instructions ++ [instruction])
      end
  end.

(** Creates instructions required to decrease validator stake; the
    arguments are those of [increaseValidatorStake]. *)
Definition decreaseValidatorStake (connection : Connection)
    (stakePoolAddress : PublicKey) (stakePool : StakePool) (staker : PublicKey)
    (validatorVote : PublicKey) (lamports : Z) (ephemeralStakeSeed : option Z)
  : outcome (list TransactionInstruction.t) :=
  match findValidator connection validatorVote with
  | None => Threw (ErrorMessage "Vote account not found in validator list")
  | Some validatorInfo =>
      let withdrawAuthority :=
        findWithdrawAuthorityProgramAddress web3_js STAKE_POOL_PROGRAM_ID
          stakePoolAddress in
      let validatorStake :=
        findStakeProgramAddress (PublicKey_findProgramAddressSync web3_js)
          STAKE_POOL_PROGRAM_ID (voteAccountAddress validatorInfo) stakePoolAddress in
      let transientStakeSeed :=
        match ephemeralStakeSeed with
        | None => transientSeedSuffixStart validatorInfo + 1
        | Some _ => transientSeedSuffixStart validatorInfo
        end in
      let transientStake :=
        findTransientStakeProgramAddress (PublicKey_findProgramAddressSync web3_js)
          STAKE_POOL_PROGRAM_ID (voteAccountAddress validatorInfo) stakePoolAddress
          transientStakeSeed in
      let instructions := [] in
      match ephemeralStakeSeed with
      | Some seed =>
          s <~ BN_new seed ;;
          let ephemeralStake :=
            findEphemeralStakeProgramAddress STAKE_POOL_PROGRAM_ID stakePoolAddress s in
          n <~ BN_toNumber transientStakeSeed ;;
          instruction <~
            StakePoolInstruction.decreaseAdditionalValidatorStake web3_js BN_new
              stakePoolAddress staker withdrawAuthority (validatorList stakePool)
              validatorStake transientStake lamports n seed ephemeralStake ;;
          Returned (instructions ++ [instruction])
      | None =>
          n <~ BN_toNumber transientStakeSeed ;;
          instruction <~
            StakePoolInstruction.decreaseValidatorStake web3_js BN_new
              stakePoolAddress staker withdrawAuthority (validatorList stakePool)
              validatorStake transientStake lamports n ;;
          Returned (instructions ++ [instruction])
      end
  end.

End StakeMoves.

(** ** Adding and removing a validator *)

Section ValidatorMembership.

Variable web3_js : Web3.

(** [publicKey.toBase58()], the text of an address. *)
Variable toBase58 : PublicKey -> string.

(** [SystemProgram.createAccount({fromPubkey, newAccountPubkey, lamports,
    space, programId})] and [StakeProgram.space] of the web3.js package. *)
Variable SystemProgram_createAccount :
  PublicKey -> PublicKey -> Z -> Z -> PublicKey -> TransactionInstruction.t.
Variable StakeProgram_space : Z.

(** Creates instructions required to add a validator to the pool, for a
    [seed] that is given. The pool account is given by its address, the
    fields of [StakePool] and its staker; the validator list account is the
    one the connection holds. *)
Definition addValidatorToPool (connection : Connection) (stakePoolAddress : PublicKey)
    (stakePool : StakePool) (poolStaker : PublicKey) (validatorVote : PublicKey) (seed : Z)
  : outcome (list TransactionInstruction.t) :=
  match findValidator connection validatorVote with
  | Some validatorInfo =>
      Threw (ErrorMessage
               ("Stake pool already contains validator "
                  ++ toBase58 (voteAccountAddress validatorInfo) ++ ", ignoring"))
  | None =>
      let withdrawAuthority :=
        findWithdrawAuthorityProgramAddress web3_js STAKE_POOL_PROGRAM_ID
          stakePoolAddress in
      let validatorStake :=
        findStakeProgramAddress (PublicKey_findProgramAddressSync web3_js)
          STAKE_POOL_PROGRAM_ID validatorVote stakePoolAddress in
      let instructions := [] in
      instruction <~
        lift (StakePoolInstruction.addValidatorToPool web3_js
                stakePoolAddress poolStaker (reserveStake stakePool) withdrawAuthority
                (validatorList stakePool) validatorStake validatorVote seed) ;;
      Returned (instructions ++ [instruction])
  end.

(** Creates instructions required to remove a validator from the pool;
    [destinationStake] is the public key of the key pair that
    [Keypair.generate()] gives. The result is the pair [instructions],
    [signers]. *)
Definition removeValidatorFromPool (connection : Connection) (stakePoolAddress : PublicKey)
    (stakePool : StakePool) (poolStaker : PublicKey) (validatorVote staker : PublicKey)
    (destinationStake : PublicKey)
  : outcome (list TransactionInstruction.t * list PublicKey) :=
  match findValidator connection validatorVote with
  | None => Threw (ErrorMessage "Vote account not found in validator list")
  | Some validatorInfo =>
      let withdrawAuthority :=
        findWithdrawAuthorityProgramAddress web3_js STAKE_POOL_PROGRAM_ID
          stakePoolAddress in
      let transientStake :=
        findTransientStakeProgramAddress (PublicKey_findProgramAddressSync web3_js)
          STAKE_POOL_PROGRAM_ID (voteAccountAddress validatorInfo) stakePoolAddress
          (transientSeedSuffixStart validatorInfo) in
      let validatorStake :=
        findStakeProgramAddress (PublicKey_findProgramAddressSync web3_js)
          STAKE_POOL_PROGRAM_ID (voteAccountAddress validatorInfo) stakePoolAddress in
      let signers := [destinationStake] in
      let instructions :=
        [SystemProgram_createAccount staker destinationStake 0 StakeProgram_space
           (StakeProgram_programId web3_js)] in
      instruction <~
        lift (StakePoolInstruction.removeValidatorFromPool web3_js
                stakePoolAddress poolStaker withdrawAuthority (validatorList stakePool)
                validatorStake transientStake) ;;
      Returned (instructions ++ [instruction], signers)
  end.

End ValidatorMembership.

(** ** Reference definitions for the properties *)

(** The chunks of [s] elements of [array] from index [j] on. *)
Fixpoint chunksFrom {A : Type} (array : list A) (fuel s j : nat) : list (list A) :=
  match fuel with
  | O => []
  | S fuel' =>
      if (j <? List.length array)%nat
      then firstn s (skipn j array) :: chunksFrom array fuel' s (j + s)
      else []
  end.

Section UpdateReference.

Variable web3_js : Web3.
Variables (stakePoolAddress : PublicKey) (stakePool : StakePool) (noMerge : bool).

(** The instruction that updates the chunk starting at [startIndex]. *)
Definition updateOf (startIndex : Z) (validatorChunk : list ValidatorStakeInfo)
  : TransactionInstruction.t :=
  TransactionInstruction.mk STAKE_POOL_PROGRAM_ID
    ([ key stakePoolAddress false false;
       key (findWithdrawAuthorityProgramAddress web3_js STAKE_POOL_PROGRAM_ID
              stakePoolAddress) false false;
       key (validatorList stakePool) false true;
       key (reserveStake stakePool) false true;
       key (SYSVAR_CLOCK_PUBKEY web3_js) false false;
       key (SYSVAR_STAKE_HISTORY_PUBKEY web3_js) false false;
       key (StakeProgram_programId web3_js) false false ]
       ++ map (fun pubkey => key pubkey false true)
              (validatorAndTransientStakePairs web3_js stakePoolAddress validatorChunk))
    ([6] ++ le_bytes 4 startIndex ++ [if noMerge then 1 else 0]).

Fixpoint updatesFrom (startIndex : Z) (validatorChunks : list (list ValidatorStakeInfo))
  : list TransactionInstruction.t :=
  match validatorChunks with
  | [] => []
  | validatorChunk :: rest =>
      updateOf startIndex validatorChunk
        :: updatesFrom (startIndex + MAX_VALIDATORS_TO_UPDATE) rest
  end.

End UpdateReference.

(** A field that, given [v], appends the bytes [bs] to what a zero-filled
    buffer already holds. *)
Definition writes (fd : Layout) (v : Value) (bs : list Z) : Prop :=
  forall (pre : Buffer) (m : nat),
    (List.length bs <= m)%nat ->
    encode fd v (pre ++ repeat 0 m) (blen pre)
    = Ok ((pre ++ bs) ++ repeat 0 (m - List.length bs), blen bs).

Definition fieldWrites (src : list (string * Value)) (fd : Layout) (bs : list Z) : Prop :=
  exists p, property fd = Some p /\ writes fd (getProperty src p) bs.
(** A field whose span, wherever it is defined, lies between [lo] and [hi],
    and which decodes wherever the buffer holds [hi] bytes from the
    offset. *)
Definition fieldSpan (fd : Layout) (lo hi : Z) : Prop :=
  forall (b : Buffer) (offset : Z),
    0 <= offset ->
    (forall s, getSpan fd b offset = Ok s -> lo <= s <= hi)
    /\ (offset + hi <= blen b ->
        (exists v, decode fd b offset = Ok v)
        /\ (exists s, getSpan fd b offset = Ok s)).

Definition fieldWithin (fd : Layout) (bounds : Z * Z) : Prop :=
  0 <= fst bounds <= snd bounds /\ fieldSpan fd (fst bounds) (snd bounds).

Definition least (bounds : list (Z * Z)) : Z :=
  fold_right (fun r acc => fst r + acc) 0 bounds.

Definition most (bounds : list (Z * Z)) : Z :=
  fold_right (fun r acc => snd r + acc) 0 bounds.

(** The bounds of the fields of the two pool layouts: a fixed field of [n]
    bytes, and an optional one of 1 byte or 1 byte more than its content. *)
Definition fixed (n : Z) : Z * Z := (n, n).
Definition optional (n : Z) : Z * Z := (1, n + 1).

Definition StakePoolLayout_bounds : list (Z * Z) :=
  [ fixed 1; fixed 32; fixed 32; fixed 32; fixed 1;
    fixed 32; fixed 32; fixed 32; fixed 32; fixed 32;
    fixed 8; fixed 8; fixed 8; fixed 48; fixed 16;
    optional 16; optional 32; optional 32;
    fixed 16; fixed 16; fixed 16; optional 16;
    fixed 1; optional 32; fixed 16; fixed 1; optional 32; fixed 16; optional 16;
    fixed 8; fixed 8 ].

Definition StakePoolLayout_ts_bounds : list (Z * Z) :=
  [ fixed 1; fixed 32; fixed 32; fixed 32; fixed 1;
    fixed 32; fixed 32; fixed 32; fixed 32; fixed 32;
    fixed 8; fixed 8; fixed 8; fixed 48; fixed 16;
    optional 16; optional 32; optional 32;
    fixed 16; fixed 16; optional 16;
    fixed 1; optional 32; fixed 16; fixed 1; optional 32; fixed 16; optional 16;
    fixed 8; fixed 8 ].

(** ** Sample services *)

Module Services.

(** Well-known addresses told apart by one byte, with the address
    derivation of [Sample]. *)
Definition web3_js : Web3 :=
  mkWeb3 [101] [102] [103] [104] [105] [106] [107] Sample.pda.

(** Big integers that refuse what a number does not hold exactly. *)
Definition BN_new (n : Z) : outcome BN.t :=
  if Z.abs n <? 2 ^ 53 then Returned n else Threw (ErrorMessage "Assertion failed").

Definition BN_toNumber (n : BN.t) : outcome Z :=
  if Z.abs n <? 2 ^ 53 then Returned n
  else Threw (ErrorMessage "Number can only safely store up to 53 bits").

End Services.

(** * Properties *)

(** ** Exact division *)

Lemma inject_Z_nonzero (z : Z) : z <> 0 -> ~ inject_Z z == 0.
Proof.
  intros Hz H. apply Hz.
  unfold Qeq in H. simpl in H. lia.
Qed.

(** A quotient, a remainder and a common factor of remainder and divisor
    give the exact rational. *)
Lemma reduced_fraction_exact (n d q r g r' d' : Z) :
  d <> 0 -> n = d * q + r -> r = g * r' -> d = g * d' ->
  inject_Z q + inject_Z r' / inject_Z d' == inject_Z n / inject_Z d.
Proof.
  intros Hd Hn Hr Hdg.
  assert (Hg : g <> 0) by (intro; subst g; lia).
  assert (Hd' : d' <> 0) by (intro; subst d'; lia).
  subst n. subst r. subst d.
  rewrite !inject_Z_plus, !inject_Z_mult.
  field. split; apply inject_Z_nonzero; assumption.
Qed.

Lemma gcd_pos_r (r d : Z) : d <> 0 -> 0 < Z.gcd r d.
Proof.
  intros Hd. pose proof (Z.gcd_nonneg r d).
  assert (Z.gcd r d <> 0) by (intro H0; apply Z.gcd_eq_0_r in H0; contradiction).
  lia.
Qed.

Lemma gcd_factor_l (r d : Z) : d <> 0 -> r = Z.gcd r d * (r / Z.gcd r d).
Proof.
  intros Hd. apply Znumtheory.Zdivide_Zdiv_eq.
  - apply gcd_pos_r; assumption.
  - apply Z.gcd_divide_l.
Qed.

Lemma gcd_factor_r (r d : Z) : d <> 0 -> d = Z.gcd r d * (d / Z.gcd r d).
Proof.
  intros Hd. apply Znumtheory.Zdivide_Zdiv_eq.
  - apply gcd_pos_r; assumption.
  - apply Z.gcd_divide_r.
Qed.

Lemma quot_exact_div (g r : Z) : 0 < g -> (g | r) -> Z.quot r g = r / g.
Proof.
  intros Hg [k ->]. rewrite Z.quot_mul, Z.div_mul by lia. reflexivity.
Qed.

Lemma quot_gcd_l (r d : Z) : d <> 0 -> Z.quot r (Z.gcd r d) = r / Z.gcd r d.
Proof.
  intros Hd. apply quot_exact_div; [apply gcd_pos_r; assumption | apply Z.gcd_divide_l].
Qed.

Lemma quot_gcd_r (r d : Z) : d <> 0 -> Z.quot d (Z.gcd r d) = d / Z.gcd r d.
Proof.
  intros Hd. apply quot_exact_div; [apply gcd_pos_r; assumption | apply Z.gcd_divide_r].
Qed.

(** For a numerator that is not negative, the truncated quotient and the
    unsigned remainder of the big-integer library split the numerator. *)
Lemma quot_umod_split (n d : Z) :
  0 <= n -> d <> 0 -> n = d * BN.div n d + BN.umod n d.
Proof.
  intros Hn Hd. unfold BN.div, BN.umod.
  rewrite (Z.quot_rem' n d) at 1. f_equal.
  rewrite Z.rem_mod by assumption.
  destruct (Z.eq_dec n 0) as [->|Hn0].
  - reflexivity.
  - rewrite Z.sgn_pos by lia. rewrite (Z.abs_eq n) by lia. lia.
Qed.

Lemma divideBnToNumber_zero (n : Z) : divideBnToNumber n 0 = 0%Q.
Proof. reflexivity. Qed.

Lemma divideBnToNumber_ratio (n d : Z) :
  0 <= n -> d <> 0 -> divideBnToNumber n d == inject_Z n / inject_Z d.
Proof.
  intros Hn Hd. unfold divideBnToNumber, BN.isZero.
  destruct (Z.eqb_spec d 0) as [|_]; [contradiction|].
  rewrite Qred_correct. unfold BN.toNumber, BN.gcd.
  set (r := BN.umod n d).
  unfold BN.div at 2 3. rewrite quot_gcd_l, quot_gcd_r by assumption.
  apply (reduced_fraction_exact n d (BN.div n d) r (Z.gcd r d)); try assumption.
  - apply quot_umod_split; assumption.
  - apply gcd_factor_l; assumption.
  - apply gcd_factor_r; assumption.
Qed.




(** ** Sorting *)

Lemma sort_insert_perm {A : Type} (cmp : A -> A -> Z) (x : A) (l : list A) :
  Permutation (sort_insert cmp x l) (x :: l).
Proof.
  induction l as [|y rest IH]; simpl.
  - apply Permutation_refl.
  - destruct (cmp x y <=? 0).
    + apply Permutation_refl.
    + apply perm_trans with (y :: x :: rest).
      * apply perm_skip. exact IH.
      * apply perm_swap.
Qed.

Lemma sort_perm {A : Type} (cmp : A -> A -> Z) (l : list A) :
  Permutation (sort cmp l) l.
Proof.
  induction l as [|x rest IH]; simpl.
  - apply perm_nil.
  - apply perm_trans with (x :: sort cmp rest).
    + apply sort_insert_perm.
    + apply perm_skip. exact IH.
Qed.

Lemma sort_insert_sorted {A : Type} (cmp : A -> A -> Z) (x : A) (l : list A) :
  orders cmp ->
  StronglySorted (fun a b => cmp a b <= 0) l ->
  StronglySorted (fun a b => cmp a b <= 0) (sort_insert cmp x l).
Proof.
  intros [Htotal Htrans] Hs.
  induction Hs as [|y rest Hrest IH Hy]; simpl.
  - constructor; constructor.
  - destruct (Z.leb_spec (cmp x y) 0) as [Hle|Hgt].
    + constructor.
      * constructor; assumption.
      * constructor; [assumption|].
        rewrite Forall_forall in *. intros z Hz.
        apply Htrans with y; [assumption|]. apply Hy. assumption.
    + constructor; [exact IH|].
      apply Permutation_Forall with (x :: rest).
      * apply Permutation_sym. apply sort_insert_perm.
      * constructor; [|assumption].
        destruct (Htotal x y); [lia|assumption].
Qed.

Lemma sort_sorted {A : Type} (cmp : A -> A -> Z) (l : list A) :
  orders cmp -> StronglySorted (fun a b => cmp a b <= 0) (sort cmp l).
Proof.
  intros Ho. induction l as [|x rest IH]; simpl.
  - constructor.
  - apply sort_insert_sorted; assumption.
Qed.

Lemma filter_sorted {A : Type} (R : A -> A -> Prop) (f : A -> bool) (l : list A) :
  StronglySorted R l -> StronglySorted R (filter f l).
Proof.
  induction 1 as [|x rest Hrest IH Hx]; simpl.
  - constructor.
  - destruct (f x); [|exact IH].
    constructor; [exact IH|].
    rewrite Forall_forall in *. intros z Hz.
    apply filter_In in Hz. apply Hx. tauto.
Qed.

Lemma filter_none {A : Type} (f : A -> bool) (l : list A) :
  (forall a, In a l -> f a = false) -> filter f l = [].
Proof.
  induction l as [|x rest IH]; simpl; intros H.
  - reflexivity.
  - rewrite (H x) by (left; reflexivity). apply IH.
    intros a Ha. apply H. right. assumption.
Qed.

Lemma defaultCompare_orders : orders defaultCompare.
Proof.
  unfold orders, defaultCompare. split; intros; lia.
Qed.

(** ** The candidate list *)

Section Candidates.

Variable findProgramAddressSync : list Buffer -> PublicKey -> PublicKey.
Variables (connection : Connection) (stakePool : StakePool) (stakePoolAddress : PublicKey).

Let minBalance : Z := getMinimumBalanceForRentExemption connection + MINIMUM_ACTIVE_STAKE.

Lemma PublicKey_equals_iff (a b : PublicKey) : PublicKey_equals a b = true <-> a = b.
Proof.
  unfold PublicKey_equals. destruct (list_eq_dec Z.eq_dec a b); split; congruence.
Qed.

Lemma validatorAccounts_not_reserve (validator : ValidatorStakeInfo) (a : ValidatorAccount.t) :
  In a (validatorAccounts findProgramAddressSync stakePool stakePoolAddress minBalance validator) ->
  ValidatorAccount.type a <> reserve.
Proof.
  unfold validatorAccounts.
  destruct (negb (status validator =? Active)); [intros []|].
  intros H. apply in_app_or in H.
  destruct H as [H|H].
  - destruct (negb (BN.isZero (activeStakeLamports validator))); [|destruct H].
    destruct H as [<-|[]]. simpl.
    destruct (match preferredWithdrawValidatorVoteAddress stakePool with
              | Some k => PublicKey_equals k (voteAccountAddress validator)
              | None => false
              end); discriminate.
  - destruct (0 <? transientStakeLamports validator - minBalance); [|destruct H].
    destruct H as [<-|[]]. simpl. discriminate.
Qed.

Lemma prepareAccounts_perm (compareFn : option (ValidatorAccount.t -> ValidatorAccount.t -> Z)) :
  Permutation
    (prepareAccounts findProgramAddressSync connection stakePool stakePoolAddress compareFn)
    (flat_map (validatorAccounts findProgramAddressSync stakePool stakePoolAddress minBalance)
              (validators connection)
       ++ reserveAccounts connection stakePool).
Proof.
  unfold prepareAccounts. apply Permutation_app_tail. apply sort_perm.
Qed.

Lemma reserveAccounts_short : (List.length (reserveAccounts connection stakePool) <= 1)%nat.
Proof.
  unfold reserveAccounts.
  destruct (0 <? _); simpl; lia.
Qed.

Lemma reserveAccounts_type (a : ValidatorAccount.t) :
  In a (reserveAccounts connection stakePool) -> ValidatorAccount.type a = reserve.
Proof.
  unfold reserveAccounts.
  destruct (0 <? _); simpl; [|tauto].
  intros [<-|[]]. reflexivity.
Qed.

Lemma reserve_tier (compareFn : option (ValidatorAccount.t -> ValidatorAccount.t -> Z)) :
  ofType reserve
    (prepareAccounts findProgramAddressSync connection stakePool stakePoolAddress compareFn)
  = reserveAccounts connection stakePool.
Proof.
  unfold ofType, prepareAccounts. rewrite filter_app. fold minBalance.
  set (listed := flat_map _ (validators connection)).
  rewrite (filter_none _ (sort _ listed)).
  - cbn [app]. unfold reserveAccounts. destruct (0 <? _); reflexivity.
  - intros a Ha.
    apply (Permutation_in _ (sort_perm _ listed)) in Ha.
    unfold listed in Ha. apply in_flat_map in Ha. destruct Ha as [v [_ Hv]].
    apply validatorAccounts_not_reserve in Hv.
    destruct (ValidatorAccount.type a); try reflexivity. congruence.
Qed.

Lemma tier_sorted (compareFn : option (ValidatorAccount.t -> ValidatorAccount.t -> Z))
    (type : AccountType) :
  orders (chosenCompare compareFn) ->
  StronglySorted (fun a b => chosenCompare compareFn a b <= 0)
    (ofType type
       (prepareAccounts findProgramAddressSync connection stakePool stakePoolAddress compareFn)).
Proof.
  intros Ho. unfold ofType, prepareAccounts. rewrite filter_app.
  fold minBalance.
  set (listed := flat_map _ (validators connection)).
  destruct (AccountType_eqb type reserve) eqn:Hty.
  - rewrite (filter_none _ (sort _ listed)).
    + simpl. pose proof reserveAccounts_short as Hlen.
      destruct (reserveAccounts connection stakePool) as [|r [|r' rest]];
        simpl in *; try lia.
      * constructor.
      * destruct (AccountType_eqb (ValidatorAccount.type r) type);
          repeat constructor.
    + intros a Ha.
      apply (Permutation_in _ (sort_perm _ listed)) in Ha.
      unfold listed in Ha. apply in_flat_map in Ha. destruct Ha as [v [_ Hv]].
      apply validatorAccounts_not_reserve in Hv.
      destruct type; try discriminate.
      destruct (ValidatorAccount.type a); try reflexivity. congruence.
  - rewrite (filter_none _ (reserveAccounts connection stakePool)).
    + rewrite app_nil_r. apply filter_sorted.
      apply (sort_sorted (chosenCompare compareFn)). assumption.
    + intros a Ha. apply reserveAccounts_type in Ha. rewrite Ha.
      destruct type; try reflexivity. discriminate.
Qed.

End Candidates.

(** ** The walk *)

Lemma Subseq_nil_l {A : Type} (l : list A) : Subseq [] l.
Proof.
  induction l; constructor; assumption.
Qed.

Section Walk.

Variables (stakePool : StakePool) (skipFee : bool) (minBalance : Z).

Local Abbreviation allocate := (spec_allocate stakePool skipFee minBalance).

Lemma walk_until_zero_stopped (step : WalkState -> ValidatorAccount.t -> WalkState)
    (candidates : list ValidatorAccount.t) (st : WalkState) :
  Qeq_bool (snd st) 0 = true -> walk_until_zero step candidates st = st.
Proof.
  intros H. destruct candidates; simpl; [reflexivity|]. rewrite H. reflexivity.
Qed.

Lemma walk_until_zero_app (step : WalkState -> ValidatorAccount.t -> WalkState)
    (l1 l2 : list ValidatorAccount.t) (st : WalkState) :
  walk_until_zero step (l1 ++ l2) st
  = walk_until_zero step l2 (walk_until_zero step l1 st).
Proof.
  revert st. induction l1 as [|a rest IH]; intros st; simpl.
  - reflexivity.
  - destruct (Qeq_bool (snd st) 0) eqn:Hz.
    + symmetry. apply walk_until_zero_stopped. assumption.
    + apply IH.
Qed.

Lemma min_with_zero_remaining (x rem : Q) :
  Qeq_bool rem 0 = true -> Qle_bool (Math_min x rem) 0 = true.
Proof.
  intros H. apply Qeq_bool_eq in H. apply Qle_bool_iff.
  unfold Math_min. rewrite <- H. apply Q.le_min_r.
Qed.

(** The inner loop is the walk that stops at zero, on the accounts of one
    type. *)
Lemma walkAccounts_refines (type : AccountType) (filteredAccounts : list ValidatorAccount.t) :
  (forall a, In a filteredAccounts -> ValidatorAccount.type a = type) ->
  forall st,
    walkAccounts stakePool skipFee minBalance type filteredAccounts st
    = walk_until_zero allocate filteredAccounts st.
Proof.
  induction filteredAccounts as [|a rest IH]; intros Hty st.
  - reflexivity.
  - assert (Ha : ValidatorAccount.type a = type) by (apply Hty; left; reflexivity).
    assert (Hrest : forall x, In x rest -> ValidatorAccount.type x = type)
      by (intros x Hx; apply Hty; right; assumption).
    specialize (IH Hrest).
    destruct st as [withdrawFrom remainingAmount].
    cbn [walkAccounts walk_until_zero snd].
    unfold spec_allocate, claimed_allocate. cbn [fst snd]. rewrite Ha.
    destruct (Qeq_bool remainingAmount 0) eqn:Hz.
    + destruct ((ValidatorAccount.lamports a <=? minBalance) && AccountType_eqb type transient).
      * rewrite IH. apply walk_until_zero_stopped. assumption.
      * rewrite (min_with_zero_remaining _ _ Hz).
        rewrite IH. apply walk_until_zero_stopped. assumption.
    + destruct ((ValidatorAccount.lamports a <=? minBalance) && AccountType_eqb type transient).
      * apply IH.
      * destruct (Qle_bool _ 0); [apply IH|].
        unfold allocation.
        destruct (Qeq_bool (Qred _) 0) eqn:Hz'.
        -- symmetry. apply walk_until_zero_stopped. assumption.
        -- apply IH.
Qed.

(** The outer loop is the same walk over the tiers one after another. *)
Lemma walkTypes_refines (accounts : list ValidatorAccount.t) (tiers : list AccountType) :
  forall st,
    walkTypes stakePool skipFee minBalance accounts tiers st
    = walk_until_zero allocate (flat_map (fun type => ofType type accounts) tiers) st.
Proof.
  induction tiers as [|type rest IH]; intros st.
  - reflexivity.
  - cbn [walkTypes flat_map]. rewrite walk_until_zero_app.
    rewrite walkAccounts_refines.
    + fold (ofType type accounts).
      destruct (Qeq_bool (snd (walk_until_zero allocate (ofType type accounts) st)) 0) eqn:Hz.
      * symmetry. apply walk_until_zero_stopped. assumption.
      * apply IH.
    + intros a Ha. apply filter_In in Ha. destruct Ha as [_ Ha].
      destruct (ValidatorAccount.type a), type; try discriminate; reflexivity.
Qed.

Lemma walkTypes_spec_walk (accounts : list ValidatorAccount.t) (amount : Q) :
  walkTypes stakePool skipFee minBalance accounts types ([], amount)
  = spec_walk stakePool skipFee minBalance accounts amount.
Proof.
  rewrite walkTypes_refines. unfold spec_walk, walkOrder, types.
  cbn [flat_map]. rewrite app_nil_r. reflexivity.
Qed.

(** One candidate either leaves the state alone or takes a positive amount
    that is at most the remaining one. *)
Lemma spec_allocate_cases (st : WalkState) (a : ValidatorAccount.t) :
  allocate st a = st
  \/ exists poolAmount,
      (0 < poolAmount)%Q /\ (poolAmount <= snd st)%Q
      /\ allocate st a = (fst st ++ [allocation a poolAmount], Qred (snd st - poolAmount)).
Proof.
  unfold spec_allocate, claimed_allocate.
  destruct ((ValidatorAccount.lamports a <=? minBalance)
            && AccountType_eqb (ValidatorAccount.type a) transient); [left; reflexivity|].
  set (poolAmount := Math_min _ (snd st)).
  destruct (Qle_bool poolAmount 0) eqn:Hle; [left; reflexivity|].
  right. exists poolAmount. repeat split.
  - apply Qnot_le_lt. intro H. apply Qle_bool_iff in H. congruence.
  - apply Q.le_min_r.
Qed.

Lemma totalPoolAmount_app (l1 l2 : list WithdrawAccount.t) :
  totalPoolAmount (l1 ++ l2) == totalPoolAmount l1 + totalPoolAmount l2.
Proof.
  induction l1 as [|w rest IH]; simpl.
  - ring.
  - rewrite IH. ring.
Qed.

(** What a walk adds to its state. *)
Lemma walk_until_zero_adds (candidates : list ValidatorAccount.t) :
  forall withdrawFrom remainingAmount,
  exists added picked,
    fst (walk_until_zero allocate candidates (withdrawFrom, remainingAmount))
    = withdrawFrom ++ added
    /\ Subseq picked candidates
    /\ map targetOf added = map sourceOf picked
    /\ Forall (fun w => 0 < WithdrawAccount.poolAmount w)%Q added
    /\ totalPoolAmount added
       == remainingAmount
          - snd (walk_until_zero allocate candidates (withdrawFrom, remainingAmount))
    /\ (0 <= remainingAmount ->
        0 <= snd (walk_until_zero allocate candidates (withdrawFrom, remainingAmount)))%Q.
Proof.
  induction candidates as [|a rest IH]; intros withdrawFrom remainingAmount.
  - exists [], []. cbn. rewrite app_nil_r.
    split; [reflexivity|]. split; [constructor|]. split; [reflexivity|].
    split; [constructor|]. split; [ring|tauto].
  - cbn [walk_until_zero snd].
    destruct (Qeq_bool remainingAmount 0) eqn:Hz.
    + exists [], []. cbn. rewrite app_nil_r.
      split; [reflexivity|]. split; [apply Subseq_nil_l|]. split; [reflexivity|].
      split; [constructor|]. split; [ring|tauto].
    + destruct (spec_allocate_cases (withdrawFrom, remainingAmount) a)
        as [Hsame|[poolAmount [Hpos [Hle Hstep]]]].
      * rewrite Hsame.
        destruct (IH withdrawFrom remainingAmount)
          as [added [picked [H1 [H2 [H3 [H4 [H5 H6]]]]]]].
        exists added, picked. repeat split; try assumption.
        apply Subseq_skip. assumption.
      * rewrite Hstep. cbn [fst snd] in *.
        destruct (IH (withdrawFrom ++ [allocation a poolAmount])
                     (Qred (remainingAmount - poolAmount)))
          as [added [picked [H1 [H2 [H3 [H4 [H5 H6]]]]]]].
        set (final := snd (walk_until_zero _ _ _)) in *.
        exists (allocation a poolAmount :: added), (a :: picked).
        repeat split.
        -- rewrite H1, <- app_assoc. reflexivity.
        -- apply Subseq_take. assumption.
        -- cbn. rewrite H3. reflexivity.
        -- constructor; assumption.
        -- unfold totalPoolAmount. cbn [fold_right]. fold (totalPoolAmount added).
           rewrite H5, Qred_correct. unfold allocation.
           cbn [WithdrawAccount.poolAmount]. ring.
        -- intros _. apply H6. rewrite Qred_correct. lra.
Qed.

End Walk.

Lemma walkOrder_perm (accounts : list ValidatorAccount.t) :
  Permutation (walkOrder accounts) accounts.
Proof.
  unfold walkOrder, ofType.
  induction accounts as [|a rest IH]; cbn [filter].
  - apply perm_nil.
  - destruct (ValidatorAccount.type a); cbn [AccountType_eqb].
    + cbn. apply perm_skip. exact IH.
    + apply Permutation_sym.
      apply Permutation_cons_app with (l1 := filter _ rest). apply Permutation_sym. exact IH.
    + apply Permutation_sym. rewrite app_assoc.
      apply Permutation_cons_app. rewrite <- app_assoc.
      apply Permutation_sym. exact IH.
    + apply Permutation_sym. rewrite !app_assoc.
      apply Permutation_cons_app. rewrite <- !app_assoc.
      apply Permutation_sym. exact IH.
Qed.

Lemma StronglySorted_impl {A : Type} (R R' : A -> A -> Prop) (l : list A) :
  (forall a b, R a b -> R' a b) -> StronglySorted R l -> StronglySorted R' l.
Proof.
  intros HR. induction 1 as [|x rest Hrest IH Hx]; constructor.
  - exact IH.
  - rewrite Forall_forall in *. intros z Hz. apply HR. apply Hx. assumption.
Qed.

(** ** The selector *)

Section SelectorProperties.

Variable findProgramAddressSync : list Buffer -> PublicKey -> PublicKey.
Variables (connection : Connection) (stakePool : StakePool) (stakePoolAddress : PublicKey).
Variables (amount : Q) (compareFn : option (ValidatorAccount.t -> ValidatorAccount.t -> Z)).
Variable skipFee : bool.

Let minBalance : Z := getMinimumBalanceForRentExemption connection + MINIMUM_ACTIVE_STAKE.
Let accounts : list ValidatorAccount.t :=
  prepareAccounts findProgramAddressSync connection stakePool stakePoolAddress compareFn.

Lemma walk_spec_walk :
  walk findProgramAddressSync connection stakePool stakePoolAddress amount compareFn skipFee
  = spec_walk stakePool skipFee minBalance accounts amount.
Proof.
  unfold walk. apply walkTypes_spec_walk.
Qed.



(** C4, as the code has it: with a validator list that is not empty, when
    the remaining amount is still positive after the walk, the selector
    fails with the error that no stake accounts have enough balance, and
    that error reports the requested amount, converted to SOL, whatever was
    allocated. *)
Theorem selector_insufficient_reports_request :
  validators connection <> [] ->
  (0 < snd (walk findProgramAddressSync connection stakePool stakePoolAddress
                 amount compareFn skipFee))%Q ->
  prepareWithdrawAccounts findProgramAddressSync connection stakePool stakePoolAddress
                          amount compareFn skipFee
  = Err (NotEnoughStake (lamportsToSol amount))
  /\ lamportsToSol amount == Qabs amount / 1000000000.
Proof.
  intros Hne Hpos. split.
  - unfold prepareWithdrawAccounts.
    destruct (validators connection) as [|v vs]; [congruence|].
    destruct (walk _ _ _ _ _ _ _) as [wf remainingAmount]. cbn [snd] in Hpos.
    destruct (Qle_bool remainingAmount 0) eqn:Hle; cbn [negb]; [|reflexivity].
    apply Qle_bool_iff in Hle. lra.
  - unfold lamportsToSol. rewrite Qred_correct. reflexivity.
Qed.

End SelectorProperties.





Lemma selector_insufficient_reports_request_witness :
  prepareWithdrawAccounts Sample.pda Sample.connection Sample.pool Sample.poolAddress
                          100000 None true
  = Err (NotEnoughStake (lamportsToSol 100000)).
Proof.
  apply (selector_insufficient_reports_request Sample.pda Sample.connection Sample.pool
           Sample.poolAddress 100000 None true).
  - discriminate.
  - vm_compute. reflexivity.
Defined.

(** C4 as stated fails on what the error names: asked for 100000 pool tokens
    the selector allocates 11800 and leaves 88200 unmet, and the error
    reports 0.0001, the request in SOL, which is neither the remainder nor
    the allocated amount, in pool tokens or in SOL. *)
Lemma insufficient_error_names_the_request :
  let st := walk Sample.pda Sample.connection Sample.pool Sample.poolAddress
                 100000 None true in
  snd st == 88200
  /\ totalPoolAmount (fst st) == 11800
  /\ exists e,
      prepareWithdrawAccounts Sample.pda Sample.connection Sample.pool Sample.poolAddress
                              100000 None true = Err e
      /\ reportedAmount e = Some (1 # 10000)
      /\ ~ (1 # 10000) == 88200 /\ ~ (1 # 10000) == lamportsToSol 88200
      /\ ~ (1 # 10000) == 11800 /\ ~ (1 # 10000) == lamportsToSol 11800.
Proof.
  split; [vm_compute; reflexivity|].
  split; [vm_compute; reflexivity|].
  exists (NotEnoughStake (1 # 10000)).
  split; [vm_compute; reflexivity|].
  split; [reflexivity|].
  repeat split; vm_compute; discriminate.
Qed.

(** ** What each validator and the reserve contribute *)

Section CandidateList.

Variable findProgramAddressSync : list Buffer -> PublicKey -> PublicKey.
Variables (connection : Connection) (stakePool : StakePool) (stakePoolAddress : PublicKey).
Variable compareFn : option (ValidatorAccount.t -> ValidatorAccount.t -> Z).

Let rentExemption : Z := getMinimumBalanceForRentExemption connection.
Let minBalance : Z := rentExemption + MINIMUM_ACTIVE_STAKE.
Let contribution : ValidatorStakeInfo -> list ValidatorAccount.t :=
  validatorAccounts findProgramAddressSync stakePool stakePoolAddress minBalance.

Lemma contribution_inactive (v : ValidatorStakeInfo) :
  status v <> Active -> contribution v = [].
Proof.
  intros H. unfold contribution, validatorAccounts.
  destruct (Z.eqb_spec (status v) Active); [contradiction|reflexivity].
Qed.

Lemma contribution_active_tier (v : ValidatorStakeInfo) :
  status v = Active ->
  (activeStakeLamports v = 0 ->
   ofType preferred (contribution v) ++ ofType active (contribution v) = [])
  /\ (activeStakeLamports v <> 0 ->
      exists type,
        (type = preferred
         /\ preferredWithdrawValidatorVoteAddress stakePool = Some (voteAccountAddress v)
         \/ type = active
            /\ preferredWithdrawValidatorVoteAddress stakePool <> Some (voteAccountAddress v))
        /\ ofType preferred (contribution v) ++ ofType active (contribution v)
           = [ValidatorAccount.mk type (Some (voteAccountAddress v))
                (findStakeProgramAddress findProgramAddressSync STAKE_POOL_PROGRAM_ID
                   (voteAccountAddress v) stakePoolAddress)
                (activeStakeLamports v)]).
Proof.
  intros Hst. unfold contribution, validatorAccounts, BN.isZero.
  rewrite Hst. cbn [Z.eqb Active negb].
  split.
  - intros H0. rewrite H0. cbn [Z.eqb negb app].
    destruct (0 <? _); reflexivity.
  - intros Hne. destruct (Z.eqb_spec (activeStakeLamports v) 0); [contradiction|].
    cbn [negb].
    destruct (preferredWithdrawValidatorVoteAddress stakePool) as [k|].
    + destruct (PublicKey_equals k (voteAccountAddress v)) eqn:Heq.
      * exists preferred. split.
        -- left. split; [reflexivity|]. apply PublicKey_equals_iff in Heq. congruence.
        -- destruct (0 <? _); reflexivity.
      * exists active. split.
        -- right. split; [reflexivity|]. intros H. injection H as H.
           apply PublicKey_equals_iff in H. congruence.
        -- destruct (0 <? _); reflexivity.
    + exists active. split.
      * right. split; [reflexivity|discriminate].
      * destruct (0 <? _); reflexivity.
Qed.

Lemma contribution_transient_tier (v : ValidatorStakeInfo) :
  status v = Active ->
  ofType transient (contribution v)
  = if 0 <? transientStakeLamports v - minBalance
    then [ValidatorAccount.mk transient (Some (voteAccountAddress v))
            (findTransientStakeProgramAddress findProgramAddressSync STAKE_POOL_PROGRAM_ID
               (voteAccountAddress v) stakePoolAddress (transientSeedSuffixStart v))
            (transientStakeLamports v - minBalance)]
    else [].
Proof.
  intros Hst. unfold contribution, validatorAccounts.
  rewrite Hst. cbn [Z.eqb Active negb].
  destruct (negb (BN.isZero (activeStakeLamports v)));
    destruct (0 <? _);
    try destruct (match preferredWithdrawValidatorVoteAddress stakePool with
                  | Some k => PublicKey_equals k (voteAccountAddress v)
                  | None => false
                  end); reflexivity.
Qed.

Lemma contribution_no_reserve (v : ValidatorStakeInfo) :
  ofType reserve (contribution v) = [].
Proof.
  apply filter_none. intros a Ha.
  apply validatorAccounts_not_reserve in Ha.
  destruct (ValidatorAccount.type a); try reflexivity. congruence.
Qed.


End CandidateList.


(** ** Fees *)

Lemma Qred_inject_Z (a : Z) : Qred (inject_Z a) = inject_Z a.
Proof.
  unfold Qred, inject_Z.
  pose proof (Z.ggcd_gcd a 1) as Hg.
  pose proof (Z.ggcd_correct_divisors a 1) as Hd.
  destruct (Z.ggcd a 1) as [g [n' d']]. cbn [fst snd] in *.
  rewrite Z.gcd_1_r in Hg. subst g. destruct Hd as [Hn Hd].
  replace n' with a by lia. replace d' with 1 by lia. reflexivity.
Qed.

Lemma calcPoolTokensForDeposit_floor (stakePool : StakePool) (stakeLamports : Z) :
  0 <= stakeLamports -> 0 <= poolTokenSupply stakePool ->
  poolTokenSupply stakePool <> 0 -> totalLamports stakePool <> 0 ->
  calcPoolTokensForDeposit stakePool stakeLamports
  = stakeLamports * poolTokenSupply stakePool / totalLamports stakePool.
Proof.
  intros Hl Hs Hs0 Ht0. unfold calcPoolTokensForDeposit, BN.isZero, BN.mul, Math_floor.
  destruct (Z.eqb_spec (poolTokenSupply stakePool) 0); [contradiction|].
  destruct (Z.eqb_spec (totalLamports stakePool) 0); [contradiction|].
  cbn [orb]. rewrite Zdiv_Qdiv. apply Qfloor_comp.
  apply divideBnToNumber_ratio; [nia|assumption].
Qed.

Lemma calcPoolTokensForDeposit_nonneg (stakePool : StakePool) (stakeLamports : Z) :
  0 <= stakeLamports -> 0 <= poolTokenSupply stakePool -> 0 <= totalLamports stakePool ->
  0 <= calcPoolTokensForDeposit stakePool stakeLamports.
Proof.
  intros Hl Hs Ht.
  destruct (Z.eq_dec (poolTokenSupply stakePool) 0) as [Hs0|Hs0].
  - unfold calcPoolTokensForDeposit, BN.isZero. rewrite Hs0. assumption.
  - destruct (Z.eq_dec (totalLamports stakePool) 0) as [Ht0|Ht0].
    + unfold calcPoolTokensForDeposit, BN.isZero. rewrite Ht0.
      rewrite orb_true_r. assumption.
    + rewrite calcPoolTokensForDeposit_floor by assumption.
      apply Z.div_pos; nia.
Qed.

Lemma divideBnToNumber_by_one (a : Z) : divideBnToNumber (BN.mul a 1) 1 = inject_Z a.
Proof.
  unfold divideBnToNumber, BN.mul, BN.div, BN.umod, BN.gcd, BN.toNumber, BN.isZero.
  cbn [Z.eqb Z.abs]. rewrite Z.mul_1_r, Z.quot_1_r, Z.mod_1_r.
  cbn [Z.gcd Z.quot Z.quotrem fst]. rewrite <- (Qred_inject_Z a) at 2.
  apply Qred_complete. unfold Qdiv, Qinv, Qmult, Qplus, Qeq, inject_Z. simpl. lia.
Qed.

Section FeeProperties.

Variable findProgramAddressSync : list Buffer -> PublicKey -> PublicKey.
Variables (connection : Connection) (stakePool : StakePool) (stakePoolAddress : PublicKey).
Variables (amount : Q) (compareFn : option (ValidatorAccount.t -> ValidatorAccount.t -> Z)).
Variable skipFee : bool.

Lemma walkAccounts_ext (other : StakePool) (minBalance : Z) (type : AccountType)
    (filteredAccounts : list ValidatorAccount.t) :
  (forall lamports,
      availableForWithdrawal other skipFee lamports
      = availableForWithdrawal stakePool skipFee lamports) ->
  forall st,
    walkAccounts other skipFee minBalance type filteredAccounts st
    = walkAccounts stakePool skipFee minBalance type filteredAccounts st.
Proof.
  intros Hav. induction filteredAccounts as [|a rest IH]; intros st.
  - reflexivity.
  - destruct st as [withdrawFrom remainingAmount]. cbn [walkAccounts].
    rewrite Hav. rewrite !IH. reflexivity.
Qed.

Lemma walkTypes_ext (other : StakePool) (minBalance : Z)
    (accounts : list ValidatorAccount.t) (tiers : list AccountType) :
  (forall lamports,
      availableForWithdrawal other skipFee lamports
      = availableForWithdrawal stakePool skipFee lamports) ->
  forall st,
    walkTypes other skipFee minBalance accounts tiers st
    = walkTypes stakePool skipFee minBalance accounts tiers st.
Proof.
  intros Hav. induction tiers as [|type rest IH]; intros st.
  - reflexivity.
  - cbn [walkTypes]. rewrite (walkAccounts_ext other) by assumption.
    rewrite !IH. reflexivity.
Qed.

Lemma available_without_fee (lamports : Z) :
  stakeWithdrawalFee stakePool = mkFee 0 0 ->
  availableForWithdrawal stakePool skipFee lamports
  = inject_Z (calcPoolTokensForDeposit stakePool lamports).
Proof.
  intros Hfee. unfold availableForWithdrawal. rewrite Hfee.
  cbn. rewrite andb_false_r. reflexivity.
Qed.

Lemma available_with_unit_fee (lamports : Z) :
  availableForWithdrawal (withFee stakePool (mkFee 1 0)) skipFee lamports
  = inject_Z (calcPoolTokensForDeposit stakePool lamports).
Proof.
  unfold availableForWithdrawal.
  change (calcPoolTokensForDeposit (withFee stakePool (mkFee 1 0)) lamports)
    with (calcPoolTokensForDeposit stakePool lamports).
  cbn [stakeWithdrawalFee withFee inverseFee numerator denominator BN.sub BN.isZero
       Z.sub Z.eqb Z.add Z.opp Z.pos_sub negb andb].
  destruct skipFee; cbn [negb andb]; [reflexivity|].
  apply divideBnToNumber_by_one.
Qed.



End FeeProperties.




(** ** Layouts *)

Lemma skipn_nth {A : Type} (d : A) (l : list A) (k : nat) :
  (k < List.length l)%nat -> skipn k l = nth k l d :: skipn (S k) l.
Proof.
  revert l. induction k as [|k IH]; intros [|x rest] Hk; simpl in *; try lia.
  - reflexivity.
  - apply IH. lia.
Qed.

Lemma slice_length (b : Buffer) (offset byteLength : Z) :
  0 <= byteLength -> 0 <= offset -> offset + byteLength <= blen b ->
  List.length (slice b offset (offset + byteLength)) = Z.to_nat byteLength.
Proof.
  unfold slice, blen. intros Hn Ho Hb.
  rewrite length_firstn, length_skipn.
  replace (offset + byteLength - offset) with byteLength by lia. lia.
Qed.

Lemma slice_one (b : Buffer) (offset : Z) :
  0 <= offset < blen b -> slice b offset (offset + 1) = [byteAt b offset].
Proof.
  unfold slice, blen, byteAt. intros Ho.
  replace (offset + 1 - offset) with 1 by lia.
  rewrite (skipn_nth 0) by lia. reflexivity.
Qed.

Lemma readUIntLE_in_range (b : Buffer) (offset byteLength : Z) :
  0 <= offset -> offset + byteLength <= blen b ->
  readUIntLE b offset byteLength = Ok (le_value (slice b offset (offset + byteLength))).
Proof.
  intros Ho Hb. unfold readUIntLE.
  destruct (Z.ltb_spec offset 0); [lia|].
  destruct (Z.ltb_spec (blen b) (offset + byteLength)); [lia|]. reflexivity.
Qed.

Lemma u8_decode (b : Buffer) (offset : Z) (property : option string) :
  0 <= offset < blen b -> decode (u8 property) b offset = Ok (VNum (byteAt b offset)).
Proof.
  intros Ho. cbn [decode u8 UInt_object].
  rewrite readUIntLE_in_range by lia. rewrite slice_one by assumption.
  cbn [bind le_value]. f_equal. f_equal. lia.
Qed.

Lemma u8_encode_bit (b : Buffer) (offset v : Z) (property : option string) :
  0 <= offset < blen b -> v = 0 \/ v = 1 ->
  encode (u8 property) (VNum v) b offset = Ok (setByte b offset v, 1).
Proof.
  intros Ho Hv. cbn [encode u8 UInt_object]. unfold writeUIntLE.
  destruct (Z.ltb_spec offset 0); [lia|].
  destruct (Z.ltb_spec (blen b) (offset + 1)); [lia|].
  destruct Hv as [->| ->]; reflexivity.
Qed.

(** C9, as the code has it: constructing an unsigned-integer layout succeeds
    for every width up to 6 bytes and fails with the range error that the
    span must not exceed 6 bytes for every greater width; an accepted layout
    has the width as its span, decodes to the little-endian value of exactly
    the width bytes at the offset, and fails to encode, with a range error, a
    value too large for the width. *)
Theorem UInt_accepts_up_to_six_bytes (width : Z) (property : option string)
    (b : Buffer) (offset value : Z) :
  (width <= 6 -> UInt width property = Ok (UInt_object width property))
  /\ (6 < width -> UInt width property = Err (RangeError "span must not exceed 6 bytes"))
  /\ (1 <= width <= 6 -> 0 <= offset -> offset + width <= blen b ->
      decode (UInt_object width property) b offset
      = Ok (VNum (le_value (slice b offset (offset + width))))
      /\ List.length (slice b offset (offset + width)) = Z.to_nat width
      /\ getSpan (UInt_object width property) b offset = Ok width)
  /\ (1 <= width <= 6 -> 2 ^ (8 * width) <= value ->
      encode (UInt_object width property) (VNum value) b offset
      = Err (RangeError "value argument is out of bounds")).
Proof.
  split; [|split; [|split]].
  - intros H. unfold UInt. destruct (Z.ltb_spec 6 width); [lia|reflexivity].
  - intros H. unfold UInt. destruct (Z.ltb_spec 6 width); [reflexivity|lia].
  - intros Hw Ho Hb. split; [|split].
    + cbn [decode UInt_object]. rewrite readUIntLE_in_range by assumption. reflexivity.
    + apply slice_length; (assumption || lia).
    + cbn [getSpan UInt_object]. unfold Layout_getSpan.
      destruct (Z.ltb_spec width 0); [lia|reflexivity].
  - intros Hw Hv. cbn [encode UInt_object]. unfold writeUIntLE.
    assert (0 < 2 ^ (8 * width)) by (apply Z.pow_pos_nonneg; lia).
    destruct (Z.ltb_spec value 0); [lia|].
    destruct (Z.ltb_spec (2 ^ (8 * width) - 1) value); [|lia]. reflexivity.
Qed.

Lemma UInt_accepts_up_to_six_bytes_witness :
  decode (UInt_object 2 None) [7; 1; 2; 9] 1 = Ok (VNum 513)
  /\ encode (UInt_object 2 None) (VNum 65536) [7; 1; 2; 9] 1
     = Err (RangeError "value argument is out of bounds").
Proof.
  split.
  - refine (proj1 (proj1 (proj2 (proj2
              (UInt_accepts_up_to_six_bytes 2 None [7; 1; 2; 9] 1 65536))) _ _ _));
      unfold blen; simpl; lia.
  - refine (proj2 (proj2 (proj2
              (UInt_accepts_up_to_six_bytes 2 None [7; 1; 2; 9] 1 65536))) _ _);
      simpl; lia.
Defined.

(** C9 as stated fails for widths 7 and 8: the constructor rejects them, and
    the error of a rejected width says that the span must not exceed 6 bytes,
    not that it is too large. *)
Lemma UInt_rejects_seven_and_eight_bytes :
  UInt 7 None = Err (RangeError "span must not exceed 6 bytes")
  /\ UInt 8 None = Err (RangeError "span must not exceed 6 bytes")
  /\ UInt 9 None <> Err (RangeError "span too large").
Proof.
  repeat split. vm_compute. discriminate.
Qed.

(** C8: on a buffer that holds the offset, the future-epoch layout encodes an
    absent value as the single byte 0 and a present value as the byte 1
    followed by the inner encoding, one byte longer than it; it decodes a
    zero discriminator to null with span 1 and any other discriminator to
    what the inner layout decodes at the next offset, with the inner span
    plus 1; so decoding what was encoded gives back null, or the value when
    the inner layout keeps the discriminator byte and gives the value back. *)
Theorem futureEpoch_contract (layout : Layout) (property : option string)
    (b : Buffer) (offset : Z) :
  0 <= offset < blen b ->
  (forall src, isAbsent src = true ->
     encode (futureEpoch layout property) src b offset = Ok (setByte b offset 0, 1)
     /\ decode (futureEpoch layout property) (setByte b offset 0) offset = Ok VNull)
  /\ (forall src, isAbsent src = false ->
        encode (futureEpoch layout property) src b offset
        = (w <- encode layout src (setByte b offset 1) (offset + 1) ;;
           Ok (fst w, snd w + 1)))
  /\ (byteAt b offset = 0 ->
      decode (futureEpoch layout property) b offset = Ok VNull
      /\ getSpan (futureEpoch layout property) b offset = Ok 1)
  /\ (byteAt b offset <> 0 ->
      decode (futureEpoch layout property) b offset = decode layout b (offset + 1)
      /\ getSpan (futureEpoch layout property) b offset
         = (s <- getSpan layout b (offset + 1) ;; Ok (s + 1)))
  /\ (forall src b' n,
        isAbsent src = false ->
        encode layout src (setByte b offset 1) (offset + 1) = Ok (b', n) ->
        blen b' = blen b ->
        byteAt b' offset = 1 ->
        decode layout b' (offset + 1) = Ok src ->
        encode (futureEpoch layout property) src b offset = Ok (b', n + 1)
        /\ decode (futureEpoch layout property) b' offset = Ok src
        /\ (getSpan layout b' (offset + 1) = Ok n ->
            getSpan (futureEpoch layout property) b' offset = Ok (n + 1))).
Proof.
  intros Ho.
  assert (Hset : forall v, blen (setByte b offset v) = blen b).
  { intros v. unfold setByte, blen in *.
    rewrite !length_app, length_firstn, length_skipn. cbn [List.length]. lia. }
  assert (Hget : forall v, byteAt (setByte b offset v) offset = v).
  { intros v. unfold setByte, byteAt, blen in *.
    rewrite app_nth2; rewrite length_firstn; [|lia].
    replace (Z.to_nat offset - Nat.min (Z.to_nat offset) (List.length b))%nat with 0%nat by lia.
    reflexivity. }
  assert (Hpresent : forall src, isAbsent src = false ->
            encode (futureEpoch layout property) src b offset
            = (w <- encode layout src (setByte b offset 1) (offset + 1) ;;
               Ok (fst w, snd w + 1))).
  { intros src Hsrc. cbn [encode futureEpoch FutureEpochLayout]. rewrite Hsrc.
    rewrite u8_encode_bit by (auto; lia). reflexivity. }
  assert (Hzero : forall buf, blen buf = blen b -> byteAt buf offset = 0 ->
            decode (futureEpoch layout property) buf offset = Ok VNull
            /\ getSpan (futureEpoch layout property) buf offset = Ok 1).
  { intros buf Hlen Hbyte. cbn [decode getSpan futureEpoch FutureEpochLayout].
    rewrite u8_decode by lia. rewrite Hbyte. split; reflexivity. }
  assert (Hnonzero : forall buf, blen buf = blen b -> byteAt buf offset <> 0 ->
            decode (futureEpoch layout property) buf offset = decode layout buf (offset + 1)
            /\ getSpan (futureEpoch layout property) buf offset
               = (s <- getSpan layout buf (offset + 1) ;; Ok (s + 1))).
  { intros buf Hlen Hbyte. cbn [decode getSpan futureEpoch FutureEpochLayout].
    rewrite u8_decode by lia. cbn [bind].
    destruct (byteAt buf offset); [contradiction| |]; split; reflexivity. }
  split; [|split; [|split; [|split]]].
  - intros src Hsrc. split.
    + cbn [encode futureEpoch FutureEpochLayout]. rewrite Hsrc.
      apply u8_encode_bit; auto.
    + apply Hzero; [apply Hset|apply Hget].
  - exact Hpresent.
  - apply Hzero. reflexivity.
  - apply Hnonzero. reflexivity.
  - intros src b' n Hsrc Henc Hlen Hbyte Hdec.
    destruct (Hnonzero b' Hlen ltac:(lia)) as [Hd Hs].
    split; [|split].
    + rewrite Hpresent by assumption. rewrite Henc. reflexivity.
    + rewrite Hd. assumption.
    + intros Hspan. rewrite Hs, Hspan. reflexivity.
Qed.

Lemma futureEpoch_contract_witness :
  let src := VObj [("denominator", VBN 2000); ("numerator", VBN 3)] in
  let b := repeat 0 20%nat in
  let b' := [0; 0; 1; 208; 7; 0; 0; 0; 0; 0; 0; 3; 0; 0; 0; 0; 0; 0; 0; 0] in
  encode (futureEpoch (fee None) None) src b 2 = Ok (b', 17)
  /\ decode (futureEpoch (fee None) None) b' 2 = Ok src
  /\ getSpan (futureEpoch (fee None) None) b' 2 = Ok 17.
Proof.
  intros src b b'.
  assert (Hoff : 0 <= 2 < blen b) by (vm_compute; split; [discriminate|reflexivity]).
  destruct (proj2 (proj2 (proj2 (proj2
              (futureEpoch_contract (fee None) None b 2 Hoff))))
              src b' 16 eq_refl eq_refl eq_refl eq_refl eq_refl) as [He [Hd Hs]].
  split; [exact He|]. split; [exact Hd|]. exact (Hs eq_refl).
Defined.


(** * Further properties *)

(** ** How much the selector allocates *)

(** Replaces a minimum or maximum of rationals by a variable with its
    defining inequalities, for linear arithmetic. *)
Ltac minmax_var term spec :=
  let H := fresh "Hq" in
  let q := fresh "q" in
  pose proof spec as H;
  set (q := term) in *; clearbody q;
  destruct H as [[? ?]|[? ?]].

Ltac minmax_cases :=
  unfold Math_min in *;
  repeat match goal with
  | |- context [Qmax ?a ?b] => minmax_var (Qmax a b) (Q.max_spec a b)
  | _ : context [Qmax ?a ?b] |- _ => minmax_var (Qmax a b) (Q.max_spec a b)
  | |- context [Qmin ?a ?b] => minmax_var (Qmin a b) (Q.min_spec a b)
  | _ : context [Qmin ?a ?b] |- _ => minmax_var (Qmin a b) (Q.min_spec a b)
  end.

Section Allocation.

Variables (stakePool : StakePool) (skipFee : bool) (minBalance : Z).

Local Abbreviation allocate := (spec_allocate stakePool skipFee minBalance).
Local Abbreviation available :=
  (fun a => availableForWithdrawal stakePool skipFee (ValidatorAccount.lamports a)).

Lemma capacityOf_nonneg (a : ValidatorAccount.t) :
  (0 <= capacityOf stakePool skipFee minBalance a)%Q.
Proof.
  unfold capacityOf. destruct (considered minBalance a); [|lra].
  apply Q.le_max_l.
Qed.

Lemma capacity_cons (a : ValidatorAccount.t) (accounts : list ValidatorAccount.t) :
  capacity stakePool skipFee minBalance (a :: accounts)
  = (capacityOf stakePool skipFee minBalance a
     + capacity stakePool skipFee minBalance accounts)%Q.
Proof. reflexivity. Qed.

Lemma capacity_nonneg (accounts : list ValidatorAccount.t) :
  (0 <= capacity stakePool skipFee minBalance accounts)%Q.
Proof.
  induction accounts as [|a rest IH].
  - cbn. lra.
  - rewrite capacity_cons. pose proof (capacityOf_nonneg a). lra.
Qed.

Lemma capacity_app (l1 l2 : list ValidatorAccount.t) :
  capacity stakePool skipFee minBalance (l1 ++ l2)
  == capacity stakePool skipFee minBalance l1 + capacity stakePool skipFee minBalance l2.
Proof.
  induction l1 as [|a rest IH].
  - cbn [app]. change (capacity stakePool skipFee minBalance []) with 0%Q. ring.
  - cbn [app]. rewrite !capacity_cons, IH. ring.
Qed.

Lemma capacity_perm (l1 l2 : list ValidatorAccount.t) :
  Permutation l1 l2 ->
  capacity stakePool skipFee minBalance l1 == capacity stakePool skipFee minBalance l2.
Proof.
  induction 1 as [|a l l' _ IH|a b l|l l' l'' _ IH1 _ IH2].
  - reflexivity.
  - rewrite !capacity_cons, IH. reflexivity.
  - rewrite !capacity_cons. ring.
  - rewrite IH1. exact IH2.
Qed.

(** After a walk that starts with a remaining amount that is not negative,
    what remains is the part of it that the candidates cannot give. *)
Lemma walk_remaining (candidates : list ValidatorAccount.t) :
  forall withdrawFrom remainingAmount,
    (0 <= remainingAmount)%Q ->
    snd (walk_until_zero allocate candidates (withdrawFrom, remainingAmount))
    == Qmax 0 (remainingAmount - capacity stakePool skipFee minBalance candidates).
Proof.
  induction candidates as [|a rest IH]; intros withdrawFrom remainingAmount Hrem.
  - cbn. minmax_cases; lra.
  - cbn [walk_until_zero snd]. rewrite capacity_cons.
    pose proof (capacity_nonneg rest) as Hcap.
    pose proof (capacityOf_nonneg a) as Hcapa.
    destruct (Qeq_bool remainingAmount 0) eqn:Hz.
    + apply Qeq_bool_eq in Hz. cbn [snd]. minmax_cases; lra.
    + apply Qeq_bool_neq in Hz.
      unfold spec_allocate, claimed_allocate, capacityOf, considered in *.
      cbn [fst snd] in *.
      destruct ((ValidatorAccount.lamports a <=? minBalance)
                && AccountType_eqb (ValidatorAccount.type a) transient); cbn [negb] in *.
      * rewrite IH by assumption. minmax_cases; lra.
      * set (avail := availableForWithdrawal stakePool skipFee (ValidatorAccount.lamports a))
          in *.
        destruct (Qle_bool (Math_min avail remainingAmount) 0) eqn:Hle.
        -- apply Qle_bool_iff in Hle. rewrite IH by assumption.
           minmax_cases; lra.
        -- assert (Hpos : (0 < Math_min avail remainingAmount)%Q).
           { apply Qnot_le_lt. intro H. apply Qle_bool_iff in H. congruence. }
           assert (Hle2 : (Math_min avail remainingAmount <= remainingAmount)%Q)
             by apply Q.le_min_r.
           rewrite IH by (rewrite Qred_correct; lra).
           rewrite Qred_correct.
           minmax_cases; lra.
Qed.

Lemma spec_allocate_step (withdrawFrom : list WithdrawAccount.t) (remainingAmount : Q)
    (a : ValidatorAccount.t) :
  allocate (withdrawFrom, remainingAmount) a
  = if (ValidatorAccount.lamports a <=? minBalance)
       && AccountType_eqb (ValidatorAccount.type a) transient
    then (withdrawFrom, remainingAmount)
    else if Qle_bool (Math_min (available a) remainingAmount) 0
         then (withdrawFrom, remainingAmount)
         else (withdrawFrom ++ [allocation a (Math_min (available a) remainingAmount)],
               Qred (remainingAmount - Math_min (available a) remainingAmount)).
Proof. reflexivity. Qed.

(** What a walk adds is drawn from candidates picked in order. *)
Lemma walk_draws (candidates : list ValidatorAccount.t) :
  forall withdrawFrom remainingAmount,
  exists added picked,
    fst (walk_until_zero allocate candidates (withdrawFrom, remainingAmount))
    = withdrawFrom ++ added
    /\ Subseq picked candidates
    /\ Drawn stakePool skipFee minBalance added picked.
Proof.
  induction candidates as [|a rest IH]; intros withdrawFrom remainingAmount.
  - exists [], []. cbn. rewrite app_nil_r. repeat split; constructor.
  - cbn [walk_until_zero snd].
    destruct (Qeq_bool remainingAmount 0) eqn:Hz.
    + exists [], []. cbn. rewrite app_nil_r.
      split; [reflexivity|]. split; [apply Subseq_nil_l|constructor].
    + rewrite spec_allocate_step.
      destruct ((ValidatorAccount.lamports a <=? minBalance)
                && AccountType_eqb (ValidatorAccount.type a) transient) eqn:Hguard.
      * destruct (IH withdrawFrom remainingAmount) as [added [picked [H1 [H2 H3]]]].
        exists added, picked. split; [assumption|]. split; [|assumption].
        apply Subseq_skip. assumption.
      * cbv beta.
        set (avail := availableForWithdrawal stakePool skipFee (ValidatorAccount.lamports a)).
        destruct (Qle_bool (Math_min avail remainingAmount) 0) eqn:Hle.
        -- destruct (IH withdrawFrom remainingAmount) as [added [picked [H1 [H2 H3]]]].
           exists added, picked. split; [assumption|]. split; [|assumption].
           apply Subseq_skip. assumption.
        -- assert (Hpos : (0 < Math_min avail remainingAmount)%Q).
           { apply Qnot_le_lt. intro H. apply Qle_bool_iff in H. congruence. }
           set (poolAmount := Math_min avail remainingAmount) in *.
           destruct (IH (withdrawFrom ++ [allocation a poolAmount])
                        (Qred (remainingAmount - poolAmount)))
             as [added [picked [H1 [H2 H3]]]].
           exists (allocation a poolAmount :: added), (a :: picked).
           split; [rewrite H1, <- app_assoc; reflexivity|].
           split; [apply Subseq_take; assumption|].
           constructor; try assumption.
           ++ reflexivity.
           ++ unfold considered. rewrite Hguard. reflexivity.
           ++ apply Q.le_min_l.
           ++ intros Hmore. cbn [WithdrawAccount.poolAmount allocation].
              destruct (Qeq_bool (Qred (remainingAmount - poolAmount)) 0) eqn:Hz'.
              ** exfalso. apply Hmore.
                 rewrite walk_until_zero_stopped in H1 by assumption.
                 cbn [fst] in H1.
                 apply (f_equal (@List.length _)) in H1.
                 rewrite !length_app in H1. destruct added; [reflexivity|].
                 cbn in H1. lia.
              ** apply Qeq_bool_neq in Hz'. rewrite Qred_correct in Hz'.
                 assert (Hlt : (poolAmount < remainingAmount)%Q).
                 { destruct (Qlt_le_dec poolAmount remainingAmount) as [Hlt|Hge];
                     [assumption|].
                   exfalso. apply Hz'.
                   pose proof (Q.le_min_r avail remainingAmount).
                   unfold poolAmount, Math_min in *. lra. }
                 fold avail. unfold poolAmount in *. minmax_cases; lra.
Qed.

Lemma Drawn_bounds (withdrawFrom : list WithdrawAccount.t)
    (picked : list ValidatorAccount.t) :
  Drawn stakePool skipFee minBalance withdrawFrom picked ->
  Forall2 (fun w a =>
             targetOf w = sourceOf a
             /\ considered minBalance a = true
             /\ (0 < WithdrawAccount.poolAmount w <= available a)%Q)
          withdrawFrom picked
  /\ Forall2 (fun w a => WithdrawAccount.poolAmount w == available a)
             (removelast withdrawFrom) (removelast picked).
Proof.
  induction 1 as [|w a ws cs Ht Hc Hp Hb Hd Hrest [IH1 IH2]].
  - split; constructor.
  - split; [constructor; auto|].
    destruct ws as [|w' ws'].
    + inversion Hrest; subst. constructor.
    + inversion Hrest; subst.
      change (removelast (w :: w' :: ws')) with (w :: removelast (w' :: ws')).
      match goal with
      | |- Forall2 _ _ (removelast (a :: ?c :: ?r)) =>
          change (removelast (a :: c :: r)) with (a :: removelast (c :: r))
      end.
      constructor; [apply Hd; discriminate|exact IH2].
Qed.

End Allocation.

Section SelectorOutcome.

Variable findProgramAddressSync : list Buffer -> PublicKey -> PublicKey.
Variables (connection : Connection) (stakePool : StakePool) (stakePoolAddress : PublicKey).
Variables (amount : Q) (skipFee : bool).

Let minBalance : Z := getMinimumBalanceForRentExemption connection + MINIMUM_ACTIVE_STAKE.

Local Abbreviation accountsFor compareFn :=
  (prepareAccounts findProgramAddressSync connection stakePool stakePoolAddress compareFn).
Local Abbreviation capacityFor compareFn :=
  (capacity stakePool skipFee minBalance (accountsFor compareFn)).
Local Abbreviation selector compareFn :=
  (prepareWithdrawAccounts findProgramAddressSync connection stakePool stakePoolAddress
                           amount compareFn skipFee).

Lemma walk_leaves (compareFn : option (ValidatorAccount.t -> ValidatorAccount.t -> Z)) :
  (0 <= amount)%Q ->
  snd (walk findProgramAddressSync connection stakePool stakePoolAddress amount
            compareFn skipFee)
  == Qmax 0 (amount - capacityFor compareFn).
Proof.
  intros Hamount. rewrite walk_spec_walk. unfold spec_walk.
  rewrite walk_remaining by assumption.
  rewrite (capacity_perm _ _ _ _ _ (walkOrder_perm (accountsFor compareFn))).
  reflexivity.
Qed.

Lemma capacity_any_order
    (compareFn compareFn' : option (ValidatorAccount.t -> ValidatorAccount.t -> Z)) :
  capacityFor compareFn == capacityFor compareFn'.
Proof.
  apply capacity_perm.
  eapply perm_trans; [apply prepareAccounts_perm|].
  apply Permutation_sym. apply prepareAccounts_perm.
Qed.

Lemma selector_ok_iff (compareFn : option (ValidatorAccount.t -> ValidatorAccount.t -> Z)) :
  (0 <= amount)%Q ->
  (exists withdrawFrom, selector compareFn = Ok withdrawFrom)
  <-> validators connection <> [] /\ (amount <= capacityFor compareFn)%Q.
Proof.
  intros Hamount. pose proof (walk_leaves compareFn Hamount) as Hleft.
  unfold prepareWithdrawAccounts.
  destruct (validators connection) as [|v vs].
  - split; [intros [w H]; discriminate|intros [H _]; congruence].
  - destruct (walk _ _ _ _ _ _ _) as [wf remainingAmount]. cbn [snd] in Hleft.
    destruct (Qle_bool remainingAmount 0) eqn:Hle; cbn [negb].
    + apply Qle_bool_iff in Hle. split.
      * intros _. split; [discriminate|]. revert Hleft. minmax_cases; intros; lra.
      * intros _. exists wf. reflexivity.
    + split; [intros [w H]; discriminate|].
      intros [_ Hcap]. exfalso.
      assert (~ (remainingAmount <= 0)%Q) by (intro H; apply Qle_bool_iff in H; congruence).
      revert Hleft. minmax_cases; intros; lra.
Qed.





End SelectorOutcome.

(** ** Pool tokens and lamports *)

Section Conversion.

Variable stakePool : StakePool.
Hypothesis supply_nonneg : 0 <= poolTokenSupply stakePool.
Hypothesis total_nonneg : 0 <= totalLamports stakePool.

Lemma calcLamportsWithdrawAmount_cases (poolTokens : Z) :
  0 <= poolTokens ->
  (poolTokens * totalLamports stakePool < poolTokenSupply stakePool ->
   calcLamportsWithdrawAmount stakePool poolTokens = 0%Q)
  /\ (poolTokenSupply stakePool = 0 -> calcLamportsWithdrawAmount stakePool poolTokens = 0%Q)
  /\ (0 < poolTokenSupply stakePool <= poolTokens * totalLamports stakePool ->
      calcLamportsWithdrawAmount stakePool poolTokens
      == inject_Z (poolTokens * totalLamports stakePool)
         / inject_Z (poolTokenSupply stakePool)).
Proof.
  intros Hp. unfold calcLamportsWithdrawAmount, BN.lt, BN.mul.
  split; [|split].
  - intros Hlt. destruct (Z.ltb_spec (poolTokens * totalLamports stakePool)
                                     (poolTokenSupply stakePool)); [reflexivity|lia].
  - intros Hz. rewrite Hz.
    destruct (Z.ltb_spec (poolTokens * totalLamports stakePool) 0); reflexivity.
  - intros [Hs Hle].
    destruct (Z.ltb_spec (poolTokens * totalLamports stakePool)
                         (poolTokenSupply stakePool)); [lia|].
    apply divideBnToNumber_ratio; lia.
Qed.




End Conversion.

(** ** Chunks *)

Section Chunks.

Context {A : Type}.
Variable array : list A.

Lemma Array_slice_chunk (i size : Z) :
  0 <= i -> 1 <= size ->
  Array_slice array i (i + size) = firstn (Z.to_nat size) (skipn (Z.to_nat i) array).
Proof.
  intros Hi Hs. unfold Array_slice.
  destruct (Z.ltb_spec i 0); [lia|].
  destruct (Z.ltb_spec (i + size) 0); [lia|].
  destruct (Z_le_gt_dec i (Z.of_nat (List.length array))) as [Hle|Hgt].
  - rewrite (Z.min_l i) by lia.
    destruct (Z_le_gt_dec (i + size) (Z.of_nat (List.length array))) as [Hle2|Hgt2].
    + rewrite Z.min_l by lia. f_equal. lia.
    + rewrite Z.min_r by lia.
      rewrite !firstn_all2; [reflexivity| |]; rewrite length_skipn; lia.
  - rewrite !Z.min_r by lia.
    rewrite !skipn_all2 by lia. rewrite !firstn_nil. reflexivity.
Qed.

Lemma arrayChunk_loop_chunksFrom (size : Z) (fuel : nat) :
  1 <= size ->
  forall (j : nat) (result : list (list A)),
    (List.length array - j < fuel)%nat ->
    arrayChunk_loop fuel array size (Z.of_nat j) result
    = Some (result ++ chunksFrom array fuel (Z.to_nat size) j).
Proof.
  intros Hs. induction fuel as [|fuel IH]; intros j result Hfuel; [lia|].
  cbn [arrayChunk_loop chunksFrom].
  destruct (Z.ltb_spec (Z.of_nat j) (Z.of_nat (List.length array))) as [Hlt|Hge];
    destruct (Nat.ltb_spec j (List.length array)); try lia.
  - rewrite Array_slice_chunk by lia.
    replace (Z.of_nat j + size) with (Z.of_nat (j + Z.to_nat size)) by lia.
    rewrite IH by lia. rewrite Nat2Z.id, <- app_assoc. reflexivity.
  - rewrite app_nil_r. reflexivity.
Qed.

Lemma chunksFrom_concat (s fuel : nat) :
  (1 <= s)%nat ->
  forall j, (List.length array - j < fuel)%nat ->
    List.concat (chunksFrom array fuel s j) = skipn j array.
Proof.
  intros Hs. induction fuel as [|fuel IH]; intros j Hfuel; [lia|].
  cbn [chunksFrom]. destruct (Nat.ltb_spec j (List.length array)).
  - cbn [List.concat]. rewrite IH by lia.
    rewrite <- (firstn_skipn s (skipn j array)) at 2.
    rewrite skipn_skipn. do 2 f_equal. lia.
  - rewrite skipn_all2 by lia. reflexivity.
Qed.

Lemma chunksFrom_length (s fuel : nat) :
  (1 <= s)%nat ->
  forall j, (List.length array - j < fuel)%nat ->
    List.length (chunksFrom array fuel s j) = ((List.length array - j + s - 1) / s)%nat.
Proof.
  intros Hs. induction fuel as [|fuel IH]; intros j Hfuel; [lia|].
  cbn [chunksFrom]. destruct (Nat.ltb_spec j (List.length array)).
  - cbn [List.length]. rewrite IH by lia.
    destruct (Nat.le_gt_cases s (List.length array - j)) as [Hfull|Hpart].
    + replace (List.length array - j + s - 1)%nat
        with ((List.length array - (j + s) + s - 1) + 1 * s)%nat by lia.
      rewrite Nat.div_add by lia. lia.
    + replace (List.length array - (j + s) + s - 1)%nat with (s - 1)%nat by lia.
      rewrite Nat.div_small by lia.
      apply Nat.div_unique with (r := (List.length array - j - 1)%nat); lia.
  - replace (List.length array - j + s - 1)%nat with (s - 1)%nat by lia.
    rewrite Nat.div_small by lia. reflexivity.
Qed.

Lemma chunksFrom_nth (s fuel : nat) :
  forall j k, (k < List.length (chunksFrom array fuel s j))%nat ->
    nth k (chunksFrom array fuel s j) [] = firstn s (skipn (j + k * s) array)
    /\ ((S k < List.length (chunksFrom array fuel s j))%nat ->
        (j + (k + 1) * s < List.length array)%nat)
    /\ (j + k * s < List.length array)%nat.
Proof.
  induction fuel as [|fuel IH]; intros j k Hk; [cbn in Hk; lia|].
  cbn [chunksFrom] in *. destruct (Nat.ltb_spec j (List.length array)); [|cbn in Hk; lia].
  destruct k as [|k].
  - cbn [nth]. rewrite Nat.add_0_r. split; [reflexivity|]. split; [|lia].
    cbn [List.length]. intros Hnext.
    destruct fuel as [|fuel']; [cbn in Hnext; lia|].
    cbn [chunksFrom] in Hnext.
    destruct (Nat.ltb_spec (j + s) (List.length array)); [lia|cbn in Hnext; lia].
  - cbn [nth List.length] in *.
    destruct (IH (j + s)%nat k ltac:(lia)) as [H1 [H2 H3]].
    rewrite H1. replace (j + s + k * s)%nat with (j + S k * s)%nat by lia.
    split; [reflexivity|]. split; [|lia].
    intros Hnext. specialize (H2 ltac:(lia)). lia.
Qed.

Lemma arrayChunk_chunks (size : Z) (fuel : nat) :
  1 <= size -> (List.length array < fuel)%nat ->
  exists chunks,
    arrayChunk fuel array size = Some chunks
    /\ List.concat chunks = array
    /\ Z.of_nat (List.length chunks)
       = (Z.of_nat (List.length array) + size - 1) / size
    /\ forall k, (k < List.length chunks)%nat ->
         nth k chunks [] = firstn (Z.to_nat size) (skipn (k * Z.to_nat size) array)
         /\ 1 <= Z.of_nat (List.length (nth k chunks [])) <= size
         /\ ((S k < List.length chunks)%nat ->
             Z.of_nat (List.length (nth k chunks [])) = size).
Proof.
  intros Hs Hfuel. set (s := Z.to_nat size).
  exists (chunksFrom array fuel s 0).
  split.
  { unfold arrayChunk. change 0 with (Z.of_nat 0).
    rewrite (arrayChunk_loop_chunksFrom size fuel Hs 0%nat []) by lia.
    reflexivity. }
  split; [rewrite chunksFrom_concat by lia; reflexivity|].
  split.
  { rewrite chunksFrom_length by lia. rewrite Nat.sub_0_r.
    rewrite Nat2Z.inj_div. f_equal; lia. }
  intros k Hk. destruct (chunksFrom_nth s fuel 0%nat k Hk) as [H1 [H2 H3]].
  cbn [Nat.add] in *. rewrite H1. split; [reflexivity|].
  rewrite length_firstn, length_skipn. split; [lia|].
  intros Hnext. specialize (H2 Hnext). lia.
Qed.

(** X8: with a chunk size of at least 1 and fuel beyond the length of the
    array, [arrayChunk] returns chunks that concatenate to the array; there
    are as many as the length divided by the size, rounded up; chunk [k]
    holds the elements from index [k * size] on, at most [size] of them; no
    chunk is empty and every chunk but the last holds exactly [size]. *)
Theorem arrayChunk_partitions (size : Z) (fuel : nat) :
  1 <= size -> (List.length array < fuel)%nat ->
  exists chunks,
    arrayChunk fuel array size = Some chunks
    /\ List.concat chunks = array
    /\ Z.of_nat (List.length chunks)
       = (Z.of_nat (List.length array) + size - 1) / size
    /\ forall k, (k < List.length chunks)%nat ->
         nth k chunks [] = firstn (Z.to_nat size) (skipn (k * Z.to_nat size) array)
         /\ 1 <= Z.of_nat (List.length (nth k chunks [])) <= size
         /\ ((S k < List.length chunks)%nat ->
             Z.of_nat (List.length (nth k chunks [])) = size).
Proof.
  exact (arrayChunk_chunks size fuel).
Qed.

(** X9: with a chunk size of 0 or less [arrayChunk] does not return on an
    array that is not empty, whatever the fuel: the index never passes the
    length. On an empty array it returns no chunks, whatever the size. *)
Theorem arrayChunk_without_progress (size : Z) :
  size <= 0 ->
  (array <> [] -> forall fuel, arrayChunk fuel array size = None)
  /\ (array = [] -> forall fuel, arrayChunk (S fuel) array size = Some []).
Proof.
  intros Hs. split.
  - intros Hne fuel. unfold arrayChunk.
    assert (Hlen : 0 < Z.of_nat (List.length array))
      by (destruct array; [contradiction|cbn; lia]).
    assert (H : forall i result, i <= 0 -> arrayChunk_loop fuel array size i result = None).
    { induction fuel as [|fuel' IH]; intros i result Hi; [reflexivity|].
      cbn [arrayChunk_loop].
      destruct (Z.ltb_spec i (Z.of_nat (List.length array))); [|lia].
      apply IH. lia. }
    apply H. lia.
  - intros -> fuel. reflexivity.
Qed.

End Chunks.

(** ** Instruction data *)

Lemma writeUIntLE_in_range (value : Z) (b : Buffer) (offset byteLength : Z) :
  0 <= value < 2 ^ (8 * byteLength) -> 0 <= offset -> offset + byteLength <= blen b ->
  writeUIntLE value b offset byteLength
  = Ok (firstn (Z.to_nat offset) b
          ++ le_bytes (Z.to_nat byteLength) value
          ++ skipn (Z.to_nat (offset + byteLength)) b).
Proof.
  intros Hv Ho Hb. unfold writeUIntLE.
  destruct (Z.ltb_spec value 0); [lia|].
  destruct (Z.ltb_spec (2 ^ (8 * byteLength) - 1) value); [lia|].
  destruct (Z.ltb_spec offset 0); [lia|].
  destruct (Z.ltb_spec (blen b) (offset + byteLength)); [lia|]. reflexivity.
Qed.

(** Evaluates the conversions of closed integers to naturals. *)
Ltac eval_to_nat :=
  repeat match goal with
  | |- context [Z.to_nat ?z] =>
      let n := eval vm_compute in (Z.to_nat z) in
      progress change (Z.to_nat z) with n
  | |- context [Pos.to_nat ?p] =>
      let n := eval vm_compute in (Pos.to_nat p) in
      progress change (Pos.to_nat p) with n
  end.

(** Rewrites one write into an explicit buffer and simplifies the lists. *)
Ltac write_step :=
  rewrite writeUIntLE_in_range
    by (unfold blen; eval_to_nat; cbn -[Z.div Z.modulo]; lia);
  eval_to_nat;
  cbn -[Z.div Z.modulo Z.ltb writeUIntLE].

Lemma encodeData_UpdateValidatorListBalance (startIndex : Z) (noMerge : bool) :
  0 <= startIndex < 2 ^ 32 ->
  encodeData STAKE_POOL_INSTRUCTION_LAYOUTS.UpdateValidatorListBalance
    [("startIndex", VNum startIndex); ("noMerge", VNum (if noMerge then 1 else 0))]
  = Ok ([6] ++ le_bytes 4 startIndex ++ [if noMerge then 1 else 0]).
Proof.
  intros H. cbn in H. unfold encodeData.
  cbn -[Z.div Z.modulo Z.ltb writeUIntLE].
  change (repeat 0 (Z.to_nat (if 6 <? 0 then 1024 else 6))) with [0; 0; 0; 0; 0; 0].
  write_step. write_step.
  destruct noMerge; write_step; reflexivity.
Qed.

(** ** Updating a pool *)

Section UpdateStakePoolProperties.

Variable web3_js : Web3.
Variables (connection : Connection) (stakePoolAddress : PublicKey) (stakePool : StakePool).
Variables (poolMint : PublicKey) (noMerge : bool).

Let withdrawAuthority : PublicKey :=
  findWithdrawAuthorityProgramAddress web3_js STAKE_POOL_PROGRAM_ID stakePoolAddress.

Lemma updateListInstructions_loop_ok (validatorChunks : list (list ValidatorStakeInfo)) :
  forall startIndex updateListInstructions,
    0 <= startIndex ->
    startIndex + 5 * Z.of_nat (List.length validatorChunks) <= 2 ^ 32 + 4 ->
    updateListInstructions_loop web3_js stakePoolAddress stakePool withdrawAuthority noMerge
      validatorChunks startIndex updateListInstructions
    = Ok (updateListInstructions ++ updatesFrom web3_js stakePoolAddress stakePool noMerge startIndex validatorChunks).
Proof.
  induction validatorChunks as [|chunk rest IH]; intros startIndex acc H0 Hmax.
  - cbn. rewrite app_nil_r. reflexivity.
  - cbn [updateListInstructions_loop updatesFrom].
    unfold StakePoolInstruction.updateValidatorListBalance.
    cbn [List.length] in Hmax.
    rewrite encodeData_UpdateValidatorListBalance by (cbn; cbn in Hmax; lia).
    cbn [bind]. rewrite IH.
    + rewrite <- app_assoc. reflexivity.
    + unfold MAX_VALIDATORS_TO_UPDATE. lia.
    + unfold MAX_VALIDATORS_TO_UPDATE. lia.
Qed.

Lemma updatesFrom_length (validatorChunks : list (list ValidatorStakeInfo)) :
  forall startIndex,
    List.length (updatesFrom web3_js stakePoolAddress stakePool noMerge startIndex validatorChunks) = List.length validatorChunks.
Proof.
  induction validatorChunks as [|chunk rest IH]; intros startIndex; cbn; [|rewrite IH];
    reflexivity.
Qed.

Lemma updatesFrom_nth (validatorChunks : list (list ValidatorStakeInfo)) :
  forall startIndex k,
    (k < List.length validatorChunks)%nat ->
    nth_error (updatesFrom web3_js stakePoolAddress stakePool noMerge startIndex validatorChunks) k
    = Some (updateOf web3_js stakePoolAddress stakePool noMerge (startIndex + 5 * Z.of_nat k) (nth k validatorChunks [])).
Proof.
  induction validatorChunks as [|chunk rest IH]; intros startIndex k Hk;
    [cbn in Hk; lia|].
  destruct k as [|k].
  - cbn. do 2 f_equal. lia.
  - cbn [updatesFrom nth_error nth]. rewrite IH by (cbn in Hk; lia).
    unfold MAX_VALIDATORS_TO_UPDATE. do 2 f_equal. lia.
Qed.

(** X10: for a validator list of at most 2^32 entries and fuel beyond its
    length, [updateStakePool] returns one update instruction for every five
    validators, rounded up. Instruction [k] covers the validators from index
    [5 * k] on, at most five: its data is the byte 6, the little-endian
    32-bit start index [5 * k] and the merge flag, and after the seven fixed
    accounts it lists, writable, the stake and transient stake addresses of
    those validators in order. The final instructions are the two with data
    [7] and [8]. *)
Theorem updateStakePool_covers_the_validators (fuel : nat) :
  Z.of_nat (List.length (validators connection)) <= 2 ^ 32 ->
  (List.length (validators connection) < fuel)%nat ->
  exists updateListInstructions finalInstructions,
    updateStakePool web3_js fuel connection stakePoolAddress stakePool poolMint noMerge
    = Some (Ok (updateListInstructions, finalInstructions))
    /\ Z.of_nat (List.length updateListInstructions)
       = (Z.of_nat (List.length (validators connection)) + 4) / 5
    /\ (forall k, (k < List.length updateListInstructions)%nat ->
          nth_error updateListInstructions k
          = Some (TransactionInstruction.mk STAKE_POOL_PROGRAM_ID
                    ([ key stakePoolAddress false false;
                       key (findWithdrawAuthorityProgramAddress web3_js
                              STAKE_POOL_PROGRAM_ID stakePoolAddress) false false;
                       key (validatorList stakePool) false true;
                       key (reserveStake stakePool) false true;
                       key (SYSVAR_CLOCK_PUBKEY web3_js) false false;
                       key (SYSVAR_STAKE_HISTORY_PUBKEY web3_js) false false;
                       key (StakeProgram_programId web3_js) false false ]
                       ++ map (fun pubkey => key pubkey false true)
                              (validatorAndTransientStakePairs web3_js stakePoolAddress
                                 (firstn 5 (skipn (k * 5) (validators connection)))))
                    ([6] ++ le_bytes 4 (5 * Z.of_nat k)
                         ++ [if noMerge then 1 else 0])))
    /\ map TransactionInstruction.data finalInstructions = [[7]; [8]].
Proof.
  intros Hmax Hfuel.
  destruct (arrayChunk_chunks (validators connection) MAX_VALIDATORS_TO_UPDATE fuel)
    as [chunks [Hchunks [_ [Hcount Hnth]]]]; [unfold MAX_VALIDATORS_TO_UPDATE; lia|assumption|].
  unfold MAX_VALIDATORS_TO_UPDATE in Hcount, Hnth.
  replace (Z.of_nat (List.length (validators connection)) + 5 - 1)
    with (Z.of_nat (List.length (validators connection)) + 4) in Hcount by lia.
  exists (updatesFrom web3_js stakePoolAddress stakePool noMerge 0 chunks).
  eexists.
  split.
  { unfold updateStakePool. rewrite Hchunks. fold withdrawAuthority.
    rewrite updateListInstructions_loop_ok.
    - cbn [bind app]. reflexivity.
    - lia.
    - rewrite Hcount.
      pose proof (Z.mul_div_le (Z.of_nat (List.length (validators connection)) + 4) 5
                    ltac:(lia)).
      lia. }
  rewrite updatesFrom_length.
  split; [exact Hcount|]. split; [|reflexivity].
  intros k Hk. rewrite updatesFrom_nth by assumption.
  destruct (Hnth k Hk) as [Hchunk _]. rewrite Hchunk.
  unfold updateOf. do 2 f_equal.
Qed.

End UpdateStakePoolProperties.

(** ** Bytes in a buffer *)

Lemma le_bytes_length (n : nat) (v : Z) : List.length (le_bytes n v) = n.
Proof.
  revert v. induction n as [|n IH]; intros v; cbn; [|rewrite IH]; reflexivity.
Qed.

Lemma le_value_le_bytes (n : nat) (v : Z) :
  le_value (le_bytes n v) = v mod 256 ^ Z.of_nat n.
Proof.
  revert v. induction n as [|n IH]; intros v.
  - cbn. rewrite Z.mod_1_r. reflexivity.
  - cbn [le_bytes le_value]. rewrite IH.
    rewrite Nat2Z.inj_succ, Z.pow_succ_r by lia.
    rewrite Z.rem_mul_r; [reflexivity|lia|].
    apply Z.pow_pos_nonneg; lia.
Qed.

Lemma nth_skipn_add (n i : nat) (l : list Z) :
  nth i (skipn n l) 0 = nth (n + i) l 0.
Proof.
  revert l. induction n as [|n IH]; intros [|x l]; cbn; try reflexivity.
  - destruct i; reflexivity.
  - apply IH.
Qed.

Lemma nth_firstn_below (n i : nat) (l : list Z) :
  (i < n)%nat -> nth i (firstn n l) 0 = nth i l 0.
Proof.
  revert i l. induction n as [|n IH]; intros i [|x l] Hi; cbn; try lia;
    try reflexivity.
  destruct i; [reflexivity|]. apply IH. lia.
Qed.

Section Splice.

Variables (b bs : list Z) (k : nat).
Hypothesis fits : (k + List.length bs <= List.length b)%nat.

Let written : list Z := firstn k b ++ bs ++ skipn (k + List.length bs) b.

Lemma splice_length : List.length written = List.length b.
Proof.
  unfold written. rewrite !length_app, length_firstn, length_skipn. lia.
Qed.

Lemma splice_read : firstn (List.length bs) (skipn k written) = bs.
Proof.
  unfold written. rewrite skipn_app, length_firstn.
  rewrite (skipn_all2 (firstn k b)) by (rewrite length_firstn; lia).
  replace (k - Nat.min k (List.length b))%nat with 0%nat by lia.
  cbn [app skipn]. rewrite firstn_app, Nat.sub_diag, firstn_all. cbn.
  rewrite app_nil_r. reflexivity.
Qed.

Lemma splice_outside (i : nat) :
  (i < k \/ k + List.length bs <= i)%nat -> nth i written 0 = nth i b 0.
Proof.
  unfold written. intros [Hi|Hi].
  - rewrite app_nth1 by (rewrite length_firstn; lia).
    apply nth_firstn_below. assumption.
  - rewrite app_nth2 by (rewrite length_firstn; lia).
    rewrite app_nth2 by (rewrite length_firstn; lia).
    rewrite length_firstn, nth_skipn_add. f_equal. lia.
Qed.

End Splice.

(** X11: a blob of a numeric length encodes a byte array of exactly that
    length that fits the buffer from the offset: the buffer keeps its
    length and its bytes outside the blob, the count returned is the length,
    and decoding at the offset gives the byte array back. A byte array of
    another length is a type error, one that overruns the buffer a range
    error. Decoding never fails: it returns the bytes the buffer has from
    the offset, at most the length. *)
Theorem Blob_round_trip (length : Z) (property : option string)
    (src b : Buffer) (offset : Z) :
  0 <= length -> 0 <= offset ->
  (blen src = length -> offset + length <= blen b ->
   exists b',
     encode (Blob length property) (VBytes src) b offset = Ok (b', length)
     /\ blen b' = blen b
     /\ decode (Blob length property) b' offset = Ok (VBytes src)
     /\ forall i, 0 <= i -> i < offset \/ offset + length <= i ->
          byteAt b' i = byteAt b i)
  /\ (blen src <> length ->
      exists message,
        encode (Blob length property) (VBytes src) b offset
        = Err (TypeError message))
  /\ (blen src = length -> blen b < offset + length ->
      exists message,
        encode (Blob length property) (VBytes src) b offset
        = Err (RangeError message))
  /\ (exists bytes,
        decode (Blob length property) b offset = Ok (VBytes bytes)
        /\ blen bytes <= length
        /\ (offset + length <= blen b -> blen bytes = length)).
Proof.
  intros Hlength Ho. split; [|split; [|split]].
  - intros Hsrc Hfit. unfold blen in *.
    assert (Hfits : (Z.to_nat offset + List.length src <= List.length b)%nat) by lia.
    eexists. split; [|split; [|split]].
    + cbn [encode Blob]. unfold blen.
      destruct (Z.eqb_spec length (Z.of_nat (List.length src))); [|lia]. cbn [negb].
      destruct (Z.ltb_spec (Z.of_nat (List.length b)) (offset + length)); [lia|].
      reflexivity.
    + replace (Z.to_nat (offset + length)) with (Z.to_nat offset + List.length src)%nat
        by lia.
      rewrite splice_length by assumption. reflexivity.
    + cbn [decode Blob]. unfold slice.
      replace (Z.to_nat (offset + length)) with (Z.to_nat offset + List.length src)%nat
        by lia.
      replace (Z.to_nat (offset + length - offset)) with (List.length src) by lia.
      rewrite splice_read by assumption. reflexivity.
    + intros i Hi Hout. unfold byteAt.
      replace (Z.to_nat (offset + length)) with (Z.to_nat offset + List.length src)%nat
        by lia.
      apply splice_outside; [assumption|lia].
  - intros Hsrc. eexists. cbn [encode Blob].
    destruct (Z.eqb_spec length (blen src)); [congruence|reflexivity].
  - intros Hsrc Hover. eexists. cbn [encode Blob].
    destruct (Z.eqb_spec length (blen src)); [|congruence]. cbn [negb].
    destruct (Z.ltb_spec (blen b) (offset + length)); [reflexivity|lia].
  - eexists. split; [reflexivity|]. unfold slice, blen.
    rewrite length_firstn, length_skipn. split; [lia|]. intros. lia.
Qed.

(** X12: an unsigned-integer layout of 1 to 6 bytes encodes a value below
    [2 ^ (8 * width)] that is not negative into a buffer that holds the
    width from the offset: the buffer keeps its length and its bytes outside
    the field, the count returned is the width, and decoding at the offset
    gives the value back. *)
Theorem UInt_round_trip (width : Z) (property : option string)
    (value : Z) (b : Buffer) (offset : Z) :
  1 <= width <= 6 -> 0 <= value < 2 ^ (8 * width) ->
  0 <= offset -> offset + width <= blen b ->
  exists b',
    encode (UInt_object width property) (VNum value) b offset = Ok (b', width)
    /\ blen b' = blen b
    /\ decode (UInt_object width property) b' offset = Ok (VNum value)
    /\ forall i, 0 <= i -> i < offset \/ offset + width <= i ->
         byteAt b' i = byteAt b i.
Proof.
  intros Hw Hv Ho Hfit. unfold blen in *.
  set (bs := le_bytes (Z.to_nat width) value).
  assert (Hlen : List.length bs = Z.to_nat width) by apply le_bytes_length.
  assert (Hfits : (Z.to_nat offset + List.length bs <= List.length b)%nat) by lia.
  assert (Hb' : List.length (firstn (Z.to_nat offset) b ++ bs
                               ++ skipn (Z.to_nat (offset + width)) b)
                = List.length b).
  { replace (Z.to_nat (offset + width)) with (Z.to_nat offset + List.length bs)%nat by lia.
    apply splice_length. assumption. }
  eexists. split; [|split; [|split]].
  - cbn [encode UInt_object]. rewrite writeUIntLE_in_range by (unfold blen; lia).
    reflexivity.
  - fold bs. rewrite Hb'. reflexivity.
  - cbn [decode UInt_object]. fold bs.
    rewrite readUIntLE_in_range by (unfold blen; rewrite ?Hb'; lia).
    cbn [bind]. do 2 f_equal. unfold slice.
    replace (Z.to_nat (offset + width)) with (Z.to_nat offset + List.length bs)%nat by lia.
    replace (Z.to_nat (offset + width - offset)) with (List.length bs) by lia.
    rewrite splice_read by assumption.
    unfold bs. rewrite le_value_le_bytes.
    rewrite Z2Nat.id by lia. change 256 with (2 ^ 8).
    rewrite <- Z.pow_mul_r by lia.
    apply Z.mod_small. assumption.
  - intros i Hi Hout. unfold byteAt. fold bs.
    replace (Z.to_nat (offset + width)) with (Z.to_nat offset + List.length bs)%nat by lia.
    apply splice_outside; [assumption|lia].
Qed.

(** ** Fields that append to a zero-filled buffer *)

Lemma skipn_repeat_zero (k m : nat) : skipn k (repeat 0 m) = repeat 0 (m - k).
Proof.
  revert m. induction k as [|k IH]; intros m.
  - rewrite Nat.sub_0_r. reflexivity.
  - destruct m as [|m]; [reflexivity|]. cbn. apply IH.
Qed.

Lemma splice_append (pre bs : list Z) (m : nat) :
  firstn (List.length pre) (pre ++ repeat 0 m)
    ++ bs ++ skipn (List.length pre + List.length bs) (pre ++ repeat 0 m)
  = (pre ++ bs) ++ repeat 0 (m - List.length bs).
Proof.
  rewrite firstn_app, Nat.sub_diag, firstn_all. cbn [firstn]. rewrite app_nil_r.
  rewrite skipn_app, skipn_all2 by lia. cbn [app].
  replace (List.length pre + List.length bs - List.length pre)%nat
    with (List.length bs) by lia.
  rewrite skipn_repeat_zero, app_assoc. reflexivity.
Qed.

Lemma UInt_writes (width : Z) (property : option string) (value : Z) :
  0 <= width -> 0 <= value < 2 ^ (8 * width) ->
  writes (UInt_object width property) (VNum value) (le_bytes (Z.to_nat width) value).
Proof.
  intros Hw Hv pre m Hm. rewrite le_bytes_length in Hm.
  cbn [encode UInt_object].
  rewrite writeUIntLE_in_range;
    [|assumption|unfold blen; lia|unfold blen; rewrite length_app, repeat_length; lia].
  cbn [bind]. unfold blen.
  replace (Z.to_nat (Z.of_nat (List.length pre))) with (List.length pre) by lia.
  replace (Z.to_nat (Z.of_nat (List.length pre) + width))
    with (List.length pre + List.length (le_bytes (Z.to_nat width) value))%nat
    by (rewrite le_bytes_length; lia).
  rewrite splice_append, le_bytes_length. do 2 f_equal. lia.
Qed.

Lemma u64_writes (property : option string) (value : Z) :
  0 <= value < 2 ^ 64 ->
  writes (u64 property) (VBN value) (le_bytes 8 value).
Proof.
  intros Hv pre m Hm. rewrite le_bytes_length in Hm.
  cbn [encode u64].
  rewrite writeUIntLE_in_range;
    [|assumption|unfold blen; lia|unfold blen; rewrite length_app, repeat_length; lia].
  cbn [bind]. unfold blen.
  replace (Z.to_nat (Z.of_nat (List.length pre))) with (List.length pre) by lia.
  replace (Z.to_nat (Z.of_nat (List.length pre) + 8))
    with (List.length pre + List.length (le_bytes 8 value))%nat
    by (rewrite le_bytes_length; lia).
  rewrite splice_append, le_bytes_length. reflexivity.
Qed.

Lemma Blob_writes (length : Z) (property : option string) (bs : list Z) :
  blen bs = length -> writes (Blob length property) (VBytes bs) bs.
Proof.
  intros Hlen pre m Hm. cbn [encode Blob].
  destruct (Z.eqb_spec length (blen bs)); [|congruence]. cbn [negb].
  destruct (Z.ltb_spec (blen (pre ++ repeat 0 m)) (blen pre + length)) as [Hover|_].
  { unfold blen in *. rewrite length_app, repeat_length in Hover. lia. }
  unfold blen in *.
  replace (Z.to_nat (Z.of_nat (List.length pre))) with (List.length pre) by lia.
  replace (Z.to_nat (Z.of_nat (List.length pre) + length))
    with (List.length pre + List.length bs)%nat by lia.
  rewrite splice_append. rewrite Hlen. reflexivity.
Qed.

Lemma struct_encode_writes (src : list (string * Value)) (fields : list Layout)
    (bss : list (list Z)) :
  Forall2 (fieldWrites src) fields bss ->
  forall (rest : list Layout) (pre : Buffer) (m : nat),
    (List.length (List.concat bss) <= m)%nat ->
    struct_encode (fields ++ rest) src (pre ++ repeat 0 m) (blen pre)
    = struct_encode rest src
        ((pre ++ List.concat bss) ++ repeat 0 (m - List.length (List.concat bss)))
        (blen (pre ++ List.concat bss)).
Proof.
  induction 1 as [|fd bs fields bss [p [Hp Hfd]] _ IH]; intros rest pre m Hm.
  - cbn. rewrite app_nil_r, Nat.sub_0_r. reflexivity.
  - cbn [List.concat] in *. rewrite length_app in Hm.
    cbn [app struct_encode]. rewrite Hp, Hfd by lia. cbn [bind fst snd].
    replace (blen pre + blen bs) with (blen (pre ++ bs))
      by (unfold blen; rewrite length_app; lia).
    rewrite IH by lia. rewrite <- !app_assoc, length_app.
    do 2 f_equal. f_equal. f_equal. f_equal. lia.
Qed.

Lemma encodeData_writes (index : Z) (fields : list Layout)
    (source : list (string * Value)) (bss : list (list Z)) :
  Forall2 (fieldWrites (Object_assign [("instruction", VNum index)] source)) fields bss ->
  struct_span fields = blen (List.concat bss) ->
  encodeData (InstructionType.mk index (struct fields None)) source
  = Ok (List.concat bss).
Proof.
  intros Hfields Hspan. unfold encodeData.
  cbn [InstructionType.layout InstructionType.index struct Structure span encode].
  rewrite Hspan.
  destruct (Z.ltb_spec (blen (List.concat bss)) 0) as [Hneg|_]; [unfold blen in Hneg; lia|].
  unfold blen at 1. rewrite Nat2Z.id.
  pose proof (struct_encode_writes _ _ _ Hfields [] []
                (List.length (List.concat bss)) (Nat.le_refl _)) as Hw.
  rewrite app_nil_r in Hw. cbn [app] in Hw.
  change (blen []) with 0 in Hw. rewrite Hw.
  cbn [struct_encode bind fst snd]. rewrite Nat.sub_diag. cbn [repeat].
  rewrite app_nil_r, Z.sub_0_r. unfold blen. rewrite Nat2Z.id, firstn_all.
  reflexivity.
Qed.

Lemma encodeData_fails (index : Z) (fields : list Layout) (fd : Layout)
    (rest : list Layout) (source : list (string * Value)) (bss : list (list Z))
    (p : string) (e : Error) :
  let src := Object_assign [("instruction", VNum index)] source in
  let allocLength := struct_span (fields ++ fd :: rest) in
  Forall2 (fieldWrites src) fields bss ->
  property fd = Some p ->
  (forall b offset, encode fd (getProperty src p) b offset = Err e) ->
  (List.length (List.concat bss)
   <= Z.to_nat (if (allocLength <? 0)%Z then 1024%Z else allocLength))%nat ->
  encodeData (InstructionType.mk index (struct (fields ++ fd :: rest) None)) source
  = Err e.
Proof.
  intros src allocLength Hfields Hp Hfd Hfit. unfold encodeData.
  cbn [InstructionType.layout InstructionType.index struct Structure span encode].
  fold src. fold allocLength.
  pose proof (struct_encode_writes _ _ _ Hfields (fd :: rest) [] _ Hfit) as Hw.
  cbn [app] in Hw. change (blen []) with 0 in Hw. rewrite Hw.
  cbn [struct_encode]. rewrite Hp, Hfd. reflexivity.
Qed.

(** ** Token metadata *)

Lemma le_bytes_one (v : Z) : 0 <= v < 256 -> le_bytes (Z.to_nat 1) v = [v].
Proof.
  intros H. change (le_bytes (Z.to_nat 1) v) with [v mod 256].
  rewrite Z.mod_small by lia. reflexivity.
Qed.

Lemma blob_accepts (length : Z) (property : option string) :
  0 <= length -> blob length property = Ok (Blob length property).
Proof.
  intros H. unfold blob. destruct (Z.ltb_spec length 0); [lia|reflexivity].
Qed.

Lemma tokenMetadataLayout_returns (instruction nameLength symbolLength uriLength : Z) :
  0 <= nameLength <= 32 -> 0 <= symbolLength <= 10 -> 0 <= uriLength <= 200 ->
  tokenMetadataLayout instruction nameLength symbolLength uriLength
  = Returned
      (InstructionType.mk instruction
         (struct [ u8 (Some "instruction");
                   u32 (Some "nameLen");
                   Blob nameLength (Some "name");
                   u32 (Some "symbolLen");
                   Blob symbolLength (Some "symbol");
                   u32 (Some "uriLen");
                   Blob uriLength (Some "uri") ] None)).
Proof.
  intros Hn Hs Hu. unfold tokenMetadataLayout.
  unfold METADATA_MAX_NAME_LENGTH, METADATA_MAX_SYMBOL_LENGTH, METADATA_MAX_URI_LENGTH.
  destruct (Z.ltb_spec 32 nameLength); [lia|].
  destruct (Z.ltb_spec 10 symbolLength); [lia|].
  destruct (Z.ltb_spec 200 uriLength); [lia|].
  rewrite !blob_accepts by lia. reflexivity.
Qed.

Lemma tokenMetadata_span (nameLength symbolLength uriLength : Z) :
  0 <= nameLength -> 0 <= symbolLength -> 0 <= uriLength ->
  struct_span [ u8 (Some "instruction");
                u32 (Some "nameLen");
                Blob nameLength (Some "name");
                u32 (Some "symbolLen");
                Blob symbolLength (Some "symbol");
                u32 (Some "uriLen");
                Blob uriLength (Some "uri") ]
  = 13 + nameLength + symbolLength + uriLength.
Proof.
  intros Hn Hs Hu. unfold struct_span.
  cbn [forallb fold_right span u8 u32 UInt_object Blob].
  destruct (Z.leb_spec 0 nameLength); [|lia].
  destruct (Z.leb_spec 0 symbolLength); [|lia].
  destruct (Z.leb_spec 0 uriLength); [|lia].
  cbn [andb Z.leb Z.compare]. lia.
Qed.

(** X13: [tokenMetadataLayout] returns a layout exactly when the name length
    is between 0 and 32, the symbol length between 0 and 10 and the uri
    length between 0 and 200; the layout then carries the instruction index
    and spans 13 bytes plus the three lengths. A name over 32 is refused
    first, then a symbol over 10, then a uri over 200, each with its own
    message; a negative length that passes these tests is a type error of
    the blob. *)
Theorem tokenMetadataLayout_bounds (instruction nameLength symbolLength uriLength : Z) :
  ((exists type,
      tokenMetadataLayout instruction nameLength symbolLength uriLength = Returned type)
   <-> 0 <= nameLength <= 32 /\ 0 <= symbolLength <= 10 /\ 0 <= uriLength <= 200)
  /\ (forall type,
        tokenMetadataLayout instruction nameLength symbolLength uriLength = Returned type ->
        InstructionType.index type = instruction
        /\ span (InstructionType.layout type)
           = 13 + nameLength + symbolLength + uriLength)
  /\ (32 < nameLength ->
      tokenMetadataLayout instruction nameLength symbolLength uriLength
      = Threw (ErrorMessage "maximum token name length is 32 characters"))
  /\ (nameLength <= 32 -> 10 < symbolLength ->
      tokenMetadataLayout instruction nameLength symbolLength uriLength
      = Threw (ErrorMessage "maximum token symbol length is 10 characters"))
  /\ (nameLength <= 32 -> symbolLength <= 10 -> 200 < uriLength ->
      tokenMetadataLayout instruction nameLength symbolLength uriLength
      = Threw (ErrorMessage "maximum token uri length is 200 characters"))
  /\ (nameLength <= 32 -> symbolLength <= 10 -> uriLength <= 200 ->
      nameLength < 0 \/ symbolLength < 0 \/ uriLength < 0 ->
      exists message,
        tokenMetadataLayout instruction nameLength symbolLength uriLength
        = Threw (LayoutError (TypeError message))).
Proof.
  assert (Hcases :
    forall type,
      tokenMetadataLayout instruction nameLength symbolLength uriLength = Returned type ->
      0 <= nameLength <= 32 /\ 0 <= symbolLength <= 10 /\ 0 <= uriLength <= 200).
  { intros type. unfold tokenMetadataLayout, blob.
    unfold METADATA_MAX_NAME_LENGTH, METADATA_MAX_SYMBOL_LENGTH, METADATA_MAX_URI_LENGTH.
    destruct (Z.ltb_spec 32 nameLength); [discriminate|].
    destruct (Z.ltb_spec 10 symbolLength); [discriminate|].
    destruct (Z.ltb_spec 200 uriLength); [discriminate|].
    destruct (Z.ltb_spec nameLength 0); [discriminate|].
    destruct (Z.ltb_spec symbolLength 0); [discriminate|].
    destruct (Z.ltb_spec uriLength 0); [discriminate|].
    intros _. lia. }
  split; [|split; [|split; [|split; [|split]]]].
  - split.
    + intros [type Htype]. exact (Hcases type Htype).
    + intros [Hn [Hs Hu]]. eexists. apply tokenMetadataLayout_returns; assumption.
  - intros type Htype. destruct (Hcases type Htype) as [Hn [Hs Hu]].
    rewrite tokenMetadataLayout_returns in Htype by assumption.
    injection Htype as <-. split; [reflexivity|].
    cbn [InstructionType.layout struct Structure span].
    apply tokenMetadata_span; lia.
  - intros Hn. unfold tokenMetadataLayout, METADATA_MAX_NAME_LENGTH.
    destruct (Z.ltb_spec 32 nameLength); [reflexivity|lia].
  - intros Hn Hs. unfold tokenMetadataLayout.
    unfold METADATA_MAX_NAME_LENGTH, METADATA_MAX_SYMBOL_LENGTH.
    destruct (Z.ltb_spec 32 nameLength); [lia|].
    destruct (Z.ltb_spec 10 symbolLength); [reflexivity|lia].
  - intros Hn Hs Hu. unfold tokenMetadataLayout.
    unfold METADATA_MAX_NAME_LENGTH, METADATA_MAX_SYMBOL_LENGTH, METADATA_MAX_URI_LENGTH.
    destruct (Z.ltb_spec 32 nameLength); [lia|].
    destruct (Z.ltb_spec 10 symbolLength); [lia|].
    destruct (Z.ltb_spec 200 uriLength); [reflexivity|lia].
  - intros Hn Hs Hu Hneg. unfold tokenMetadataLayout, blob.
    unfold METADATA_MAX_NAME_LENGTH, METADATA_MAX_SYMBOL_LENGTH, METADATA_MAX_URI_LENGTH.
    destruct (Z.ltb_spec 32 nameLength); [lia|].
    destruct (Z.ltb_spec 10 symbolLength); [lia|].
    destruct (Z.ltb_spec 200 uriLength); [lia|].
    destruct (Z.ltb_spec nameLength 0); [eexists; reflexivity|].
    destruct (Z.ltb_spec symbolLength 0); [eexists; reflexivity|].
    destruct (Z.ltb_spec uriLength 0); [eexists; reflexivity|lia].
Qed.

Section TokenMetadataData.

Variable web3_js : Web3.
Variable JSString : Type.
Variable String_length : JSString -> Z.
Variable Buffer_from : JSString -> Buffer.
Variables (name symbol uri : JSString).

Let fields : list (string * Value) :=
  [("nameLen", VNum (String_length name));
   ("name", VBytes (Buffer_from name));
   ("symbolLen", VNum (String_length symbol));
   ("symbol", VBytes (Buffer_from symbol));
   ("uriLen", VNum (String_length uri));
   ("uri", VBytes (Buffer_from uri))].

Let metadataFields : list Layout :=
  [ u8 (Some "instruction");
    u32 (Some "nameLen");
    Blob (String_length name) (Some "name");
    u32 (Some "symbolLen");
    Blob (String_length symbol) (Some "symbol");
    u32 (Some "uriLen");
    Blob (String_length uri) (Some "uri") ].

Lemma tokenMetadata_data (index : Z) :
  0 <= index < 256 ->
  String_length name <= 32 -> String_length symbol <= 10 -> String_length uri <= 200 ->
  blen (Buffer_from name) = String_length name ->
  blen (Buffer_from symbol) = String_length symbol ->
  blen (Buffer_from uri) = String_length uri ->
  encodeData (InstructionType.mk index (struct metadataFields None)) fields
  = Ok ([index] ++ le_bytes 4 (String_length name) ++ Buffer_from name
          ++ le_bytes 4 (String_length symbol) ++ Buffer_from symbol
          ++ le_bytes 4 (String_length uri) ++ Buffer_from uri).
Proof.
  intros Hi Hn Hs Hu Bn Bs Bu.
  assert (0 <= String_length name) by (unfold blen in Bn; lia).
  assert (0 <= String_length symbol) by (unfold blen in Bs; lia).
  assert (0 <= String_length uri) by (unfold blen in Bu; lia).
  rewrite (encodeData_writes index metadataFields fields
             [ [index]; le_bytes 4 (String_length name); Buffer_from name;
               le_bytes 4 (String_length symbol); Buffer_from symbol;
               le_bytes 4 (String_length uri); Buffer_from uri ]).
  - cbn [List.concat app]. rewrite app_nil_r. reflexivity.
  - unfold metadataFields, fields.
    repeat apply Forall2_cons; try apply Forall2_nil;
      eexists; (split; [reflexivity|]); cbn.
    + rewrite <- (le_bytes_one index) by lia. apply UInt_writes; cbn; lia.
    + apply (UInt_writes 4); cbn; lia.
    + apply Blob_writes. assumption.
    + apply (UInt_writes 4); cbn; lia.
    + apply Blob_writes. assumption.
    + apply (UInt_writes 4); cbn; lia.
    + apply Blob_writes. assumption.
  - unfold metadataFields. rewrite tokenMetadata_span by assumption.
    cbn [List.concat]. unfold blen in *.
    rewrite !length_app, !le_bytes_length. cbn [List.length]. lia.
Qed.

Lemma tokenMetadata_mismatch (index : Z) :
  0 <= index < 256 ->
  0 <= String_length name <= 32 -> 0 <= String_length symbol <= 10 ->
  0 <= String_length uri <= 200 ->
  blen (Buffer_from name) <> String_length name
  \/ blen (Buffer_from symbol) <> String_length symbol
  \/ blen (Buffer_from uri) <> String_length uri ->
  exists message,
    encodeData (InstructionType.mk index (struct metadataFields None)) fields
    = Err (TypeError message).
Proof.
  intros Hi Hn Hs Hu Hbad. eexists.
  assert (Hone : fieldWrites (Object_assign [("instruction", VNum index)] fields)
                   (u8 (Some "instruction")) [index]).
  { eexists. split; [reflexivity|]. cbn.
    rewrite <- (le_bytes_one index) by lia. apply UInt_writes; cbn; lia. }
  assert (Hlen : forall (p : string) (v : Z), 0 <= v < 2 ^ 32 ->
            getProperty (Object_assign [("instruction", VNum index)] fields) p = VNum v ->
            fieldWrites (Object_assign [("instruction", VNum index)] fields)
              (u32 (Some p)) (le_bytes 4 v)).
  { intros p v Hv Hp. eexists. split; [reflexivity|]. rewrite Hp.
    apply (UInt_writes 4); [lia|exact Hv]. }
  assert (Hblob : forall (p : string) (bs : list Z),
            getProperty (Object_assign [("instruction", VNum index)] fields) p = VBytes bs ->
            fieldWrites (Object_assign [("instruction", VNum index)] fields)
              (Blob (blen bs) (Some p)) bs).
  { intros p bs Hp. eexists. split; [reflexivity|]. rewrite Hp.
    apply Blob_writes. reflexivity. }
  assert (Hfail : forall (length : Z) (p : string) (bs : list Z),
            getProperty (Object_assign [("instruction", VNum index)] fields) p = VBytes bs ->
            blen bs <> length ->
            forall b offset,
              encode (Blob length (Some p))
                (getProperty (Object_assign [("instruction", VNum index)] fields) p)
                b offset
              = Err (TypeError "Blob.encode requires (length) Buffer as src")).
  { intros length p bs Hp Hne b offset. rewrite Hp. cbn [encode Blob].
    destruct (Z.eqb_spec length (blen bs)); [congruence|reflexivity]. }
  destruct (Z.eq_dec (blen (Buffer_from name)) (String_length name)) as [Bn|Bn].
  - destruct (Z.eq_dec (blen (Buffer_from symbol)) (String_length symbol)) as [Bs|Bs].
    + assert (Bu : blen (Buffer_from uri) <> String_length uri) by tauto.
      unfold metadataFields. rewrite <- Bn, <- Bs.
      apply (encodeData_fails index
               [ u8 (Some "instruction"); u32 (Some "nameLen");
                 Blob (blen (Buffer_from name)) (Some "name"); u32 (Some "symbolLen");
                 Blob (blen (Buffer_from symbol)) (Some "symbol"); u32 (Some "uriLen") ]
               (Blob (String_length uri) (Some "uri")) [] fields
               [ [index]; le_bytes 4 (String_length name); Buffer_from name;
                 le_bytes 4 (String_length symbol); Buffer_from symbol;
                 le_bytes 4 (String_length uri) ] "uri").
      * repeat apply Forall2_cons; try apply Forall2_nil;
          [exact Hone|apply Hlen|apply Hblob|apply Hlen|apply Hblob|apply Hlen];
          try reflexivity; cbn; lia.
      * reflexivity.
      * apply (Hfail _ _ (Buffer_from uri)); [reflexivity|assumption].
      * cbn [app]. rewrite Bn, Bs, tokenMetadata_span by lia.
        destruct (Z.ltb_spec (13 + String_length name + String_length symbol
                              + String_length uri) 0); [lia|].
        cbn [List.concat]. unfold blen in *.
        rewrite !length_app, !le_bytes_length. cbn [List.length]. lia.
    + unfold metadataFields. rewrite <- Bn.
      apply (encodeData_fails index
               [ u8 (Some "instruction"); u32 (Some "nameLen");
                 Blob (blen (Buffer_from name)) (Some "name"); u32 (Some "symbolLen") ]
               (Blob (String_length symbol) (Some "symbol"))
               [ u32 (Some "uriLen"); Blob (String_length uri) (Some "uri") ] fields
               [ [index]; le_bytes 4 (String_length name); Buffer_from name;
                 le_bytes 4 (String_length symbol) ] "symbol").
      * repeat apply Forall2_cons; try apply Forall2_nil;
          [exact Hone|apply Hlen|apply Hblob|apply Hlen];
          try reflexivity; cbn; lia.
      * reflexivity.
      * apply (Hfail _ _ (Buffer_from symbol)); [reflexivity|assumption].
      * cbn [app]. rewrite Bn, tokenMetadata_span by lia.
        destruct (Z.ltb_spec (13 + String_length name + String_length symbol
                              + String_length uri) 0); [lia|].
        cbn [List.concat]. unfold blen in *.
        rewrite !length_app, !le_bytes_length. cbn [List.length]. lia.
  - unfold metadataFields.
    apply (encodeData_fails index
             [ u8 (Some "instruction"); u32 (Some "nameLen") ]
             (Blob (String_length name) (Some "name"))
             [ u32 (Some "symbolLen"); Blob (String_length symbol) (Some "symbol");
               u32 (Some "uriLen"); Blob (String_length uri) (Some "uri") ] fields
             [ [index]; le_bytes 4 (String_length name) ] "name").
    + repeat apply Forall2_cons; try apply Forall2_nil;
        [exact Hone|apply Hlen]; try reflexivity; cbn; lia.
    + reflexivity.
    + apply (Hfail _ _ (Buffer_from name)); [reflexivity|assumption].
    + cbn [app]. rewrite tokenMetadata_span by lia.
      destruct (Z.ltb_spec (13 + String_length name + String_length symbol
                            + String_length uri) 0); [lia|].
      cbn [List.concat List.length app]. rewrite !length_app, !le_bytes_length.
      cbn [List.length]. lia.
Qed.

(** X14: for a name of at most 32 code units, a symbol of at most 10 and a
    uri of at most 200, [createTokenMetadata] and [updateTokenMetadata]
    return an instruction of the stake pool program when each string has as
    many bytes as code units; its data is the byte 17, respectively 18, then
    for name, symbol and uri in turn the little-endian 32-bit length and the
    bytes. When one of the strings has a number of bytes that differs from
    its number of code units, both throw the type error of the blob. *)
Theorem token_metadata_instruction_data
    (stakePool withdrawAuthority tokenMetadata manager payer poolMint : PublicKey) :
  String_length name <= 32 -> String_length symbol <= 10 -> String_length uri <= 200 ->
  let data (index : Z) :=
    [index] ++ le_bytes 4 (String_length name) ++ Buffer_from name
      ++ le_bytes 4 (String_length symbol) ++ Buffer_from symbol
      ++ le_bytes 4 (String_length uri) ++ Buffer_from uri in
  let create :=
    StakePoolInstruction.createTokenMetadata web3_js JSString String_length Buffer_from
      stakePool withdrawAuthority tokenMetadata manager payer poolMint name symbol uri in
  let update :=
    StakePoolInstruction.updateTokenMetadata JSString String_length Buffer_from
      stakePool withdrawAuthority tokenMetadata manager name symbol uri in
  (blen (Buffer_from name) = String_length name ->
   blen (Buffer_from symbol) = String_length symbol ->
   blen (Buffer_from uri) = String_length uri ->
   (exists keys,
      create = Returned (TransactionInstruction.mk STAKE_POOL_PROGRAM_ID keys (data 17))
      /\ List.length keys = 9%nat)
   /\ (exists keys,
         update = Returned (TransactionInstruction.mk STAKE_POOL_PROGRAM_ID keys (data 18))
         /\ List.length keys = 5%nat))
  /\ (0 <= String_length name -> 0 <= String_length symbol -> 0 <= String_length uri ->
      blen (Buffer_from name) <> String_length name
      \/ blen (Buffer_from symbol) <> String_length symbol
      \/ blen (Buffer_from uri) <> String_length uri ->
      (exists message, create = Threw (LayoutError (TypeError message)))
      /\ (exists message, update = Threw (LayoutError (TypeError message)))).
Proof.
  intros Hn Hs Hu data create update. split.
  - intros Bn Bs Bu.
    assert (0 <= String_length name) by (unfold blen in Bn; lia).
    assert (0 <= String_length symbol) by (unfold blen in Bs; lia).
    assert (0 <= String_length uri) by (unfold blen in Bu; lia).
    split; eexists.
    + unfold create, StakePoolInstruction.createTokenMetadata.
      rewrite tokenMetadataLayout_returns by lia.
      fold fields. fold metadataFields.
      rewrite tokenMetadata_data by (assumption || lia).
      split; reflexivity.
    + unfold update, StakePoolInstruction.updateTokenMetadata.
      rewrite tokenMetadataLayout_returns by lia.
      fold fields. fold metadataFields.
      rewrite tokenMetadata_data by (assumption || lia).
      split; reflexivity.
  - intros Pn Ps Pu Hbad. split.
    + destruct (tokenMetadata_mismatch 17) as [message Hm]; try lia; try assumption.
      exists message. unfold create, StakePoolInstruction.createTokenMetadata.
      rewrite tokenMetadataLayout_returns by lia.
      fold fields. fold metadataFields. rewrite Hm. reflexivity.
    + destruct (tokenMetadata_mismatch 18) as [message Hm]; try lia; try assumption.
      exists message. unfold update, StakePoolInstruction.updateTokenMetadata.
      rewrite tokenMetadataLayout_returns by lia.
      fold fields. fold metadataFields. rewrite Hm. reflexivity.
Qed.

End TokenMetadataData.

(** ** Moving stake *)

Lemma encodeData_move_stake (index lamports transientStakeSeed : Z) :
  0 <= index < 256 -> 0 <= lamports < 2 ^ 64 -> 0 <= transientStakeSeed < 2 ^ 64 ->
  encodeData (InstructionType.mk index MOVE_STAKE_LAYOUT)
    [("lamports", VBN lamports); ("transientStakeSeed", VBN transientStakeSeed)]
  = Ok ([index] ++ le_bytes 8 lamports ++ le_bytes 8 transientStakeSeed).
Proof.
  intros Hi Hl Hs. unfold MOVE_STAKE_LAYOUT.
  rewrite (encodeData_writes index _ _
             [ [index]; le_bytes 8 lamports; le_bytes 8 transientStakeSeed ]).
  - cbn [List.concat app]. rewrite app_nil_r. reflexivity.
  - repeat apply Forall2_cons; try apply Forall2_nil;
      eexists; (split; [reflexivity|]); cbn.
    + rewrite <- (le_bytes_one index) by lia. apply UInt_writes; cbn; lia.
    + apply u64_writes. assumption.
    + apply u64_writes. assumption.
  - reflexivity.
Qed.

Lemma encodeData_additional_stake (index lamports transientStakeSeed ephemeralStakeSeed : Z) :
  0 <= index < 256 -> 0 <= lamports < 2 ^ 64 -> 0 <= transientStakeSeed < 2 ^ 64 ->
  0 <= ephemeralStakeSeed < 2 ^ 64 ->
  encodeData
    (InstructionType.mk index
       (struct [u8 (Some "instruction"); u64 (Some "lamports");
                u64 (Some "transientStakeSeed"); u64 (Some "ephemeralStakeSeed")] None))
    [("lamports", VBN lamports); ("transientStakeSeed", VBN transientStakeSeed);
     ("ephemeralStakeSeed", VBN ephemeralStakeSeed)]
  = Ok ([index] ++ le_bytes 8 lamports ++ le_bytes 8 transientStakeSeed
          ++ le_bytes 8 ephemeralStakeSeed).
Proof.
  intros Hi Hl Hs He.
  rewrite (encodeData_writes index _ _
             [ [index]; le_bytes 8 lamports; le_bytes 8 transientStakeSeed;
               le_bytes 8 ephemeralStakeSeed ]).
  - cbn [List.concat app]. rewrite app_nil_r. reflexivity.
  - repeat apply Forall2_cons; try apply Forall2_nil;
      eexists; (split; [reflexivity|]); cbn.
    + rewrite <- (le_bytes_one index) by lia. apply UInt_writes; cbn; lia.
    + apply u64_writes. assumption.
    + apply u64_writes. assumption.
    + apply u64_writes. assumption.
  - reflexivity.
Qed.

Section StakeMoveProperties.

Variable web3_js : Web3.
Variable BN_new : Z -> outcome BN.t.
Variable BN_toNumber : BN.t -> outcome Z.

(** What the bn.js package does on the integers that a number holds
    exactly. *)
Hypothesis BN_new_safe : forall n, 0 <= n < 2 ^ 53 -> BN_new n = Returned n.
Hypothesis BN_toNumber_safe : forall n, 0 <= n < 2 ^ 53 -> BN_toNumber n = Returned n.

Variables (connection : Connection) (stakePoolAddress : PublicKey) (stakePool : StakePool).
Variables (staker validatorVote : PublicKey) (lamports : Z).

Local Abbreviation derive := (PublicKey_findProgramAddressSync web3_js).
Local Abbreviation withdrawAuthority :=
  (findWithdrawAuthorityProgramAddress web3_js STAKE_POOL_PROGRAM_ID stakePoolAddress).

Lemma findValidator_none :
  Forall (fun v => voteAccountAddress v <> validatorVote) (validators connection) ->
  findValidator connection validatorVote = None.
Proof.
  unfold findValidator. induction 1 as [|v rest Hv _ IH]; [reflexivity|].
  cbn [find]. destruct (PublicKey_equals (voteAccountAddress v) validatorVote) eqn:E.
  - apply PublicKey_equals_iff in E. contradiction.
  - exact IH.
Qed.

Lemma findValidator_first (before after : list ValidatorStakeInfo)
    (validatorInfo : ValidatorStakeInfo) :
  validators connection = before ++ validatorInfo :: after ->
  Forall (fun v => voteAccountAddress v <> validatorVote) before ->
  voteAccountAddress validatorInfo = validatorVote ->
  findValidator connection validatorVote = Some validatorInfo.
Proof.
  unfold findValidator. intros -> Hbefore Hvote.
  induction Hbefore as [|v rest Hv _ IH]; cbn [app find].
  - destruct (PublicKey_equals (voteAccountAddress validatorInfo) validatorVote) eqn:E;
      [reflexivity|].
    apply PublicKey_equals_iff in Hvote. congruence.
  - destruct (PublicKey_equals (voteAccountAddress v) validatorVote) eqn:E.
    + apply PublicKey_equals_iff in E. contradiction.
    + exact IH.
Qed.

Lemma increaseValidatorStake_cases (validatorInfo : ValidatorStakeInfo) :
  findValidator connection validatorVote = Some validatorInfo ->
  0 <= lamports < 2 ^ 53 ->
  0 <= transientSeedSuffixStart validatorInfo < 2 ^ 53 - 1 ->
  (forall seed, 0 <= seed < 2 ^ 53 ->
     increaseValidatorStake web3_js BN_new BN_toNumber connection stakePoolAddress
       stakePool staker validatorVote lamports (Some seed)
     = Returned [])
  /\ increaseValidatorStake web3_js BN_new BN_toNumber connection stakePoolAddress
       stakePool staker validatorVote lamports None
     = Returned
         [ TransactionInstruction.mk STAKE_POOL_PROGRAM_ID
             [ key stakePoolAddress false false;
               key staker true false;
               key withdrawAuthority false false;
               key (validatorList stakePool) false true;
               key (reserveStake stakePool) false true;
               key (findTransientStakeProgramAddress derive STAKE_POOL_PROGRAM_ID
                      (voteAccountAddress validatorInfo) stakePoolAddress
                      (transientSeedSuffixStart validatorInfo + 1)) false true;
               key (findStakeProgramAddress derive STAKE_POOL_PROGRAM_ID
                      (voteAccountAddress validatorInfo) stakePoolAddress) false false;
               key validatorVote false false;
               key (SYSVAR_CLOCK_PUBKEY web3_js) false false;
               key (SYSVAR_RENT_PUBKEY web3_js) false false;
               key (SYSVAR_STAKE_HISTORY_PUBKEY web3_js) false false;
               key (STAKE_CONFIG_ID web3_js) false false;
               key (SystemProgram_programId web3_js) false false;
               key (StakeProgram_programId web3_js) false false ]
             ([4] ++ le_bytes 8 lamports
                  ++ le_bytes 8 (transientSeedSuffixStart validatorInfo + 1)) ].
Proof.
  intros Hfind Hl Hstart. split.
  - intros seed Hseed. unfold increaseValidatorStake. rewrite Hfind.
    rewrite (BN_new_safe seed) by assumption. cbn [obind].
    rewrite BN_toNumber_safe by lia. cbn [obind].
    unfold StakePoolInstruction.increaseAdditionalValidatorStake.
    rewrite !BN_new_safe by lia. cbn [obind].
    unfold STAKE_POOL_INSTRUCTION_LAYOUTS.IncreaseAdditionalValidatorStake.
    rewrite encodeData_additional_stake by lia. reflexivity.
  - unfold increaseValidatorStake. rewrite Hfind.
    rewrite BN_toNumber_safe by lia. cbn [obind].
    unfold StakePoolInstruction.increaseValidatorStake.
    rewrite !BN_new_safe by lia. cbn [obind].
    unfold STAKE_POOL_INSTRUCTION_LAYOUTS.IncreaseValidatorStake.
    rewrite encodeData_move_stake by lia. reflexivity.
Qed.

(** X15: [increaseValidatorStake] throws when no validator of the list has
    the vote address. Otherwise it takes the first validator that has it;
    for amounts and seeds that a number holds exactly, with an ephemeral
    seed it returns no instruction at all, and without one it returns the
    single [IncreaseValidatorStake] instruction whose data is the byte 4,
    the lamports and the validator's transient seed suffix plus one, both
    64-bit little-endian, and whose transient stake account is derived from
    that bumped seed. *)
Theorem increaseValidatorStake_outcomes :
  (Forall (fun v => voteAccountAddress v <> validatorVote) (validators connection) ->
   forall ephemeralStakeSeed,
     increaseValidatorStake web3_js BN_new BN_toNumber connection stakePoolAddress
       stakePool staker validatorVote lamports ephemeralStakeSeed
     = Threw (ErrorMessage "Vote account not found in validator list"))
  /\ (forall before validatorInfo after,
        validators connection = before ++ validatorInfo :: after ->
        Forall (fun v => voteAccountAddress v <> validatorVote) before ->
        voteAccountAddress validatorInfo = validatorVote ->
        0 <= lamports < 2 ^ 53 ->
        0 <= transientSeedSuffixStart validatorInfo < 2 ^ 53 - 1 ->
        (forall seed, 0 <= seed < 2 ^ 53 ->
           increaseValidatorStake web3_js BN_new BN_toNumber connection stakePoolAddress
             stakePool staker validatorVote lamports (Some seed)
           = Returned [])
        /\ increaseValidatorStake web3_js BN_new BN_toNumber connection stakePoolAddress
             stakePool staker validatorVote lamports None
           = Returned
               [ TransactionInstruction.mk STAKE_POOL_PROGRAM_ID
                   [ key stakePoolAddress false false;
                     key staker true false;
                     key withdrawAuthority false false;
                     key (validatorList stakePool) false true;
                     key (reserveStake stakePool) false true;
                     key (findTransientStakeProgramAddress derive STAKE_POOL_PROGRAM_ID
                            validatorVote stakePoolAddress
                            (transientSeedSuffixStart validatorInfo + 1)) false true;
                     key (findStakeProgramAddress derive STAKE_POOL_PROGRAM_ID
                            validatorVote stakePoolAddress) false false;
                     key validatorVote false false;
                     key (SYSVAR_CLOCK_PUBKEY web3_js) false false;
                     key (SYSVAR_RENT_PUBKEY web3_js) false false;
                     key (SYSVAR_STAKE_HISTORY_PUBKEY web3_js) false false;
                     key (STAKE_CONFIG_ID web3_js) false false;
                     key (SystemProgram_programId web3_js) false false;
                     key (StakeProgram_programId web3_js) false false ]
                   ([4] ++ le_bytes 8 lamports
                        ++ le_bytes 8 (transientSeedSuffixStart validatorInfo + 1)) ]).
Proof.
  split.
  - intros Hnone seed. unfold increaseValidatorStake.
    rewrite findValidator_none by assumption. reflexivity.
  - intros before validatorInfo after Hlist Hbefore Hvote Hl Hstart.
    pose proof (findValidator_first before after validatorInfo Hlist Hbefore Hvote)
      as Hfind.
    destruct (increaseValidatorStake_cases validatorInfo Hfind Hl Hstart) as [Hseed Hnone].
    rewrite Hvote in Hnone. exact (conj Hseed Hnone).
Qed.

(** X16: [decreaseValidatorStake] throws when no validator of the list has
    the vote address. Otherwise, for amounts and seeds that a number holds
    exactly, it returns exactly one instruction for the first validator
    that has it: without an ephemeral seed the [DecreaseValidatorStake]
    instruction with data 3, lamports and the transient seed suffix plus
    one; with an ephemeral seed the [DecreaseAdditionalValidatorStake]
    instruction with data 20, lamports, the transient seed suffix as it is
    and the ephemeral seed. *)
Theorem decreaseValidatorStake_outcomes :
  (Forall (fun v => voteAccountAddress v <> validatorVote) (validators connection) ->
   forall ephemeralStakeSeed,
     decreaseValidatorStake web3_js BN_new BN_toNumber connection stakePoolAddress
       stakePool staker validatorVote lamports ephemeralStakeSeed
     = Threw (ErrorMessage "Vote account not found in validator list"))
  /\ (forall before validatorInfo after,
        validators connection = before ++ validatorInfo :: after ->
        Forall (fun v => voteAccountAddress v <> validatorVote) before ->
        voteAccountAddress validatorInfo = validatorVote ->
        0 <= lamports < 2 ^ 53 ->
        0 <= transientSeedSuffixStart validatorInfo < 2 ^ 53 - 1 ->
        let start := transientSeedSuffixStart validatorInfo in
        let validatorStake :=
          findStakeProgramAddress derive STAKE_POOL_PROGRAM_ID validatorVote
            stakePoolAddress in
        let transientStake seed :=
          findTransientStakeProgramAddress derive STAKE_POOL_PROGRAM_ID validatorVote
            stakePoolAddress seed in
        decreaseValidatorStake web3_js BN_new BN_toNumber connection stakePoolAddress
          stakePool staker validatorVote lamports None
        = Returned
            [ TransactionInstruction.mk STAKE_POOL_PROGRAM_ID
                [ key stakePoolAddress false false;
                  key staker true false;
                  key withdrawAuthority false false;
                  key (validatorList stakePool) false true;
                  key validatorStake false true;
                  key (transientStake (start + 1)) false true;
                  key (SYSVAR_CLOCK_PUBKEY web3_js) false false;
                  key (SYSVAR_RENT_PUBKEY web3_js) false false;
                  key (SystemProgram_programId web3_js) false false;
                  key (StakeProgram_programId web3_js) false false ]
                ([3] ++ le_bytes 8 lamports ++ le_bytes 8 (start + 1)) ]
        /\ (forall seed, 0 <= seed < 2 ^ 53 ->
              decreaseValidatorStake web3_js BN_new BN_toNumber connection
                stakePoolAddress stakePool staker validatorVote lamports (Some seed)
              = Returned
                  [ TransactionInstruction.mk STAKE_POOL_PROGRAM_ID
                      [ key stakePoolAddress false false;
                        key staker true false;
                        key withdrawAuthority false false;
                        key (validatorList stakePool) false true;
                        key validatorStake false true;
                        key (findEphemeralStakeProgramAddress web3_js
                               STAKE_POOL_PROGRAM_ID stakePoolAddress seed) false true;
                        key (transientStake start) false true;
                        key (SYSVAR_CLOCK_PUBKEY web3_js) false false;
                        key (SYSVAR_STAKE_HISTORY_PUBKEY web3_js) false false;
                        key (SystemProgram_programId web3_js) false false;
                        key (StakeProgram_programId web3_js) false false ]
                      ([20] ++ le_bytes 8 lamports ++ le_bytes 8 start
                            ++ le_bytes 8 seed) ])).
Proof.
  split.
  - intros Hnone seed. unfold decreaseValidatorStake.
    rewrite findValidator_none by assumption. reflexivity.
  - intros before validatorInfo after Hlist Hbefore Hvote Hl Hstart.
    pose proof (findValidator_first before after validatorInfo Hlist Hbefore Hvote)
      as Hfind.
    cbv zeta. split.
    + unfold decreaseValidatorStake. rewrite Hfind.
      rewrite BN_toNumber_safe by lia. cbn [obind].
      unfold StakePoolInstruction.decreaseValidatorStake.
      rewrite !BN_new_safe by lia. cbn [obind].
      unfold STAKE_POOL_INSTRUCTION_LAYOUTS.DecreaseValidatorStake.
      rewrite encodeData_move_stake by lia. rewrite Hvote. reflexivity.
    + intros seed Hseed. unfold decreaseValidatorStake. rewrite Hfind.
      rewrite (BN_new_safe seed) by assumption. cbn [obind].
      rewrite BN_toNumber_safe by lia. cbn [obind].
      unfold StakePoolInstruction.decreaseAdditionalValidatorStake.
      rewrite !BN_new_safe by lia. cbn [obind].
      unfold STAKE_POOL_INSTRUCTION_LAYOUTS.DecreaseAdditionalValidatorStake.
      rewrite encodeData_additional_stake by lia. rewrite Hvote. reflexivity.
Qed.

End StakeMoveProperties.

(** ** The properties on sample data *)

Lemma Services_BN_new_safe (n : Z) :
  0 <= n < 2 ^ 53 -> Services.BN_new n = Returned n.
Proof.
  intros H. unfold Services.BN_new.
  destruct (Z.ltb_spec (Z.abs n) (2 ^ 53)); [reflexivity|lia].
Qed.

Lemma Services_BN_toNumber_safe (n : Z) :
  0 <= n < 2 ^ 53 -> Services.BN_toNumber n = Returned n.
Proof.
  intros H. unfold Services.BN_toNumber.
  destruct (Z.ltb_spec (Z.abs n) (2 ^ 53)); [reflexivity|lia].
Qed.








Lemma arrayChunk_partitions_witness :
  exists chunks,
    arrayChunk 8 [1; 2; 3; 4; 5; 6; 7] 3 = Some chunks
    /\ List.concat chunks = [1; 2; 3; 4; 5; 6; 7].
Proof.
  destruct (arrayChunk_partitions [1; 2; 3; 4; 5; 6; 7] 3 8) as [chunks [H1 [H2 _]]];
    [lia|simpl; lia|].
  exists chunks. split; assumption.
Defined.

Lemma arrayChunk_without_progress_witness :
  arrayChunk 1000 [1] 0 = None.
Proof.
  apply (arrayChunk_without_progress [1] 0); [lia|discriminate].
Defined.

Lemma updateStakePool_covers_the_validators_witness :
  exists updateListInstructions finalInstructions,
    updateStakePool Services.web3_js 4 Sample.connection Sample.poolAddress Sample.pool
      [4] false
    = Some (Ok (updateListInstructions, finalInstructions))
    /\ Z.of_nat (List.length updateListInstructions) = 1.
Proof.
  destruct (updateStakePool_covers_the_validators Services.web3_js Sample.connection
              Sample.poolAddress Sample.pool [4] false 4)
    as [updates [finals [H1 [H2 _]]]]; [simpl; lia|simpl; lia|].
  exists updates, finals. split; [exact H1|exact H2].
Defined.

Lemma Blob_round_trip_witness :
  exists b',
    encode (Blob 2 None) (VBytes [7; 8]) [0; 0; 0; 0] 1 = Ok (b', 2)
    /\ decode (Blob 2 None) b' 1 = Ok (VBytes [7; 8]).
Proof.
  destruct (proj1 (Blob_round_trip 2 None [7; 8] [0; 0; 0; 0] 1 ltac:(lia) ltac:(lia)))
    as [b' [H1 [_ [H2 _]]]]; [reflexivity|unfold blen; simpl; lia|].
  exists b'. split; assumption.
Defined.

Lemma UInt_round_trip_witness :
  exists b',
    encode (UInt_object 2 None) (VNum 513) [0; 0; 0; 0] 1 = Ok (b', 2)
    /\ decode (UInt_object 2 None) b' 1 = Ok (VNum 513).
Proof.
  destruct (UInt_round_trip 2 None 513 [0; 0; 0; 0] 1)
    as [b' [H1 [_ [H2 _]]]]; [lia|simpl; lia|lia|unfold blen; simpl; lia|].
  exists b'. split; assumption.
Defined.

Lemma token_metadata_instruction_data_witness :
  exists keys,
    StakePoolInstruction.createTokenMetadata Services.web3_js (list Z) blen (fun s => s)
      [1] [2] [3] [4] [5] [6] [80; 111; 111; 108] [80] [104; 116; 116; 112]
    = Returned
        (TransactionInstruction.mk STAKE_POOL_PROGRAM_ID keys
           ([17] ++ le_bytes 4 4 ++ [80; 111; 111; 108]
                 ++ le_bytes 4 1 ++ [80]
                 ++ le_bytes 4 4 ++ [104; 116; 116; 112])).
Proof.
  destruct (proj1 (token_metadata_instruction_data Services.web3_js (list Z) blen
                     (fun s => s) [80; 111; 111; 108] [80] [104; 116; 116; 112]
                     [1] [2] [3] [4] [5] [6]
                     ltac:(unfold blen; simpl; lia) ltac:(unfold blen; simpl; lia)
                     ltac:(unfold blen; simpl; lia))
              eq_refl eq_refl eq_refl) as [[keys [H _]] _].
  exists keys. exact H.
Defined.

Lemma increaseValidatorStake_outcomes_witness :
  increaseValidatorStake Services.web3_js Services.BN_new Services.BN_toNumber
    Sample.connection Sample.poolAddress Sample.pool [4] [9] 5 (Some 3)
  = Returned [].
Proof.
  apply (proj2 (increaseValidatorStake_outcomes Services.web3_js Services.BN_new
                  Services.BN_toNumber Services_BN_new_safe Services_BN_toNumber_safe
                  Sample.connection Sample.poolAddress Sample.pool [4] [9] 5)
           [Sample.validator 500 0 8] (Sample.validator 700 1000300 9)
           [Sample.validator 600 0 7]).
  - reflexivity.
  - repeat constructor. discriminate.
  - reflexivity.
  - lia.
  - simpl. lia.
  - lia.
Defined.

Lemma decreaseValidatorStake_outcomes_witness :
  decreaseValidatorStake Services.web3_js Services.BN_new Services.BN_toNumber
    Sample.connection Sample.poolAddress Sample.pool [4] [6] 5 None
  = Threw (ErrorMessage "Vote account not found in validator list").
Proof.
  apply (proj1 (decreaseValidatorStake_outcomes Services.web3_js Services.BN_new
                  Services.BN_toNumber Services_BN_new_safe Services_BN_toNumber_safe
                  Sample.connection Sample.poolAddress Sample.pool [4] [6] 5)).
  repeat constructor; discriminate.
Defined.

(** ** The withdrawal fee and the capacity *)

Section FeeAndCapacity.

Variable findProgramAddressSync : list Buffer -> PublicKey -> PublicKey.
Variables (connection : Connection) (stakePool : StakePool) (stakePoolAddress : PublicKey).

Hypothesis fee_valid :
  0 <= numerator (stakeWithdrawalFee stakePool) <= denominator (stakeWithdrawalFee stakePool).

Lemma availableForWithdrawal_fee_more (lamports : Z) :
  0 <= calcPoolTokensForDeposit stakePool lamports ->
  (availableForWithdrawal stakePool true lamports
   <= availableForWithdrawal stakePool false lamports)%Q.
Proof.
  intros Htokens. unfold availableForWithdrawal. cbn [negb andb].
  unfold inverseFee, BN.isZero, BN.sub, BN.mul. cbn [numerator denominator].
  set (tokens := calcPoolTokensForDeposit stakePool lamports) in *.
  set (den := denominator (stakeWithdrawalFee stakePool)) in *.
  set (num := numerator (stakeWithdrawalFee stakePool)) in *.
  destruct (Z.eqb_spec (den - num) 0) as [|Hnz]; cbn [negb]; [lra|].
  rewrite divideBnToNumber_ratio by nia.
  apply Qle_shift_div_l.
  - unfold Qlt. simpl. lia.
  - unfold Qle, Qmult. simpl. nia.
Qed.

Lemma capacityOf_fee_more (minBalance : Z) (a : ValidatorAccount.t) :
  (capacityOf stakePool true minBalance a <= capacityOf stakePool false minBalance a)%Q.
Proof.
  unfold capacityOf. destruct (considered minBalance a); [|lra].
  destruct (Z_le_gt_dec 0 (calcPoolTokensForDeposit stakePool (ValidatorAccount.lamports a)))
    as [Hpos|Hneg].
  - pose proof (availableForWithdrawal_fee_more _ Hpos). minmax_cases; lra.
  - assert (Hfree : (availableForWithdrawal stakePool true (ValidatorAccount.lamports a) < 0)%Q).
    { unfold availableForWithdrawal. cbn [negb andb]. unfold Qlt. simpl. lia. }
    minmax_cases; lra.
Qed.

Lemma capacity_fee_more (minBalance : Z) (accounts : list ValidatorAccount.t) :
  (capacity stakePool true minBalance accounts
   <= capacity stakePool false minBalance accounts)%Q.
Proof.
  induction accounts as [|a rest IH].
  - cbn. lra.
  - rewrite !capacity_cons. pose proof (capacityOf_fee_more minBalance a). lra.
Qed.


End FeeAndCapacity.


(** ** Adding and removing a validator *)

Lemma encodeData_AddValidatorToPool (seed : Z) :
  0 <= seed < 2 ^ 32 ->
  encodeData STAKE_POOL_INSTRUCTION_LAYOUTS.AddValidatorToPool [("seed", VNum seed)]
  = Ok ([1] ++ le_bytes 4 seed).
Proof.
  intros Hseed. unfold STAKE_POOL_INSTRUCTION_LAYOUTS.AddValidatorToPool.
  rewrite (encodeData_writes 1 _ _ [ [1]; le_bytes 4 seed ]).
  - cbn [List.concat app]. rewrite app_nil_r. reflexivity.
  - repeat apply Forall2_cons; try apply Forall2_nil;
      eexists; (split; [reflexivity|]); cbn.
    + rewrite <- (le_bytes_one 1) by lia. apply UInt_writes; cbn; lia.
    + apply (UInt_writes 4); [lia|exact Hseed].
  - reflexivity.
Qed.

Lemma first_with_vote (validatorVote : PublicKey) (validators : list ValidatorStakeInfo) :
  Forall (fun v => voteAccountAddress v <> validatorVote) validators
  \/ exists before validatorInfo after,
       validators = before ++ validatorInfo :: after
       /\ Forall (fun v => voteAccountAddress v <> validatorVote) before
       /\ voteAccountAddress validatorInfo = validatorVote.
Proof.
  induction validators as [|v rest IH].
  - left. constructor.
  - destruct (list_eq_dec Z.eq_dec (voteAccountAddress v) validatorVote) as [Heq|Hne].
    + right. exists [], v, rest. repeat split; [constructor|exact Heq].
    + destruct IH as [Hnone|[before [validatorInfo [after [Hlist [Hbefore Hvote]]]]]].
      * left. constructor; assumption.
      * right. exists (v :: before), validatorInfo, after. rewrite Hlist.
        repeat split; [constructor; assumption|exact Hvote].
Qed.

Section ValidatorMembershipProperties.

Variable web3_js : Web3.
Variable toBase58 : PublicKey -> string.
Variable SystemProgram_createAccount :
  PublicKey -> PublicKey -> Z -> Z -> PublicKey -> TransactionInstruction.t.
Variable StakeProgram_space : Z.
Variables (connection : Connection) (stakePoolAddress : PublicKey) (stakePool : StakePool).
Variables (poolStaker validatorVote staker destinationStake : PublicKey) (seed : Z).

Local Abbreviation derive := (PublicKey_findProgramAddressSync web3_js).
Local Abbreviation withdrawAuthority :=
  (findWithdrawAuthorityProgramAddress web3_js STAKE_POOL_PROGRAM_ID stakePoolAddress).
Local Abbreviation add :=
  (addValidatorToPool web3_js toBase58 connection stakePoolAddress stakePool poolStaker
     validatorVote seed).
Local Abbreviation remove :=
  (removeValidatorFromPool web3_js SystemProgram_createAccount StakeProgram_space
     connection stakePoolAddress stakePool poolStaker validatorVote staker
     destinationStake).

Hypothesis seed_fits : 0 <= seed < 2 ^ 32.

Lemma membership_absent :
  Forall (fun v => voteAccountAddress v <> validatorVote) (validators connection) ->
  add
  = Returned
      [ TransactionInstruction.mk STAKE_POOL_PROGRAM_ID
          [ key stakePoolAddress false true;
            key poolStaker true false;
            key (reserveStake stakePool) false true;
            key withdrawAuthority false false;
            key (validatorList stakePool) false true;
            key (findStakeProgramAddress derive STAKE_POOL_PROGRAM_ID validatorVote
                   stakePoolAddress) false true;
            key validatorVote false false;
            key (SYSVAR_RENT_PUBKEY web3_js) false false;
            key (SYSVAR_CLOCK_PUBKEY web3_js) false false;
            key (SYSVAR_STAKE_HISTORY_PUBKEY web3_js) false false;
            key (STAKE_CONFIG_ID web3_js) false false;
            key (SystemProgram_programId web3_js) false false;
            key (StakeProgram_programId web3_js) false false ]
          ([1] ++ le_bytes 4 seed) ]
  /\ remove = Threw (ErrorMessage "Vote account not found in validator list").
Proof.
  intros Hnone. unfold addValidatorToPool, removeValidatorFromPool.
  rewrite (findValidator_none connection validatorVote Hnone). split; [|reflexivity].
  unfold StakePoolInstruction.addValidatorToPool.
  rewrite encodeData_AddValidatorToPool by exact seed_fits. reflexivity.
Qed.

Lemma membership_present (before after : list ValidatorStakeInfo)
    (validatorInfo : ValidatorStakeInfo) :
  validators connection = before ++ validatorInfo :: after ->
  Forall (fun v => voteAccountAddress v <> validatorVote) before ->
  voteAccountAddress validatorInfo = validatorVote ->
  add
  = Threw (ErrorMessage
             ("Stake pool already contains validator " ++ toBase58 validatorVote
                ++ ", ignoring"))
  /\ remove
     = Returned
         ([ SystemProgram_createAccount staker destinationStake 0 StakeProgram_space
              (StakeProgram_programId web3_js);
            TransactionInstruction.mk STAKE_POOL_PROGRAM_ID
              [ key stakePoolAddress false true;
                key poolStaker true false;
                key withdrawAuthority false false;
                key (validatorList stakePool) false true;
                key (findStakeProgramAddress derive STAKE_POOL_PROGRAM_ID validatorVote
                       stakePoolAddress) false true;
                key (findTransientStakeProgramAddress derive STAKE_POOL_PROGRAM_ID
                       validatorVote stakePoolAddress
                       (transientSeedSuffixStart validatorInfo)) false true;
                key (SYSVAR_CLOCK_PUBKEY web3_js) false false;
                key (StakeProgram_programId web3_js) false false ]
              [2] ],
          [destinationStake]).
Proof.
  intros Hlist Hbefore Hvote. unfold addValidatorToPool, removeValidatorFromPool.
  rewrite (findValidator_first connection validatorVote before after validatorInfo
             Hlist Hbefore Hvote).
  rewrite Hvote. split; reflexivity.
Qed.

(** X18: for a seed that fits 32 bits, exactly one of [addValidatorToPool]
    and [removeValidatorFromPool] throws. When no validator of the list has
    the vote address, removing throws and adding returns the single
    instruction with data 1 and the seed, whose stake account is derived
    from the vote address without the seed. When some validator has it,
    adding throws, naming the address, and removing returns the account
    creation for the generated key followed by the instruction with data 2
    for the first validator with that address, with the generated key as
    the only signer. *)
Theorem add_and_remove_validator_guards :
  ((exists instructions, add = Returned instructions)
   <-> Forall (fun v => voteAccountAddress v <> validatorVote) (validators connection))
  /\ ((exists result, remove = Returned result)
      <-> Exists (fun v => voteAccountAddress v = validatorVote) (validators connection))
  /\ (Forall (fun v => voteAccountAddress v <> validatorVote) (validators connection) ->
      add
      = Returned
          [ TransactionInstruction.mk STAKE_POOL_PROGRAM_ID
              [ key stakePoolAddress false true;
                key poolStaker true false;
                key (reserveStake stakePool) false true;
                key withdrawAuthority false false;
                key (validatorList stakePool) false true;
                key (findStakeProgramAddress derive STAKE_POOL_PROGRAM_ID validatorVote
                       stakePoolAddress) false true;
                key validatorVote false false;
                key (SYSVAR_RENT_PUBKEY web3_js) false false;
                key (SYSVAR_CLOCK_PUBKEY web3_js) false false;
                key (SYSVAR_STAKE_HISTORY_PUBKEY web3_js) false false;
                key (STAKE_CONFIG_ID web3_js) false false;
                key (SystemProgram_programId web3_js) false false;
                key (StakeProgram_programId web3_js) false false ]
              ([1] ++ le_bytes 4 seed) ]
      /\ remove = Threw (ErrorMessage "Vote account not found in validator list"))
  /\ (forall before validatorInfo after,
        validators connection = before ++ validatorInfo :: after ->
        Forall (fun v => voteAccountAddress v <> validatorVote) before ->
        voteAccountAddress validatorInfo = validatorVote ->
        add
        = Threw (ErrorMessage
                   ("Stake pool already contains validator " ++ toBase58 validatorVote
                      ++ ", ignoring"))
        /\ remove
           = Returned
               ([ SystemProgram_createAccount staker destinationStake 0
                    StakeProgram_space (StakeProgram_programId web3_js);
                  TransactionInstruction.mk STAKE_POOL_PROGRAM_ID
                    [ key stakePoolAddress false true;
                      key poolStaker true false;
                      key withdrawAuthority false false;
                      key (validatorList stakePool) false true;
                      key (findStakeProgramAddress derive STAKE_POOL_PROGRAM_ID
                             validatorVote stakePoolAddress) false true;
                      key (findTransientStakeProgramAddress derive STAKE_POOL_PROGRAM_ID
                             validatorVote stakePoolAddress
                             (transientSeedSuffixStart validatorInfo)) false true;
                      key (SYSVAR_CLOCK_PUBKEY web3_js) false false;
                      key (StakeProgram_programId web3_js) false false ]
                    [2] ],
                [destinationStake])).
Proof.
  split; [|split; [|split]].
  - split.
    + intros [instructions Hadd].
      destruct (first_with_vote validatorVote (validators connection))
        as [Hnone|[before [validatorInfo [after [Hlist [Hbefore Hvote]]]]]];
        [exact Hnone|].
      destruct (membership_present before after validatorInfo Hlist Hbefore Hvote)
        as [Hthrew _].
      rewrite Hthrew in Hadd. discriminate.
    + intros Hnone. eexists. exact (proj1 (membership_absent Hnone)).
  - split.
    + intros [result Hremove].
      destruct (first_with_vote validatorVote (validators connection))
        as [Hnone|[before [validatorInfo [after [Hlist [Hbefore Hvote]]]]]].
      * rewrite (proj2 (membership_absent Hnone)) in Hremove. discriminate.
      * rewrite Hlist. apply Exists_app. right. constructor. exact Hvote.
    + intros Hsome.
      destruct (first_with_vote validatorVote (validators connection))
        as [Hnone|[before [validatorInfo [after [Hlist [Hbefore Hvote]]]]]].
      * exfalso. apply Exists_exists in Hsome. destruct Hsome as [v [Hin Hv]].
        rewrite Forall_forall in Hnone. exact (Hnone v Hin Hv).
      * eexists.
        exact (proj2 (membership_present before after validatorInfo Hlist Hbefore Hvote)).
  - exact membership_absent.
  - intros before validatorInfo after. exact (membership_present before after validatorInfo).
Qed.

End ValidatorMembershipProperties.

Lemma add_and_remove_validator_guards_witness :
  (exists instructions,
     addValidatorToPool Services.web3_js (fun _ => "vote") Sample.connection
       Sample.poolAddress Sample.pool [4] [6] 1 = Returned instructions)
  <-> Forall (fun v => voteAccountAddress v <> [6]) (validators Sample.connection).
Proof.
  apply (add_and_remove_validator_guards Services.web3_js (fun _ => "vote")
           (fun _ _ _ _ _ => TransactionInstruction.mk [] [] []) 200
           Sample.connection Sample.poolAddress Sample.pool [4] [6] [10] [11] 1).
  lia.
Defined.

(** ** How many bytes the pool layouts read *)

Lemma least_le_most (fields : list Layout) (bounds : list (Z * Z)) :
  Forall2 fieldWithin fields bounds -> 0 <= least bounds <= most bounds.
Proof.
  unfold least, most.
  induction 1 as [|fd r fields bounds [Hr _] _ IH]; cbn [fold_right]; lia.
Qed.

Lemma struct_decode_within (fields : list Layout) (bounds : list (Z * Z)) :
  Forall2 fieldWithin fields bounds ->
  forall (b : Buffer) (offset : Z) (dest : list (string * Value)),
    0 <= offset ->
    (forall dest' n,
       struct_decode fields b offset dest = Ok (dest', n) ->
       offset + least bounds <= n <= offset + most bounds)
    /\ (offset + most bounds <= blen b ->
        exists dest' n, struct_decode fields b offset dest = Ok (dest', n)).
Proof.
  induction 1 as [|fd r fields bounds [Hr Hfd] Hrest IH]; intros b offset dest Ho.
  - cbn. split.
    + intros dest' n H. injection H as _ <-. lia.
    + intros _. eauto.
  - pose proof (least_le_most _ _ Hrest) as Hsum.
    destruct (Hfd b offset Ho) as [Hspan Htotal].
    unfold least, most in *. cbn [struct_decode fold_right].
    split.
    + intros dest' n H.
      destruct (match property fd with
                | Some p => v <- decode fd b offset ;; Ok (setProperty dest p v)
                | None => Ok dest
                end) as [dest1|e]; [|discriminate].
      cbn [bind] in H.
      destruct (getSpan fd b offset) as [s|e] eqn:Hs; [|discriminate].
      cbn [bind] in H. pose proof (Hspan s eq_refl) as Hbound.
      destruct (IH b (offset + s) dest1 ltac:(lia)) as [Hn _].
      specialize (Hn dest' n H). lia.
    + intros Hfit.
      destruct Htotal as [[v Hv] [s Hs]]; [lia|].
      pose proof (Hspan s Hs) as Hbound.
      assert (Hfirst : exists dest1,
                match property fd with
                | Some p => v <- decode fd b offset ;; Ok (setProperty dest p v)
                | None => Ok dest
                end = Ok dest1).
      { destruct (property fd); [rewrite Hv; cbn [bind]|]; eauto. }
      destruct Hfirst as [dest1 ->]. rewrite Hs. cbn [bind].
      apply (IH b (offset + s) dest1); lia.
Qed.

Lemma UInt_fieldSpan (width : Z) (property : option string) :
  0 <= width -> fieldSpan (UInt_object width property) width width.
Proof.
  intros Hw b offset Ho. cbn [getSpan decode UInt_object]. unfold Layout_getSpan.
  destruct (Z.ltb_spec width 0) as [|_]; [lia|]. split.
  - intros s H. injection H as <-. lia.
  - intros Hfit. rewrite readUIntLE_in_range by lia. cbn [bind]. eauto.
Qed.

Lemma u64_fieldSpan (property : option string) : fieldSpan (u64 property) 8 8.
Proof.
  intros b offset Ho. cbn [getSpan decode u64]. split.
  - intros s H. injection H as <-. lia.
  - intros Hfit. rewrite readUIntLE_in_range by lia. cbn [bind]. eauto.
Qed.

Lemma Blob_fieldSpan (length : Z) (property : option string) :
  fieldSpan (Blob length property) length length.
Proof.
  intros b offset Ho. cbn [getSpan decode Blob]. split.
  - intros s H. injection H as <-. lia.
  - intros _. eauto.
Qed.

Lemma struct_fieldSpan (fields : list Layout) (bounds : list (Z * Z))
    (property : option string) (n : Z) :
  Forall2 fieldWithin fields bounds ->
  struct_span fields = n -> most bounds = n ->
  fieldSpan (struct fields property) n n.
Proof.
  intros Hfields Hspan Hmost b offset Ho.
  pose proof (least_le_most _ _ Hfields) as Hsum.
  unfold struct. rewrite Hspan. cbn [getSpan decode Structure].
  destruct (Z.leb_spec 0 n) as [Hpos|]; [|lia]. split.
  - intros s H. injection H as <-. lia.
  - intros Hfit. split; [|eauto].
    destruct (proj2 (struct_decode_within _ _ Hfields b offset [] Ho))
      as [dest' [m Hm]]; [lia|].
    rewrite Hm. cbn [bind]. eauto.
Qed.

Lemma discriminated_fieldSpan (layout : Layout) (n : Z)
    (decodeOf : Buffer -> Z -> result Value) (getSpanOf : Buffer -> Z -> result Z) :
  0 <= n -> fieldSpan layout n n ->
  (forall b offset,
     decodeOf b offset
     = (d <- decode (u8 None) b offset ;;
        match d with
        | VNum 0 => Ok VNull
        | _ => decode layout b (offset + 1)
        end)) ->
  (forall b offset,
     getSpanOf b offset
     = (d <- decode (u8 None) b offset ;;
        match d with
        | VNum 0 => Ok 1
        | _ => s <- getSpan layout b (offset + 1) ;; Ok (s + 1)
        end)) ->
  forall (b : Buffer) (offset : Z),
    0 <= offset ->
    (forall s, getSpanOf b offset = Ok s -> 1 <= s <= n + 1)
    /\ (offset + (n + 1) <= blen b ->
        (exists v, decodeOf b offset = Ok v) /\ (exists s, getSpanOf b offset = Ok s)).
Proof.
  intros Hn Hlayout Hdecode HgetSpan b offset Ho.
  rewrite Hdecode, HgetSpan.
  destruct (Hlayout b (offset + 1) ltac:(lia)) as [Hspan Htotal].
  split.
  - intros s H.
    destruct (decode (u8 None) b offset) as [d|e]; [|discriminate]. cbn [bind] in H.
    assert (Hinner : (t <- getSpan layout b (offset + 1) ;; Ok (t + 1)) = Ok s ->
                     1 <= s <= n + 1).
    { intros Ht. destruct (getSpan layout b (offset + 1)) as [t|e] eqn:Et;
        [|discriminate].
      cbn [bind] in Ht. injection Ht as <-. pose proof (Hspan t eq_refl). lia. }
    destruct d as [| |k| | |]; try exact (Hinner H).
    destruct k; try exact (Hinner H). injection H as <-. lia.
  - intros Hfit. rewrite u8_decode by lia. cbn [bind].
    destruct Htotal as [[v Hv] [s Hs]]; [lia|].
    rewrite Hv, Hs. cbn [bind].
    destruct (byteAt b offset); eauto.
Qed.

Lemma futureEpoch_fieldSpan (layout : Layout) (property : option string) (n : Z) :
  0 <= n -> fieldSpan layout n n -> fieldSpan (futureEpoch layout property) 1 (n + 1).
Proof.
  intros Hn Hlayout.
  exact (discriminated_fieldSpan layout n
           (decode (futureEpoch layout property)) (getSpan (futureEpoch layout property))
           Hn Hlayout (fun _ _ => eq_refl) (fun _ _ => eq_refl)).
Qed.

Lemma OptionLayout_fieldSpan (layout : Layout) (property : option string) (n : Z) :
  0 <= n -> fieldSpan layout n n -> fieldSpan (OptionLayout layout property) 1 (n + 1).
Proof.
  intros Hn Hlayout.
  exact (discriminated_fieldSpan layout n
           (decode (OptionLayout layout property)) (getSpan (OptionLayout layout property))
           Hn Hlayout (fun _ _ => eq_refl) (fun _ _ => eq_refl)).
Qed.

Lemma fee_fieldSpan (property : option string) : fieldSpan (fee property) 16 16.
Proof.
  apply (struct_fieldSpan _ [fixed 8; fixed 8]); [|reflexivity|reflexivity].
  repeat apply Forall2_cons; try apply Forall2_nil;
    (split; [cbn; lia|apply u64_fieldSpan]).
Qed.

Lemma lockup_fieldSpan (property : option string) : fieldSpan (lockup property) 48 48.
Proof.
  apply (struct_fieldSpan _ [fixed 8; fixed 8; fixed 32]); [|reflexivity|reflexivity].
  repeat apply Forall2_cons; try apply Forall2_nil;
    (split; [cbn; lia|]);
    first [apply u64_fieldSpan | apply (Blob_fieldSpan 32)].
Qed.

(** Proves the bounds of one field of a pool layout. *)
Ltac pool_field :=
  split; [cbn; lia|];
  first [ apply (UInt_fieldSpan 1); lia
        | apply u64_fieldSpan
        | apply (Blob_fieldSpan 32)
        | apply fee_fieldSpan
        | apply lockup_fieldSpan
        | apply (futureEpoch_fieldSpan _ _ 16); [lia|apply fee_fieldSpan]
        | apply (OptionLayout_fieldSpan _ _ 32); [lia|apply (Blob_fieldSpan 32)]
        | apply (OptionLayout_fieldSpan _ _ 16); [lia|apply fee_fieldSpan] ].

Lemma StakePoolLayout_fields_within :
  Forall2 fieldWithin StakePoolLayout_fields StakePoolLayout_bounds.
Proof.
  unfold StakePoolLayout_fields, StakePoolLayout_bounds.
  repeat (apply Forall2_cons; [pool_field|]). apply Forall2_nil.
Qed.

Lemma StakePoolLayout_ts_fields_within :
  Forall2 fieldWithin StakePoolLayout_ts_fields StakePoolLayout_ts_bounds.
Proof.
  unfold StakePoolLayout_ts_fields, StakePoolLayout_ts_bounds.
  repeat (apply Forall2_cons; [pool_field|]). apply Forall2_nil.
Qed.

